(** * jee_mocks_db: mock assembly, token codec, exam session and scoring

    A shallow embedding of the two sides of the mock pipeline:

    - [TopicRoute] and [MockRoute]: the two server routes of
      [frontend/app/api/.../route.ts] (JSONL parsing, parameter clamping,
      question normalisation, pool building, sampling, token encoding);
    - [MockClient]: [frontend/app/mock/mock-client.tsx] (token decoding,
      scoring, the session timer);
    - [Runtime]: the scoring call of [mock-client.tsx] once more, with the
      read of the answers through the prototype chain and the percentages in
      binary64 arithmetic.

    JavaScript strings are modelled as [string] (sequences of 8-bit code
    units), byte buffers as [list byte], objects used as dictionaries as
    [gmap string _], arrays as [list], and [number]s either as [Z] (counters,
    millisecond timestamps), as [Q] (percentages) or as [number] (request
    parameters, where NaN and the infinities matter). *)

From Stdlib Require Import ZArith QArith Qround Lqa String Ascii List Lia.
From Stdlib.Strings Require Import Byte.
From Stdlib Require Import DecimalString DecimalPos DecimalZ.
From stdpp Require Import base option list gmap strings pretty countable.

Local Open Scope Z_scope.

(** ** JavaScript built-ins used by the sources *)

Module JS.

(** ECMAScript [WhiteSpace] and [LineTerminator] code units below 256. *)
Definition isWhiteSpace (c : ascii) : bool :=
  match N_of_ascii c with
  | 9 | 10 | 11 | 12 | 13 | 32 | 160 => true
  | _ => false
  end%N.

Fixpoint trimStart (s : string) : string :=
  match s with
  | EmptyString => EmptyString
  | String c s' => if isWhiteSpace c then trimStart s' else s
  end.

Fixpoint trimEnd (s : string) : string :=
  match s with
  | EmptyString => EmptyString
  | String c s' =>
      match trimEnd s' with
      | EmptyString => if isWhiteSpace c then EmptyString else String c EmptyString
      | t => String c t
      end
  end.

(** [String.prototype.trim] *)
Definition trim (s : string) : string := trimEnd (trimStart s).

(** Upper-casing of one code unit: the ASCII letters [a]..[z]. *)
Definition upperChar (c : ascii) : ascii :=
  let n := N_of_ascii c in
  if ((97 <=? n) && (n <=? 122))%N then ascii_of_N (n - 32) else c.

(** [String.prototype.toUpperCase] *)
Fixpoint toUpperCase (s : string) : string :=
  match s with
  | EmptyString => EmptyString
  | String c s' => String (upperChar c) (toUpperCase s')
  end.

(** Truthiness of a string: [s] is falsy exactly when it is empty. *)
Definition truthy (s : string) : bool :=
  match s with EmptyString => false | _ => true end.

(** [s || d] on strings. *)
Definition or_else (s d : string) : string := if truthy s then s else d.

(** A JavaScript [number] as far as the request parameters need it. *)
Inductive number : Type :=
  | NaN
  | NegInfinity
  | Num (q : Q)
  | Infinity.

(** Truthiness of a number: [NaN] and zero are falsy. *)
Definition num_truthy (x : number) : bool :=
  match x with
  | NaN => false
  | Num q => negb (Qeq_bool q 0)
  | _ => true
  end.

(** [x || d] on numbers. *)
Definition num_or (x d : number) : number := if num_truthy x then x else d.

(** [x <= y] on numbers that are not [NaN]. *)
Definition num_leb (x y : number) : bool :=
  match x, y with
  | NaN, _ | _, NaN => false
  | NegInfinity, _ => true
  | _, Infinity => true
  | Num a, Num b => Qle_bool a b
  | _, _ => false
  end.

(** [Math.min] and [Math.max] of two arguments: [NaN] is contagious. *)
Definition Math_min (x y : number) : number :=
  match x, y with
  | NaN, _ | _, NaN => NaN
  | _, _ => if num_leb x y then x else y
  end.

Definition Math_max (x y : number) : number :=
  match x, y with
  | NaN, _ | _, NaN => NaN
  | _, _ => if num_leb x y then y else x
  end.

(** [Math.round] on exact rationals: the nearest integer, ties upwards. *)
Definition Math_round (q : Q) : Z := Qfloor (q + (1 # 2)).

(** [Math.max(0, q)] on finite numbers. *)
Definition Qmax0 (q : Q) : Q := if Qle_bool 0 q then q else 0%Q.

(** [x + y] and [x * y]: exact on finite operands, with the usual rules for
    [NaN] and the infinities. *)
Definition num_add (x y : number) : number :=
  match x, y with
  | Num a, Num b => Num (a + b)
  | NaN, _ | _, NaN => NaN
  | Infinity, NegInfinity | NegInfinity, Infinity => NaN
  | Infinity, _ | _, Infinity => Infinity
  | NegInfinity, _ | _, NegInfinity => NegInfinity
  end.

(** The sign of a number that is not [NaN]. *)
Definition num_sign (x : number) : comparison :=
  match x with
  | Num a => (a ?= 0)%Q
  | NegInfinity => Lt
  | _ => Gt
  end.

Definition num_mul (x y : number) : number :=
  match x, y with
  | Num a, Num b => Num (a * b)
  | NaN, _ | _, NaN => NaN
  | _, _ =>
      match num_sign x, num_sign y with
      | Eq, _ | _, Eq => NaN
      | Lt, Lt | Gt, Gt => Infinity
      | _, _ => NegInfinity
      end
  end.

(** *** Strings as character lists *)

Definition chars (s : string) : list ascii := list_ascii_of_string s.
Definition str (l : list ascii) : string := string_of_list_ascii l.

(** [s.slice(k)] and [s.slice(0, k)] for an in-range, non-negative [k]. *)
Definition sliceFrom (k : nat) (s : string) : string := str (drop k (chars s)).
Definition sliceTo (k : nat) (s : string) : string := str (take k (chars s)).

(** [s.replace(/c/g, d)] for single characters [c] and [d]. *)
Definition replaceAll (c d : ascii) (s : string) : string :=
  str ((fun x => if Ascii.eqb x c then d else x) <$> chars s).

(** Removes a trailing run of the character [c]: [s.replace(/c+$/g, "")]. *)
Fixpoint stripTrailingList (c : ascii) (l : list ascii) : list ascii :=
  match l with
  | [] => []
  | x :: l' =>
      match stripTrailingList c l' with
      | [] => if Ascii.eqb x c then [] else [x]
      | t => x :: t
      end
  end.

Definition stripTrailing (c : ascii) (s : string) : string :=
  str (stripTrailingList c (chars s)).

(** [s.split(sep)] for a one-character separator. *)
Fixpoint split (sep : ascii) (s : string) : list string :=
  match s with
  | EmptyString => [EmptyString]
  | String c s' =>
      if Ascii.eqb c sep then EmptyString :: split sep s'
      else match split sep s' with
           | l :: ls => String c l :: ls
           | [] => [String c EmptyString]
           end
  end.

(** [text.split(/\r?\n/)] *)
Fixpoint splitLines (s : string) : list string :=
  match s with
  | EmptyString => [EmptyString]
  | String c s' =>
      let keep :=
        match splitLines s' with
        | l :: ls => String c l :: ls
        | [] => [String c EmptyString]
        end in
      if Ascii.eqb c "010" then EmptyString :: splitLines s'
      else if Ascii.eqb c "013" then
        match s' with
        | String c' s'' =>
            if Ascii.eqb c' "010" then EmptyString :: splitLines s'' else keep
        | EmptyString => keep
        end
      else keep
  end.

(** Lower-casing of one code unit: the ASCII letters [A]..[Z]. *)
Definition lowerChar (c : ascii) : ascii :=
  let n := N_of_ascii c in
  if ((65 <=? n) && (n <=? 90))%N then ascii_of_N (n + 32) else c.

(** [String.prototype.toLowerCase] *)
Fixpoint toLowerCase (s : string) : string :=
  match s with
  | EmptyString => EmptyString
  | String c s' => String (lowerChar c) (toLowerCase s')
  end.

(** [s.replace(/[p]+/g, " ")]: every maximal run of characters satisfying
    [p] becomes one space; [inRun] tells that the previous character
    belonged to such a run. *)
Fixpoint collapseRuns (p : ascii -> bool) (inRun : bool) (s : string) : string :=
  match s with
  | EmptyString => EmptyString
  | String c s' =>
      if p c then
        if inRun then collapseRuns p true s'
        else String " " (collapseRuns p true s')
      else String c (collapseRuns p false s')
  end.

(** *** Base64: [Buffer.prototype.toString("base64")] and [atob] *)

Definition base64Alphabet : list ascii :=
  chars "ABCDEFGHIJKLMNOPQRSTUVWXYZabcdefghijklmnopqrstuvwxyz0123456789+/".

Definition sextetChar (n : N) : ascii := nth (N.to_nat n) base64Alphabet "A"%char.

Definition charSextet (c : ascii) : option N :=
  let n := N_of_ascii c in
  if ((65 <=? n) && (n <=? 90))%N then Some (n - 65)%N
  else if ((97 <=? n) && (n <=? 122))%N then Some (n - 71)%N
  else if ((48 <=? n) && (n <=? 57))%N then Some (n + 4)%N
  else if (n =? 43)%N then Some 62%N
  else if (n =? 47)%N then Some 63%N
  else None.

Definition byteOfN (n : N) : byte := default "000"%byte (Byte.of_N (n mod 256)).

(** The 6-bit groups of a buffer, the last one padded with zero bits. *)
Fixpoint sextets (buf : list byte) : list N :=
  match buf with
  | [] => []
  | [a] =>
      let x := Byte.to_N a in
      [x / 4; (x mod 4) * 16]%N
  | [a; b] =>
      let x := Byte.to_N a in
      let y := Byte.to_N b in
      [x / 4; (x mod 4) * 16 + y / 16; (y mod 16) * 4]%N
  | a :: b :: c :: rest =>
      let x := Byte.to_N a in
      let y := Byte.to_N b in
      let z := Byte.to_N c in
      [x / 4; (x mod 4) * 16 + y / 16; (y mod 16) * 4 + z / 64; z mod 64]%N
        ++ sextets rest
  end.

(** The ["="] padding that completes the last group of four characters. *)
Definition padding (buf : list byte) : list ascii :=
  match (length buf mod 3)%nat with
  | 1%nat => ["="; "="]%char
  | 2%nat => ["="]%char
  | _ => []
  end.

(** [buf.toString("base64")] *)
Definition toBase64 (buf : list byte) : string :=
  str ((sextetChar <$> sextets buf) ++ padding buf).

(** The bytes of a list of 6-bit groups; the bits of an incomplete last
    byte are discarded. *)
Fixpoint unsextets (l : list N) : list byte :=
  match l with
  | a :: b :: c :: d :: rest =>
      [byteOfN (a * 4 + b / 16); byteOfN ((b mod 16) * 16 + c / 4);
       byteOfN ((c mod 4) * 64 + d)]%N ++ unsextets rest
  | [a; b; c] => [byteOfN (a * 4 + b / 16); byteOfN ((b mod 16) * 16 + c / 4)]%N
  | [a; b] => [byteOfN (a * 4 + b / 16)]%N
  | _ => []
  end.

(** ASCII whitespace, which [atob] skips. *)
Definition isAsciiWhitespace (c : ascii) : bool :=
  match N_of_ascii c with
  | 9 | 10 | 12 | 13 | 32 => true
  | _ => false
  end%N.

(** Drops the last character when it is [c]. *)
Definition dropLastIf (c : ascii) (l : list ascii) : list ascii :=
  match rev l with
  | x :: r => if Ascii.eqb x c then rev r else l
  | [] => l
  end.

(** One or two trailing ["="] are dropped from a text whose length is a
    multiple of four. *)
Definition dropPadding (l : list ascii) : list ascii :=
  if (length l mod 4 =? 0)%nat then dropLastIf "=" (dropLastIf "=" l) else l.

(** [atob(s)] (the forgiving base64 decoding of the HTML standard): the
    binary string, or [None] where [atob] throws. *)
Definition atob (s : string) : option string :=
  let l := dropPadding (filter (fun c => isAsciiWhitespace c = false) (chars s)) in
  if (length l mod 4 =? 1)%nat then None
  else string_of_list_byte <$> (unsextets <$> mapM charSextet l).

(** [String(n)] and [Number(s)] for integers written in decimal. *)
Definition String_of_Z (z : Z) : string := NilZero.string_of_int (Z.to_int z).

Definition Number_of_string (s : string) : option Z :=
  Z.of_int <$> NilZero.int_of_string s.

(** What a call of a function that may throw gives back. *)
Inductive Outcome (A : Type) : Type :=
  | Returned (a : A)
  | Thrown (message : string).
Arguments Returned {A} a.
Arguments Thrown {A} message.

End JS.

(** ** Data model shared by the server and the client ([MockQuestion],
    [MockPayload]) *)

Inductive QType : Type := mcq | value.

Record OptionEntry : Type := mkOption { key : string; html : string }.

Record Source : Type := mkSource { file : string; recordTitle : option string }.

Record MockQuestion : Type := mkQuestion {
  id : string;
  subject : string;
  chapter : string;
  type : QType;
  examHtml : string;
  promptHtml : string;
  options : list OptionEntry;
  correctAnswer : option string;
  source : option Source
}.

Record MockPayload : Type := mkPayload {
  createdAt : string;
  expiresAt : string;
  durationSeconds : JS.number;
  maxQuestions : JS.number;
  chapters : list string;
  questions : list MockQuestion
}.

(** ** The client: [mock-client.tsx] *)

Module MockClient.

Definition TIME_LIMIT_SECONDS : Z := 20 * 60.
Definition MARKS_CORRECT : Z := 4.
Definition MARKS_WRONG : Z := -1.

(** [norm(x)]: [String(x ?? "").trim().toUpperCase()] *)
Definition norm (x : option string) : string :=
  JS.toUpperCase (JS.trim (default EmptyString x)).

Inductive Verdict : Type := correct | wrong | unattempted.

Record BreakdownRow : Type := mkRow {
  row_index : nat;
  row_id : string;
  row_chapter : string;
  row_type : QType;
  userAnswer : string;
  row_correctAnswer : string;
  verdict : Verdict;
  marks : Z
}.

Record ComputedResult : Type := mkResult {
  totalQuestions : Z;
  r_attempted : Z;
  r_correct : Z;
  r_wrong : Z;
  r_unattempted : Z;
  marksCorrect : Z;
  marksWrong : Z;
  netMarks : Z;
  maxMarks : Z;
  accuracyPercent : Q;
  scorePercent : Q;
  breakdown : list BreakdownRow
}.

(** The mutable locals of [computeResult]'s loop. *)
Record Counters : Type := mkCounters {
  c_attempted : Z;
  c_correct : Z;
  c_wrong : Z;
  c_unattempted : Z;
  c_breakdown : list BreakdownRow
}.

(** One iteration of the [for] loop of [computeResult], at index [i]. *)
Definition scoreQuestion (answers : gmap string string) (acc : Counters)
    (i : nat) (q : MockQuestion) : Counters :=
  let ua := JS.trim (default EmptyString (answers !! id q)) in
  let ca := JS.trim (default EmptyString (correctAnswer q)) in
  let row v m :=
    mkRow i (id q) (chapter q) (type q) (JS.or_else ua "-") (JS.or_else ca "-") v m in
  if negb (JS.truthy ua) then
    mkCounters (c_attempted acc) (c_correct acc) (c_wrong acc)
      (c_unattempted acc + 1) (c_breakdown acc ++ [row unattempted 0])
  else if JS.truthy ca && bool_decide (norm (Some ua) = norm (Some ca)) then
    mkCounters (c_attempted acc + 1) (c_correct acc + 1) (c_wrong acc)
      (c_unattempted acc) (c_breakdown acc ++ [row correct MARKS_CORRECT])
  else
    mkCounters (c_attempted acc + 1) (c_correct acc) (c_wrong acc + 1)
      (c_unattempted acc) (c_breakdown acc ++ [row wrong MARKS_WRONG]).

(** The loop [for (let i = 0; i < mock.questions.length; i++)], started at
    index [i] on the questions still to visit. *)
Fixpoint scoreLoop (answers : gmap string string) (i : nat)
    (qs : list MockQuestion) (acc : Counters) : Counters :=
  match qs with
  | [] => acc
  | q :: qs' => scoreLoop answers (S i) qs' (scoreQuestion answers acc i q)
  end.

Definition computeResult (mock : MockPayload) (answers : gmap string string)
    : ComputedResult :=
  let acc := scoreLoop answers 0 (questions mock) (mkCounters 0 0 0 0 []) in
  let n := Z.of_nat (length (questions mock)) in
  let marksCorrect := c_correct acc * MARKS_CORRECT in
  let marksWrong := c_wrong acc * MARKS_WRONG in
  let netMarks := marksCorrect + marksWrong in
  let maxMarks := n * MARKS_CORRECT in
  let accuracyPercent :=
    if 0 <? c_attempted acc
    then (inject_Z (JS.Math_round
            ((inject_Z (c_correct acc) / inject_Z (c_attempted acc)) * 1000)) / 10)%Q
    else 0%Q in
  let scorePercentRaw :=
    if 0 <? maxMarks
    then ((inject_Z netMarks / inject_Z maxMarks) * 100)%Q
    else 0%Q in
  let scorePercent :=
    JS.Qmax0 (inject_Z (JS.Math_round (scorePercentRaw * 10)) / 10)%Q in
  mkResult n (c_attempted acc) (c_correct acc) (c_wrong acc) (c_unattempted acc)
    marksCorrect marksWrong netMarks maxMarks accuracyPercent scorePercent
    (c_breakdown acc).

(** *** Token decoding *)

(** [base64urlToUint8Array(b64url)] *)
Definition base64urlToUint8Array (b64url : string) : option (list byte) :=
  let b64 :=
    String.append (JS.replaceAll "_" "/" (JS.replaceAll "-" "+" b64url))
      (JS.sliceFrom ((String.length b64url + 3) mod 4) "===") in
  list_byte_of_string <$> JS.atob b64.

Section Decode.
(** The payload type [T] of [gunzipToJson<T>] and the platform services
    it calls: the gzip [DecompressionStream], the UTF-8 decoding of
    [Response.text()] and [JSON.parse]. *)
Context {T : Type}.
Variable gunzip : list byte -> option (list byte).
Variable utf8_decode : list byte -> string.
Variable JSON_parse : string -> option T.

(** [gunzipToJson<T>(token)]; [None] when a stage throws. *)
Definition gunzipToJson (token : string) : option T :=
  bytes ← base64urlToUint8Array token;
  raw ← gunzip bytes;
  JSON_parse (utf8_decode raw).
End Decode.

(** *** The session: component state, timer effect and transitions *)

Definition newSessionStartKey (token : string) : string :=
  String.append "mock_start_v1:" (JS.sliceTo 48 token).

(** [localStorage]: [None] when the storage is not accessible (every
    access throws). *)
Definition Storage : Type := option (gmap string string).

(** [readOrInitSessionStart(token)] at the instant [now]: the session
    start and the storage it leaves. *)
Definition readOrInitSessionStart (token : string) (now : Z) (ls : Storage)
    : Z * Storage :=
  let key := newSessionStartKey token in
  match ls with
  | None => (now, None)
  | Some m =>
      let init := (now, Some (<[key := JS.String_of_Z now]> m)) in
      match m !! key with
      | Some existing =>
          if JS.truthy existing then
            match JS.Number_of_string existing with
            | Some t => if 0 <? t then (t, ls) else init
            | None => init
            end
          else init
      | None => init
      end
  end.

Definition clamp (n lo hi : Z) : Z := Z.max lo (Z.min hi n).

(** The state of [MockClient]: its [useState] cells, the interval the
    timer effect has registered (with the session start its [tick] closure
    captured) and the device's [localStorage]. *)
Record State : Type := mkState {
  mock : option MockPayload;
  token : string;
  err : option string;
  answers : gmap string string;
  current : Z;
  remainingMs : Z;
  submitted : bool;
  showModal : bool;
  interval : option Z;
  localStorage : Storage
}.

Definition initialState (ls : Storage) : State :=
  mkState None EmptyString None ∅ 0 (TIME_LIMIT_SECONDS * 1000) false false None ls.

Definition setRemainingMs (v : Z) (st : State) : State :=
  mkState (mock st) (token st) (err st) (answers st) (current st) v
    (submitted st) (showModal st) (interval st) (localStorage st).

Definition setSubmitted (v : bool) (st : State) : State :=
  mkState (mock st) (token st) (err st) (answers st) (current st) (remainingMs st)
    v (showModal st) (interval st) (localStorage st).

Definition setShowModal (v : bool) (st : State) : State :=
  mkState (mock st) (token st) (err st) (answers st) (current st) (remainingMs st)
    (submitted st) v (interval st) (localStorage st).

Definition setInterval (v : option Z) (st : State) : State :=
  mkState (mock st) (token st) (err st) (answers st) (current st) (remainingMs st)
    (submitted st) (showModal st) v (localStorage st).

Definition setLocalStorage (v : Storage) (st : State) : State :=
  mkState (mock st) (token st) (err st) (answers st) (current st) (remainingMs st)
    (submitted st) (showModal st) (interval st) v.

Definition setToken (v : string) (st : State) : State :=
  mkState (mock st) v (err st) (answers st) (current st) (remainingMs st)
    (submitted st) (showModal st) (interval st) (localStorage st).

Definition setMock (v : option MockPayload) (st : State) : State :=
  mkState v (token st) (err st) (answers st) (current st) (remainingMs st)
    (submitted st) (showModal st) (interval st) (localStorage st).

Definition setErr (v : option string) (st : State) : State :=
  mkState (mock st) (token st) v (answers st) (current st) (remainingMs st)
    (submitted st) (showModal st) (interval st) (localStorage st).

Definition setAnswers (v : gmap string string) (st : State) : State :=
  mkState (mock st) (token st) (err st) v (current st) (remainingMs st)
    (submitted st) (showModal st) (interval st) (localStorage st).

Definition setCurrent (v : Z) (st : State) : State :=
  mkState (mock st) (token st) (err st) (answers st) v (remainingMs st)
    (submitted st) (showModal st) (interval st) (localStorage st).

(** The time left that [tick] computes from the session start. *)
Definition timeLeft (start now : Z) : Z :=
  let elapsed := now - start in
  TIME_LIMIT_SECONDS * 1000 - elapsed.

(** [tick()], run at the instant [now] by a closure that captured [start]. *)
Definition tick (start now : Z) (st : State) : State :=
  let left := timeLeft start now in
  let st := setRemainingMs left st in
  if left <=? 0 then setShowModal true (setSubmitted true st) else st.

(** Whether that run of [tick] took the branch that submits. *)
Definition tickSubmits (start now : Z) : bool := timeLeft start now <=? 0.

(** One run of the timer effect at the instant [now]: the cleanup of the
    previous run ([clearInterval]), then the effect's body. The second
    component counts the submissions its call of [tick] made. *)
Definition timerEffect (now : Z) (st : State) : State * nat :=
  let st := setInterval None st in
  if negb (JS.truthy (token st)) || submitted st then (st, 0%nat)
  else
    let '(start, ls) := readOrInitSessionStart (token st) now (localStorage st) in
    let st := tick start now (setLocalStorage ls st) in
    (setInterval (Some start) st, if tickSubmits start now then 1%nat else 0%nat).

(** The effect's dependency list [[token, submitted]] differs. *)
Definition depsChanged (a b : State) : bool :=
  negb (String.eqb (token a) (token b)) || negb (Bool.eqb (submitted a) (submitted b)).

(** After a state update from [before] to [after], the effect runs again
    when a dependency changed; its own [tick] may change [submitted], which
    makes it run once more. *)
Definition commit (now : Z) (before after : State) : State * nat :=
  if depsChanged before after then
    let '(s1, n1) := timerEffect now after in
    if depsChanged after s1 then
      let '(s2, n2) := timerEffect now s1 in (s2, (n1 + n2)%nat)
    else (s1, n1)
  else (after, 0%nat).

Definition currentQuestion (st : State) : option MockQuestion :=
  m ← mock st; questions m !! Z.to_nat (current st).

Definition total (st : State) : Z :=
  match mock st with
  | Some m => Z.of_nat (length (questions m))
  | None => 0
  end.

(** What happens to the component, each at an instant [now]. *)
Inductive Event : Type :=
  | TokenRead (t : string) (m : option MockPayload)
  | IntervalFired
  | SubmitNow
  | CloseModal
  | SetAnswer (v : string)
  | Prev
  | Next
  | JumpTo (i : Z).

(** One transition; the second component counts the submissions made by
    [tick] during it. *)
Definition step (now : Z) (ev : Event) (st : State) : State * nat :=
  match ev with
  | TokenRead t m =>
      if negb (JS.truthy t) then
        (setErr (Some "Missing token. Open this page with /mock?m=...") st, 0%nat)
      else
        let st1 := setToken t st in
        let st2 :=
          match m with
          | Some data =>
              if (length (questions data) =? 0)%nat
              then setErr (Some "Invalid mock payload.") st1
              else setMock (Some data) st1
          | None => setErr (Some "Failed to decode mock token.") st1
          end in
        commit now st st2
  | IntervalFired =>
      match interval st with
      | None => (st, 0%nat)
      | Some start =>
          let '(st', n) := commit now st (tick start now st) in
          (st', ((if tickSubmits start now then 1 else 0) + n)%nat)
      end
  | SubmitNow => commit now st (setShowModal true (setSubmitted true st))
  | CloseModal => (setShowModal false st, 0%nat)
  | SetAnswer v =>
      match currentQuestion st with
      | Some q =>
          if submitted st then (st, 0%nat)
          else (setAnswers (<[id q := v]> (answers st)) st, 0%nat)
      | None => (st, 0%nat)
      end
  | Prev => (setCurrent (Z.max 0 (current st - 1)) st, 0%nat)
  | Next =>
      match mock st with
      | Some m =>
          (setCurrent (Z.min (current st + 1) (Z.of_nat (length (questions m)) - 1)) st,
           0%nat)
      | None => (st, 0%nat)
      end
  | JumpTo i => (setShowModal false (setCurrent (clamp i 0 (total st - 1)) st), 0%nat)
  end.

(** A run of the component over timed events; the count is the number of
    submissions made by timer ticks. *)
Fixpoint run (evs : list (Z * Event)) (st : State) : State * nat :=
  match evs with
  | [] => (st, 0%nat)
  | (now, ev) :: evs' =>
      let '(st1, n1) := step now ev st in
      let '(st2, n2) := run evs' st1 in
      (st2, (n1 + n2)%nat)
  end.

(** [useMemo(() => !mock || !submitted ? null : computeResult(mock, answers))] *)
Definition result (st : State) : option ComputedResult :=
  match mock st with
  | Some m => if submitted st then Some (computeResult m (answers st)) else None
  | None => None
  end.

End MockClient.

(** ** The topic route: the first [route.ts] *)

Module TopicRoute.

Section ParseJsonl.
(** [JSON.parse] on one line: the value, or the message of the
    [SyntaxError] it throws. *)
Context {A : Type}.
Variable JSON_parse : string -> JS.Outcome A.

Record ParseError : Type := mkParseError { line : nat; message : string }.

Record Parsed : Type := mkParsed {
  data : list A;
  parseErrors : list ParseError;
  totalLines : nat
}.

(** The non-blank lines of the text. *)
Definition nonBlankLines (text : string) : list string :=
  filter (fun l => (0 < String.length (JS.trim l))%nat) (JS.splitLines text).

(** The [for] loop of [parseJsonl] from index [i] on: a line that parses
    is pushed to [data], one that throws is recorded under its 1-based
    number. *)
Fixpoint parseLoop (i : nat) (lines : list string) (data : list A)
    (errs : list ParseError) : list A * list ParseError :=
  match lines with
  | [] => (data, errs)
  | l :: lines' =>
      match JSON_parse l with
      | JS.Returned v => parseLoop (S i) lines' (data ++ [v]) errs
      | JS.Thrown m => parseLoop (S i) lines' data (errs ++ [mkParseError (i + 1) m])
      end
  end.

Definition parseJsonl (text : string) : Parsed :=
  let lines := nonBlankLines text in
  let '(data, errs) := parseLoop 0 lines [] [] in
  mkParsed data errs (length lines).

(** What [GET] answers: the fetch failed, no line parsed, or the rows. *)
Inductive Response : Type :=
  | FetchFailed
  | NoValidLines (errors : list ParseError)
  | Topic (count : nat) (errors : list ParseError) (rows : list A).

(** [GET], on what the fetch of the topic file gave: its text, or [None]
    when the response is not [ok]. *)
Definition GET (fetched : option string) : Response :=
  match fetched with
  | None => FetchFailed
  | Some text =>
      let r := parseJsonl text in
      if (0 <? totalLines r)%nat && (length (data r) =? 0)%nat
      then NoValidLines (take 10 (parseErrors r))
      else Topic (length (data r))
             (if (0 <? length (parseErrors r))%nat then take 10 (parseErrors r) else [])
             (data r)
  end.
End ParseJsonl.

End TopicRoute.

(** ** The mock assembly route: the second [route.ts] *)

Module MockRoute.

(** [IndexShape]: the subjects in key order, each with its [topicList] or
    the keys of its [topics]. *)
Record SubjectNode : Type := mkNode {
  topicList : option (list string);
  topics : option (list string)
}.

Definition IndexShape : Type := option (list (string * SubjectNode)).

Record RawQuestion : Type := mkRaw {
  number : option Z;
  question_type : option QType;
  exam_html : option string;
  text_html : string;
  options_html : option string;
  explanation_html : option string
}.

Record ChapterRecord : Type := mkRecord {
  rec_subject : string;
  rec_topic : string;
  rec_file : string;
  rel_path : option string;
  title : option string;
  rec_questions : list RawQuestion;
  answer_key : option (list string)
}.

Section ParseJsonl.
Variable JSON_parse : string -> JS.Outcome ChapterRecord.

(** The loop [for (...) out.push(JSON.parse(lines[i]))]: the first line
    that does not parse throws out of the loop. *)
Fixpoint parseLoop (lines : list string) (out : list ChapterRecord)
    : JS.Outcome (list ChapterRecord) :=
  match lines with
  | [] => JS.Returned out
  | l :: lines' =>
      match JSON_parse l with
      | JS.Returned v => parseLoop lines' (out ++ [v])
      | JS.Thrown m => JS.Thrown m
      end
  end.

Definition parseJsonl (text : string) : JS.Outcome (list ChapterRecord) :=
  let lines :=
    filter (fun l => (0 < String.length (JS.trim l))%nat) (JS.splitLines text) in
  parseLoop lines [].
End ParseJsonl.

Definition isSeparator (c : ascii) : bool := Ascii.eqb c "-" || Ascii.eqb c "_".

(** [normalize(s)] *)
Definition normalize (s : string) : string :=
  JS.collapseRuns JS.isWhiteSpace false
    (JS.collapseRuns isSeparator false (JS.toLowerCase (JS.trim s))).

(** [raw.replace(/%2C/gi, ",")] *)
Fixpoint unescapeCommas (s : string) : string :=
  match s with
  | EmptyString => EmptyString
  | String c s' =>
      match s' with
      | String c1 (String c2 s'') =>
          if Ascii.eqb c "%" && Ascii.eqb c1 "2"
             && (Ascii.eqb c2 "C" || Ascii.eqb c2 "c")
          then String "," (unescapeCommas s'')
          else String c (unescapeCommas s')
      | _ => String c (unescapeCommas s')
      end
  end.

Definition splitParamList (raw : string) : list string :=
  filter (fun x => JS.truthy x = true) (JS.trim <$> JS.split "," (unescapeCommas raw)).

(** The sampler draws [Math.random()] once per loop iteration; the [k]-th
    draw is the 53-bit fraction [random k / 2^53]. *)
Definition randomIndex (r : N) (bound : nat) : nat :=
  N.to_nat ((r mod 2 ^ 53) * N.of_nat bound / 2 ^ 53).

(** [[a[i], a[j]] = [a[j], a[i]]] *)
Definition swap {T : Type} (a : list T) (i j : nat) : list T :=
  match a !! i, a !! j with
  | Some x, Some y => <[j := x]> (<[i := y]> a)
  | _, _ => a
  end.

(** The loop [for (let i = a.length - 1; i > 0; i--)] with [i] iterations
    left, the next of which uses the [k]-th draw. *)
Fixpoint shuffleLoop {T : Type} (random : nat -> N) (i k : nat) (a : list T) : list T :=
  match i with
  | O => a
  | S i' => shuffleLoop random i' (S k) (swap a i (randomIndex (random k) (i + 1)))
  end.

(** [a.slice(0, e)] for a number [e]: its integer part, counted from the
    end when negative. *)
Definition sliceTo {T : Type} (e : JS.number) (a : list T) : list T :=
  match e with
  | JS.NaN => []
  | JS.NegInfinity => []
  | JS.Infinity => a
  | JS.Num q =>
      let t := (if Qle_bool 0 q then Qfloor q else Qceiling q) in
      if t <? 0 then take (Z.to_nat (Z.max (Z.of_nat (length a) + t) 0)) a
      else take (Z.to_nat t) a
  end.

Definition randomPick {T : Type} (random : nat -> N) (arr : list T) (n : JS.number)
    : list T :=
  let a := shuffleLoop random (length arr - 1) 0 arr in
  sliceTo (JS.Math_min n (JS.Num (inject_Z (Z.of_nat (length a))))) a.

Section ParseOptions.
(** cheerio: the inner HTML of every [li] element of the markup, in
    document order. *)
Variable listItems : string -> list string.

Definition letters : string := "ABCDEFGHIJKLMNOPQRSTUVWXYZ".

Definition parseOptions (optionsHtml : string) : list OptionEntry :=
  let html := JS.trim optionsHtml in
  if negb (JS.truthy html) then []
  else
    match listItems html with
    | [] => [mkOption "A" html]
    | lis =>
        imap (fun i inner =>
                mkOption
                  (match String.get i letters with
                   | Some c => String c EmptyString
                   | None => pretty (i + 1)%nat
                   end)
                  (JS.trim inner))
             lis
    end.
End ParseOptions.

Definition inferCorrectAnswer (record : ChapterRecord) (qIndex : nat) : option string :=
  match answer_key record with
  | None => None
  | Some ak =>
      match ak !! qIndex with
      | None => None
      | Some a =>
          let raw := JS.trim a in
          if JS.truthy raw then Some raw else None
      end
  end.

(** The index resolver: [chapterToSubject[original] = subjectName] for
    every indexed topic that matches a requested chapter. *)
Definition topicsOf (node : SubjectNode) : list string :=
  match topicList node with
  | Some l => l
  | None => default [] (topics node)
  end.

Definition findSubjectsForChapters (index : IndexShape) (chapters : list string)
    : gmap string string :=
  let subjects := default [] index in
  let wanted := normalize <$> chapters in
  fold_left
    (fun acc '(subjectName, node) =>
       fold_left
         (fun acc topic =>
            if bool_decide (normalize topic ∈ wanted) then
              match List.find (fun c => bool_decide (normalize c = normalize topic)) chapters with
              | Some original =>
                  if JS.truthy original then <[original := subjectName]> acc else acc
              | None => acc
              end
            else acc)
         (topicsOf node) acc)
    subjects ∅.

(** [qt]: the record's own [question_type] when it has one, else inferred
    from the options markup. *)
Definition questionType (q : RawQuestion) : QType :=
  match question_type q with
  | Some t => t
  | None =>
      if JS.truthy (JS.trim (default EmptyString (options_html q))) then mcq else value
  end.

Section Assembly.
Variable listItems : string -> list string.
Variable JSON_parse : string -> JS.Outcome ChapterRecord.
(** [fetch] of a chapter's file under its subject: the text, or [None]
    when the response is not [ok]. *)
Variable fetchText : string -> string -> option string.
Variable fetchIndex : option IndexShape.
Variable random : nat -> N.
(** [new Date(t).toISOString()] *)
Variable toISOString : JS.number -> string.

(** The object pushed to the pool for question [i] of a record. *)
Definition poolEntry (subjectName chapter : string) (record : ChapterRecord)
    (i : nat) (q : RawQuestion) : MockQuestion :=
  let qt := questionType q in
  let options :=
    match qt with
    | mcq => parseOptions listItems (default EmptyString (options_html q))
    | value => []
    end in
  let correctAnswer := inferCorrectAnswer record i in
  mkQuestion
    (String.append subjectName
       (String.append "::" (String.append chapter
          (String.append "::" (String.append (rec_file record)
             (String.append "::" (pretty i)))))))
    subjectName chapter qt
    (JS.trim (default EmptyString (exam_html q)))
    (JS.trim (text_html q))
    options correctAnswer
    (Some (mkSource (rec_file record) (title record))).

(** What one chapter's callback pushes to the pool. *)
Definition chapterEntries (chapterToSubject : gmap string string) (chapter : string)
    : JS.Outcome (list MockQuestion) :=
  let subjectName := default EmptyString (chapterToSubject !! chapter) in
  match fetchText subjectName chapter with
  | None => JS.Returned []
  | Some text =>
      match parseJsonl JSON_parse text with
      | JS.Thrown m => JS.Thrown m
      | JS.Returned records =>
          JS.Returned
            (flat_map (fun record => imap (poolEntry subjectName chapter record)
                                       (rec_questions record))
                      records)
      end
  end.

(** The pool after [Promise.all], the chapters' callbacks completing in
    request order: each pushes its entries, and one that throws rejects the
    whole. *)
Fixpoint buildPool (chapterToSubject : gmap string string) (chapters : list string)
    : JS.Outcome (list MockQuestion) :=
  match chapters with
  | [] => JS.Returned []
  | c :: cs =>
      match chapterEntries chapterToSubject c with
      | JS.Thrown m => JS.Thrown m
      | JS.Returned qs =>
          match buildPool chapterToSubject cs with
          | JS.Thrown m => JS.Thrown m
          | JS.Returned rest => JS.Returned (qs ++ rest)
          end
      end
  end.

(** [Math.min(hi, Math.max(lo, Number(param ?? dflt) || dflt))], on the
    number the parameter converts to ([None]: the parameter is absent, and
    the default text converts to [dflt]). *)
Definition clampParam (lo hi dflt : Q) (requested : option JS.number) : JS.number :=
  JS.Math_min (JS.Num hi)
    (JS.Math_max (JS.Num lo)
       (JS.num_or (default (JS.Num dflt) requested) (JS.Num dflt))).

Definition effectiveMaxQuestions : option JS.number -> JS.number := clampParam 1 10 10.
Definition effectiveDurationSeconds : option JS.number -> JS.number :=
  clampParam 60 (60 * 60) 1200.

Inductive Response : Type :=
  | MissingSubject
  | IndexFetchFailed
  | NoChapterMatched (requested : list string)
  | NoQuestionsFound (chapters : list string)
  | Share (payload : MockPayload).

(** [GET]: from the query parameters to the payload that is encoded. *)
Definition GET (subjectParam : option string) (maxParam durationParam : option JS.number)
    (now : Z) : JS.Outcome Response :=
  let chapters := splitParamList (default EmptyString subjectParam) in
  if (length chapters =? 0)%nat then JS.Returned MissingSubject
  else
    let maxQuestions := effectiveMaxQuestions maxParam in
    let durationSeconds := effectiveDurationSeconds durationParam in
    match fetchIndex with
    | None => JS.Returned IndexFetchFailed
    | Some index =>
        let chapterToSubject := findSubjectsForChapters index chapters in
        let resolvedChapters :=
          filter (fun c => JS.truthy (default EmptyString (chapterToSubject !! c)) = true)
                 chapters in
        if (length resolvedChapters =? 0)%nat then JS.Returned (NoChapterMatched chapters)
        else
          match buildPool chapterToSubject resolvedChapters with
          | JS.Thrown m => JS.Thrown m
          | JS.Returned pool =>
              if (length pool =? 0)%nat then JS.Returned (NoQuestionsFound resolvedChapters)
              else
                let questions := randomPick random pool maxQuestions in
                let nowN := JS.Num (inject_Z now) in
                let expiresAt :=
                  JS.num_add nowN (JS.num_mul durationSeconds (JS.Num 1000)) in
                JS.Returned
                  (Share (mkPayload (toISOString nowN) (toISOString expiresAt)
                            durationSeconds maxQuestions resolvedChapters questions))
          end
    end.
End Assembly.

(** *** Token encoding *)

(** [base64urlFromBuffer(buf)] *)
Definition base64urlFromBuffer (buf : list byte) : string :=
  JS.stripTrailing "="
    (JS.replaceAll "/" "_" (JS.replaceAll "+" "-" (JS.toBase64 buf))).

Section Encode.
(** [JSON.stringify], [Buffer.from(_, "utf8")] and zlib's [gzipSync]. *)
Variable JSON_stringify : MockPayload -> string.
Variable utf8_encode : string -> list byte.
Variable gzipSync : list byte -> list byte.

Definition encodeToken (payload : MockPayload) : string :=
  let json := JSON_stringify payload in
  let gz := gzipSync (utf8_encode json) in
  base64urlFromBuffer gz.
End Encode.

End MockRoute.

(** ** The specification's wording, to compare the code with *)

(** The marking scheme: an empty trimmed answer is unattempted, for 0
    marks; else the trimmed, case-folded answers are compared: equal gives
    +4, unequal gives -1. *)
Definition markingRule (userAnswer correctAnswer : option string)
    : MockClient.Verdict * Z :=
  let ua := default EmptyString userAnswer in
  let ca := default EmptyString correctAnswer in
  if bool_decide (JS.trim ua = EmptyString) then (MockClient.unattempted, 0)
  else if bool_decide (JS.toUpperCase (JS.trim ua) = JS.toUpperCase (JS.trim ca))
       then (MockClient.correct, 4)
       else (MockClient.wrong, -1).

(** The verdict and the marks of a breakdown row. *)
Definition rowScore (r : MockClient.BreakdownRow) : MockClient.Verdict * Z :=
  (MockClient.verdict r, MockClient.marks r).


(** The clamp: the requested value clamped to [[lo, hi]], the default when
    the parameter is absent. *)
Definition specClamp (lo hi dflt : Q) (requested : option JS.number) : JS.number :=
  match requested with
  | None => JS.Num dflt
  | Some v => JS.Math_min (JS.Num hi) (JS.Math_max (JS.Num lo) v)
  end.

(** A finite number within [[lo, hi]]. *)
Definition inRange (lo hi : Q) (x : JS.number) : Prop :=
  match x with
  | JS.Num q => (lo <= q <= hi)%Q
  | _ => False
  end.

(** A requested value that the [||] of the clamp lets through: one that is
    neither [NaN] nor zero. *)
Definition usable (requested : option JS.number) : option JS.number :=
  match requested with
  | Some v => if JS.num_truthy v then Some v else None
  | None => None
  end.

(** The type rule: [mcq] exactly when the options markup is non-empty after
    trimming. *)
Definition specType (q : MockRoute.RawQuestion) : QType :=
  if bool_decide (JS.trim (default EmptyString (MockRoute.options_html q)) = EmptyString)
  then value else mcq.

(** The remaining time: [durationSeconds*1000 - (now - sessionStart)]. *)
Definition specRemaining (durationSeconds : JS.number) (now sessionStart : Z) : JS.number :=
  JS.num_add (JS.num_mul durationSeconds (JS.Num 1000))
    (JS.Num (- inject_Z (now - sessionStart))).

(** Equality of numbers as values. *)
Definition num_eqb (x y : JS.number) : bool :=
  match x, y with
  | JS.Num a, JS.Num b => Qeq_bool a b
  | JS.Infinity, JS.Infinity | JS.NegInfinity, JS.NegInfinity => true
  | _, _ => false
  end.

(** ** Notions used in the proofs *)

(** A string that does not begin with whitespace. *)
Definition startsClean (s : string) : Prop :=
  match s with EmptyString => True | String c _ => JS.isWhiteSpace c = false end.

Definition isSextet (n : N) : Prop := (n < 64)%N.

(** What the decoder needs of the character of a 6-bit value. *)
Definition sextetOk (n : N) : bool :=
  match JS.charSextet (JS.sextetChar n) with
  | Some m => (m =? n)%N
  | None => false
  end
  && negb (Ascii.eqb (JS.sextetChar n) "=")
  && negb (Ascii.eqb (JS.sextetChar n) "-")
  && negb (Ascii.eqb (JS.sextetChar n) "_")
  && negb (JS.isAsciiWhitespace (JS.sextetChar n)).

(** The character written for a 6-bit value once [+] and [/] are replaced. *)
Definition urlChar (n : N) : ascii :=
  let c := JS.sextetChar n in
  let c := if Ascii.eqb c "+" then "-"%char else c in
  if Ascii.eqb c "/" then "_"%char else c.

(** Replacing back gives the base64 character, and no [urlChar] is ["="]. *)
Definition urlOk (n : N) : bool :=
  let c := urlChar n in
  let d := if Ascii.eqb c "-" then "+"%char else c in
  Ascii.eqb (if Ascii.eqb d "_" then "/"%char else d) (JS.sextetChar n)
  && negb (Ascii.eqb c "=").

(** The value of a line that parses. *)
Definition parsedValue {A : Type} (JSON_parse : string -> JS.Outcome A) (l : string)
    : option A :=
  match JSON_parse l with JS.Returned v => Some v | JS.Thrown _ => None end.

(** The invariant of the timer: a submitted session has no interval. *)
Definition timerStopped (st : MockClient.State) : Prop :=
  MockClient.submitted st = true -> MockClient.interval st = None.

(** ** Sample data *)

Definition demoQuestion (i k : string) : MockQuestion :=
  mkQuestion i "Physics" "Kinematics" value "" "" [] (Some k) None.

(** Two questions keyed [q1], [q2] with answer key [A], [42]. *)
Definition demoPayload : MockPayload :=
  mkPayload "" "" (JS.Num 1200) (JS.Num 10) ["Kinematics"]
    [demoQuestion "q1" "A"; demoQuestion "q2" "42"].

Definition demoAnswers : gmap string string := <["q1" := "a"]> (<["q2" := "43"]> ∅).

(** An exam of one minute. *)
Definition shortPayload : MockPayload :=
  mkPayload "" "" (JS.Num 60) (JS.Num 10) ["Kinematics"] [demoQuestion "q1" "A"].

(** Markup without list items. *)
Definition noListItems (markup : string) : list string := [].

(** A question declared [value] that carries options markup. *)
Definition typedValueWithOptions : MockRoute.RawQuestion :=
  MockRoute.mkRaw (Some 1) (Some value) None "Find x."
    (Some "<ul><li>1</li><li>2</li></ul>") None.

Definition emptyRecord : MockRoute.ChapterRecord :=
  MockRoute.mkRecord "Physics" "Kinematics" "kinematics.html" None None [] None.

(** ** Test doubles for the platform services *)

Module Doubles.

Definition quoted (s : string) : string :=
  String (ascii_of_nat 34) (String.append s (String (ascii_of_nat 34) EmptyString)).

(** One line of a topic file: a record with a single question. *)
Definition recordLine : string :=
  String.append "{"
    (String.append (quoted "subject") (String.append ":" (String.append (quoted "Physics")
    (String.append "," (String.append (quoted "topic") (String.append ":" (String.append (quoted "Kinematics")
    (String.append "," (String.append (quoted "file") (String.append ":" (String.append (quoted "kinematics.html")
    (String.append "," (String.append (quoted "questions") (String.append ":[{"
    (String.append (quoted "number") (String.append ":1," (String.append (quoted "text_html")
    (String.append ":" (String.append (quoted "Find x.") "}]}"))))))))))))))))))).

Definition record : MockRoute.ChapterRecord :=
  MockRoute.mkRecord "Physics" "Kinematics" "kinematics.html" None None
    [MockRoute.mkRaw (Some 1) None None "Find x." None None] None.

(** A [JSON.parse] that knows the line above and rejects everything else. *)
Definition JSON_parse (l : string) : JS.Outcome MockRoute.ChapterRecord :=
  if String.eqb l recordLine then JS.Returned record
  else JS.Thrown "Unexpected token in JSON".

(** A topic file with a good line followed by a malformed one. *)
Definition brokenFile : string :=
  String.append recordLine (String "010" "{not json").

Definition index : MockRoute.IndexShape :=
  Some [("Physics", MockRoute.mkNode (Some ["Kinematics"]) None)].

(** A corpus whose only file is Physics/Kinematics. *)
Definition fetchText (text : string) (subjectName chapter : string) : option string :=
  if String.eqb subjectName "Physics" && String.eqb chapter "Kinematics"
  then Some text else None.

End Doubles.

(** A stand-in for the JSON, UTF-8 and gzip codecs of the platform: the
    payload is written as the decimal numeral of its code, the text as its
    code units, and the bytes behind a two-byte magic header. *)
Module Codecs.

Global Instance Q_eq_dec : EqDecision Q.
Proof. solve_decision. Defined.
Global Instance number_eq_dec : EqDecision JS.number.
Proof. solve_decision. Defined.
Global Instance QType_eq_dec : EqDecision QType.
Proof. solve_decision. Defined.
Global Instance OptionEntry_eq_dec : EqDecision OptionEntry.
Proof. solve_decision. Defined.
Global Instance Source_eq_dec : EqDecision Source.
Proof. solve_decision. Defined.
Global Instance MockQuestion_eq_dec : EqDecision MockQuestion.
Proof. solve_decision. Defined.
Global Instance MockPayload_eq_dec : EqDecision MockPayload.
Proof. solve_decision. Defined.

Global Instance Q_countable : Countable Q :=
  inj_countable' (fun q => (Qnum q, Qden q)) (fun p => Qmake p.1 p.2)
    (fun q => match q with Qmake _ _ => eq_refl end).

Global Instance number_countable : Countable JS.number :=
  inj_countable'
    (fun x => match x with
              | JS.NaN => inl 0%nat
              | JS.NegInfinity => inl 1%nat
              | JS.Infinity => inl 2%nat
              | JS.Num q => inr q
              end)
    (fun s => match s with
              | inl 0%nat => JS.NaN
              | inl 1%nat => JS.NegInfinity
              | inl _ => JS.Infinity
              | inr q => JS.Num q
              end)
    (fun x => match x with
              | JS.NaN | JS.NegInfinity | JS.Infinity | JS.Num _ => eq_refl
              end).

Global Instance QType_countable : Countable QType :=
  inj_countable' (fun t => match t with mcq => true | value => false end)
    (fun b => if b : bool then mcq else value)
    (fun t => match t with mcq | value => eq_refl end).

Global Instance OptionEntry_countable : Countable OptionEntry :=
  inj_countable' (fun o => (key o, html o)) (fun p => mkOption p.1 p.2)
    (fun o => match o with mkOption _ _ => eq_refl end).

Global Instance Source_countable : Countable Source :=
  inj_countable' (fun s => (file s, recordTitle s)) (fun p => mkSource p.1 p.2)
    (fun s => match s with mkSource _ _ => eq_refl end).

Global Instance MockQuestion_countable : Countable MockQuestion :=
  inj_countable'
    (fun q => (id q, subject q, chapter q, type q, examHtml q, promptHtml q,
               options q, correctAnswer q, source q))
    (fun '(a, b, c, d, e, f, g, h, i) => mkQuestion a b c d e f g h i)
    (fun q => match q with mkQuestion _ _ _ _ _ _ _ _ _ => eq_refl end).

Global Instance MockPayload_countable : Countable MockPayload :=
  inj_countable'
    (fun p => (createdAt p, expiresAt p, durationSeconds p, maxQuestions p,
               chapters p, questions p))
    (fun '(a, b, c, d, e, f) => mkPayload a b c d e f)
    (fun p => match p with mkPayload _ _ _ _ _ _ => eq_refl end).

Definition JSON_stringify (p : MockPayload) : string :=
  NilEmpty.string_of_uint (Pos.to_uint (encode p)).

Definition JSON_parse (s : string) : option MockPayload :=
  match NilEmpty.uint_of_string s with
  | Some d =>
      match Pos.of_uint d with
      | Npos c => decode c
      | N0 => None
      end
  | None => None
  end.

Definition utf8_encode (s : string) : list byte := list_byte_of_string s.
Definition utf8_decode (b : list byte) : string := string_of_list_byte b.

Definition gzipSync (b : list byte) : list byte := x1f :: x8b :: b.

Definition gunzip (b : list byte) : option (list byte) :=
  match b with
  | h1 :: h2 :: rest =>
      if Byte.eqb h1 x1f && Byte.eqb h2 x8b then Some rest else None
  | _ => None
  end.

End Codecs.

(** ** Plain objects used as dictionaries *)

(** The property names that every plain object inherits from
    [Object.prototype]: reading one of them from a dictionary that does not
    hold it gives the inherited function or object, not [undefined]. The
    dictionaries of the sources are modelled by their own keys, which is
    what the code sees for every other key. *)
Definition objectPrototypeKeys : list string :=
  ["constructor"; "__defineGetter__"; "__defineSetter__"; "hasOwnProperty";
   "__lookupGetter__"; "__lookupSetter__"; "isPrototypeOf"; "propertyIsEnumerable";
   "toString"; "valueOf"; "__proto__"; "toLocaleString"].

Definition isObjectPrototypeKey (k : string) : bool :=
  existsb (String.eqb k) objectPrototypeKeys.

(** A key that is read from a dictionary as its own entry or as absent. *)
Definition plainKey (k : string) : Prop := isObjectPrototypeKey k = false.

(** ** Notions for the further properties *)

(** A character that [normalize] turns into a space: a separator or
    whitespace. *)
Definition isGap (c : ascii) : bool := MockRoute.isSeparator c || JS.isWhiteSpace c.

(** Two characters that [normalize] does not tell apart: the same letter up
    to case, or two gap characters. *)
Definition sameChar (a b : ascii) : Prop :=
  JS.lowerChar a = JS.lowerChar b \/ (isGap a = true /\ isGap b = true).

(** A property of every character can be checked on the 256 of them. *)
Definition allAscii (P : ascii -> bool) : bool :=
  forallb (fun n => P (ascii_of_nat n)) (seq 0 256).

(** No two adjacent spaces. *)
Fixpoint singleSpaced (l : list ascii) : Prop :=
  match l with
  | a :: (b :: _) as l' => (a = " "%char -> b <> " "%char) /\ singleSpaced l'
  | _ => True
  end.

(** ** The topic picker: [topics-client.tsx] *)

Module TopicsClient.

(** A [Set<string>] in insertion order. *)
Definition add (t : string) (set : list string) : list string :=
  if bool_decide (t ∈ set) then set else set ++ [t].

Definition delete (t : string) (set : list string) : list string :=
  filter (fun x => x <> t) set.

(** [toggleTopic(t)], on the previous selection. *)
Definition toggleTopic (t : string) (prev : list string) : list string :=
  if bool_decide (t ∈ prev) then delete t prev else add t prev.

(** [selectAll()]: [new Set(sortedTopics)]. *)
Definition selectAll (sortedTopics : list string) : list string :=
  fold_left (fun set t => add t set) sortedTopics [].

Definition clearAll : list string := [].

(** [createMock()]: the value of the [subject] parameter of the request it
    sends (what the route reads back after [encodeURIComponent] and the
    URL decoding of [searchParams.get]); [None] when it returns without a
    request. *)
Definition createMock (selected : list string) (creating : bool) : option string :=
  if (length selected =? 0)%nat || creating then None
  else Some (String.concat "," selected).

(** What the user does to the selection. *)
Inductive Action : Type :=
  | Toggle (t : string)
  | SelectAll (sortedTopics : list string)
  | ClearAll.

Definition act (selected : list string) (a : Action) : list string :=
  match a with
  | Toggle t => toggleTopic t selected
  | SelectAll ts => selectAll ts
  | ClearAll => clearAll
  end.

(** The topic names an action brings in. *)
Definition named (a : Action) : list string :=
  match a with
  | Toggle t => [t]
  | SelectAll ts => ts
  | ClearAll => []
  end.

End TopicsClient.

(** A name that a comma-separated parameter carries unchanged: not empty,
    without surrounding whitespace, without comma or percent sign. *)
Definition cleanName (x : string) : Prop :=
  x <> EmptyString /\ JS.trim x = x
  /\ Forall (fun c => c <> ","%char /\ c <> "%"%char) (JS.chars x).


(** The characters of a token that a URL carries unescaped. *)
Definition isUrlSafe (c : ascii) : bool :=
  let n := N_of_ascii c in
  ((65 <=? n) && (n <=? 90) || (97 <=? n) && (n <=? 122)
   || (48 <=? n) && (n <=? 57) || (n =? 45) || (n =? 95))%N.

(** The characters the token decoder lets through: the URL-safe ones, those
    of plain base64, the padding and ASCII whitespace. *)
Definition isTokenChar (c : ascii) : bool :=
  isUrlSafe c || Ascii.eqb c "+" || Ascii.eqb c "/" || Ascii.eqb c "="
  || JS.isAsciiWhitespace c.

(** The decoder's two replacements, on one character. *)
Definition unUrlChar (c : ascii) : ascii :=
  let d := if Ascii.eqb c "-" then "+"%char else c in
  if Ascii.eqb d "_" then "/"%char else d.


(** ** Reading a result *)

Definition hasVerdict (v : MockClient.Verdict) (r : MockClient.BreakdownRow) : bool :=
  match v, MockClient.verdict r with
  | MockClient.correct, MockClient.correct
  | MockClient.wrong, MockClient.wrong
  | MockClient.unattempted, MockClient.unattempted => true
  | _, _ => false
  end.

(** The number of rows of a breakdown with a given verdict, and the sum of
    the marks of its rows. *)
Definition countVerdict (v : MockClient.Verdict) (rows : list MockClient.BreakdownRow) : Z :=
  Z.of_nat (length (List.filter (hasVerdict v) rows)).

Definition totalMarks (rows : list MockClient.BreakdownRow) : Z :=
  foldr (fun r s => MockClient.marks r + s) 0 rows.

(** The figures of a result: all of it but the breakdown. *)
Definition figures (r : MockClient.ComputedResult) : list Z * (Q * Q) :=
  ([MockClient.totalQuestions r; MockClient.r_attempted r; MockClient.r_correct r;
    MockClient.r_wrong r; MockClient.r_unattempted r; MockClient.marksCorrect r;
    MockClient.marksWrong r; MockClient.netMarks r; MockClient.maxMarks r],
   (MockClient.accuracyPercent r, MockClient.scorePercent r)).

(** The loop's counters agree with the rows pushed so far. *)
Definition tallied (acc : MockClient.Counters) : Prop :=
  MockClient.c_correct acc = countVerdict MockClient.correct (MockClient.c_breakdown acc)
  /\ MockClient.c_wrong acc = countVerdict MockClient.wrong (MockClient.c_breakdown acc)
  /\ MockClient.c_unattempted acc
     = countVerdict MockClient.unattempted (MockClient.c_breakdown acc)
  /\ MockClient.c_attempted acc = MockClient.c_correct acc + MockClient.c_wrong acc
  /\ MockClient.c_correct acc * MockClient.MARKS_CORRECT
     + MockClient.c_wrong acc * MockClient.MARKS_WRONG
     = totalMarks (MockClient.c_breakdown acc).

(** What the loop has counted, with the verdicts and marks of its rows. *)
Definition tally (acc : MockClient.Counters)
    : list Z * list (MockClient.Verdict * Z) :=
  ([MockClient.c_attempted acc; MockClient.c_correct acc; MockClient.c_wrong acc;
    MockClient.c_unattempted acc],
   rowScore <$> MockClient.c_breakdown acc).


(** ** Notions for the session *)

Definition isTokenRead (ev : MockClient.Event) : bool :=
  match ev with MockClient.TokenRead _ _ => true | _ => false end.

(** The question pointer is on a question of the loaded exam. *)
Definition onQuestion (st : MockClient.State) : Prop :=
  exists m, MockClient.mock st = Some m
            /\ 0 <= MockClient.current st < Z.of_nat (length (questions m)).


(** ** Notions for the assembled exam *)

(** What the assembly keeps of every question it builds. *)
Definition wellFormedQuestion (q : MockQuestion) : Prop :=
  (type q = value -> options q = [])
  /\ (forall a, correctAnswer q = Some a -> a <> EmptyString /\ JS.trim a = a)
  /\ JS.trim (promptHtml q) = promptHtml q
  /\ JS.trim (examHtml q) = examHtml q
  /\ exists src (i : nat),
       source q = Some src
       /\ id q = String.append (subject q)
                   (String.append "::" (String.append (chapter q)
                      (String.append "::" (String.append (file src)
                         (String.append "::" (pretty i)))))).


(** ** Notions for the index resolver *)

(** The requested name is the first of the request with its normal form,
    and is not empty. *)
Definition firstSpelling (chapters : list string) (c : string) : bool :=
  bool_decide
    (List.find (fun c' => bool_decide (MockRoute.normalize c' = MockRoute.normalize c))
       chapters = Some c)
  && JS.truthy c.

(** The subject of an index entry lists a topic with the normal form of [c]. *)
Definition lists (c : string) (entry : string * MockRoute.SubjectNode) : bool :=
  existsb (fun t => bool_decide (MockRoute.normalize t = MockRoute.normalize c))
    (MockRoute.topicsOf entry.2).


(** ** Notions for the question ids *)

Definition colonFree (s : string) : Prop :=
  Forall (fun c => c <> ":"%char) (JS.chars s).

(** The id that the assembly gives question [i] of a record of file [f]. *)
Definition questionId (s c f : string) (i : nat) : string :=
  String.append s
    (String.append "::" (String.append c
       (String.append "::" (String.append f (String.append "::" (pretty i)))))).

(** The records of a chapter file come from distinct source files, whose
    names hold no colon. *)
Definition tidyChapter (records : list MockRoute.ChapterRecord) : Prop :=
  NoDup (MockRoute.rec_file <$> records)
  /\ Forall (fun r => colonFree (MockRoute.rec_file r)) records.


(** ** Notions for the option keys *)

Definition isDigit (c : ascii) : bool :=
  ((48 <=? N_of_ascii c) && (N_of_ascii c <=? 57))%N.

(** The key that [parseOptions] gives the list item at index [i]. *)
Definition optionKey (i : nat) : string :=
  match String.get i MockRoute.letters with
  | Some c => String c EmptyString
  | None => pretty (i + 1)%nat
  end.


(** ** Notions for the topic route's error report *)

(** The error recorded for the line at index [i], when it does not parse. *)
Definition errorOf {A : Type} (JSON_parse : string -> JS.Outcome A) (i : nat) (l : string)
    : option TopicRoute.ParseError :=
  match JSON_parse l with
  | JS.Thrown m => Some (TopicRoute.mkParseError (i + 1) m)
  | JS.Returned _ => None
  end.

(** The [parseErrors] of a response body. *)
Definition reportedErrors {A : Type} (r : TopicRoute.Response (A := A))
    : list TopicRoute.ParseError :=
  match r with
  | TopicRoute.FetchFailed => []
  | TopicRoute.NoValidLines errs => errs
  | TopicRoute.Topic _ errs _ => errs
  end.


(** ** The index builder: [create_index.js] *)

Module CreateIndex.

(** [s.endsWith(suffix)] *)
Definition endsWith (suffix s : string) : bool :=
  let cs := JS.chars s in
  bool_decide (drop (length cs - String.length suffix) cs = JS.chars suffix).

Definition isJsonlFile (name : string) : bool :=
  endsWith ".jsonl" (JS.toLowerCase name).

(** A match of the characters [pat] under the flag [i]. *)
Fixpoint matchIgnoringCase (pat cs : list ascii) : bool :=
  match pat, cs with
  | [], [] => true
  | p :: pat', c :: cs' =>
      Ascii.eqb (JS.lowerChar p) (JS.lowerChar c) && matchIgnoringCase pat' cs'
  | _, _ => false
  end.

(** [fileName.replace(/\.jsonl$/i, "")] *)
Definition topicFromFile (fileName : string) : string :=
  let cs := JS.chars fileName in
  let k := (length cs - 6)%nat in
  if matchIgnoringCase (JS.chars ".jsonl") (drop k cs) then JS.str (take k cs)
  else fileName.

Definition backslash : ascii := ascii_of_nat 92.

Record FileEntry : Type := mkFile { name : string; relPath : string }.

Record TopicEntry : Type := mkTopic { topic : string; files : list FileEntry }.

Record SubjectEntry : Type := mkSubject {
  folderName : string;
  topics : gmap string TopicEntry;
  topicList : list string
}.

Record Index : Type := mkIndex {
  subjects : gmap string SubjectEntry;
  subjectList : list string;
  generatedAt : string;
  inputRoot : string
}.

(** [Object.keys(o)], which the source sorts at once. *)
Definition keys {V : Type} (o : gmap string V) : list string := (map_to_list o).*1.

Section Main.
(** [path.join], the sort [names.sort((a, b) => a.localeCompare(b))], the
    names of the files of a subject directory in the order of [readdir],
    the time stamp [new Date().toISOString()] and [INPUT_ROOT]. *)
Variable pathJoin : string -> string -> string.
Variable sortNames : list string -> list string.
Variable listFiles : string -> list string.
Variable now : string.
Variable root : string.

(** The body of the loop over the files of a subject. Reading
    [topics[topicName]] gives the own entry, or for a name of
    [Object.prototype] the inherited value: it is truthy, no entry is
    created, and [.files.push] throws on it. *)
Definition addFile (subjectName : string) (topics : gmap string TopicEntry)
    (fileName : string) : JS.Outcome (gmap string TopicEntry) :=
  let topicName := topicFromFile fileName in
  let relPath := JS.replaceAll backslash "/" (pathJoin subjectName fileName) in
  match topics !! topicName with
  | Some entry =>
      JS.Returned
        (<[topicName := mkTopic (topic entry) (files entry ++ [mkFile fileName relPath])]>
           topics)
  | None =>
      if isObjectPrototypeKey topicName
      then JS.Thrown "Cannot read properties of undefined (reading 'push')"
      else JS.Returned (<[topicName := mkTopic topicName [mkFile fileName relPath]]> topics)
  end.

Fixpoint addFiles (subjectName : string) (fileNames : list string)
    (topics : gmap string TopicEntry) : JS.Outcome (gmap string TopicEntry) :=
  match fileNames with
  | [] => JS.Returned topics
  | f :: fs =>
      match addFile subjectName topics f with
      | JS.Thrown m => JS.Thrown m
      | JS.Returned topics' => addFiles subjectName fs topics'
      end
  end.

(** The value assigned to [subjects[subjectName]]. *)
Definition subjectEntry (subjectName : string) : JS.Outcome SubjectEntry :=
  let files := listFiles subjectName in
  let jsonlFiles := List.filter isJsonlFile files in
  match addFiles subjectName jsonlFiles ∅ with
  | JS.Thrown m => JS.Thrown m
  | JS.Returned topics =>
      JS.Returned (mkSubject subjectName topics (sortNames (keys topics)))
  end.

(** The loop over the subject directories; assigning to
    [subjects["__proto__"]] creates no entry. *)
Fixpoint subjectLoop (subjectDirs : list string) (subjects : gmap string SubjectEntry)
    : JS.Outcome (gmap string SubjectEntry) :=
  match subjectDirs with
  | [] => JS.Returned subjects
  | d :: ds =>
      match subjectEntry d with
      | JS.Thrown m => JS.Thrown m
      | JS.Returned e =>
          subjectLoop ds (if String.eqb d "__proto__" then subjects else <[d := e]> subjects)
      end
  end.

(** [main()], up to the object that it writes. *)
Definition main (subjectDirs : list string) : JS.Outcome Index :=
  match subjectLoop subjectDirs ∅ with
  | JS.Thrown m => JS.Thrown m
  | JS.Returned subjects =>
      JS.Returned
        (mkIndex subjects (sortNames (keys subjects)) now (JS.replaceAll backslash "/" root))
  end.
End Main.

End CreateIndex.

(** The entry that the index is to hold for topic [t], given the [.jsonl]
    files of the subject in directory order. *)
Definition expectedTopic (rel : string -> string) (t : string) (jsonlFiles : list string)
    : option CreateIndex.TopicEntry :=
  match List.filter (fun f => String.eqb (CreateIndex.topicFromFile f) t) jsonlFiles with
  | [] => None
  | fs => Some (CreateIndex.mkTopic t ((fun f => CreateIndex.mkFile f (rel f)) <$> fs))
  end.

(** A directory of two topics, one of them in two files, with a file that
    is not a [.jsonl] file. *)
Definition demoFiles (subjectName : string) : list string :=
  ["Optics.jsonl"; "notes.txt"; "Kinematics.JSONL"; "Optics.Jsonl"].

Definition demoJoin (a b : string) : string := String.append a (String.append "/" b).


(** ** The topics route: [api/topics/[subject]/route.ts] *)

Module TopicsRoute.

Inductive Response : Type :=
  | FetchFailed
  | InvalidSubject (subject : string) (subjects : list string)
  | Topics (subject : string) (topics : list string) (count : nat).

(** What [index.subjects?.[subject]] reads: the subject's own entry, or
    under a name of [Object.prototype] the inherited value, which has
    neither [topicList] nor [topics]. *)
Inductive Node : Type :=
  | Own (node : MockRoute.SubjectNode)
  | Inherited.

Definition lookupSubject (index : MockRoute.IndexShape) (subject : string) : option Node :=
  match index with
  | None => None
  | Some subjects =>
      match (list_to_map subjects : gmap string MockRoute.SubjectNode) !! subject with
      | Some node => Some (Own node)
      | None => if isObjectPrototypeKey subject then Some Inherited else None
      end
  end.

Section Get.
(** [keys.sort((a, b) => a.localeCompare(b))] *)
Variable sortNames : list string -> list string.

(** [GET], on the index that the fetch gave ([None] when the response is
    not [ok]) and the subject of the path. *)
Definition GET (fetched : option MockRoute.IndexShape) (subject : string) : Response :=
  match fetched with
  | None => FetchFailed
  | Some index =>
      match lookupSubject index subject with
      | None => InvalidSubject subject (fst <$> default [] index)
      | Some node =>
          let topics :=
            match node with
            | Own n =>
                match MockRoute.topicList n with
                | Some l => l
                | None => sortNames (default [] (MockRoute.topics n))
                end
            | Inherited => sortNames []
            end in
          Topics subject topics (length topics)
      end
  end.
End Get.

End TopicsRoute.


(** ** The clock of the session: [msToClock] *)

(** [s.padStart(n, c)] for a one-character filler. *)
Definition padStart (n : nat) (c : ascii) (s : string) : string :=
  JS.str (replicate (n - String.length s) c ++ JS.chars s).

(** [msToClock(ms)], on whole milliseconds. *)
Definition msToClock (ms : Z) : string :=
  let s := Z.max 0 (ms / 1000) in
  let mm := s / 60 in
  let ss := s mod 60 in
  String.append (padStart 2 "0" (JS.String_of_Z mm))
    (String.append ":" (padStart 2 "0" (JS.String_of_Z ss))).

(** A number below 100 is padded to two characters that read back. *)
Definition twoDigits (z : Z) : bool :=
  let text := padStart 2 "0" (JS.String_of_Z z) in
  (String.length text =? 2)%nat && bool_decide (JS.Number_of_string text = Some z).

(** ** The scoring call as the engine evaluates it *)

(** [computeResult] of [mock-client.tsx] once more, with the two things that
    [MockClient.computeResult] idealises: the property read [answers[q.id]],
    which goes through the prototype chain of the plain object, and the
    percentages, which are computed in IEEE 754 binary64 arithmetic. *)
Module Runtime.
Import MockClient.

(** *** Binary64 arithmetic *)

(** [2^e] for any integer [e]. *)
Definition pow2 (e : Z) : Q :=
  if 0 <=? e then inject_Z (2 ^ e) else (/ inject_Z (2 ^ (- e)))%Q.

(** [floor(log2 q)] for [q > 0]: the difference of the bit lengths of
    numerator and denominator, or one less. *)
Definition ilog2 (q : Q) : Z :=
  let l := Z.log2 (Qnum q) - Z.log2 (Zpos (Qden q)) in
  if Qle_bool (pow2 l) q then l else l - 1.

(** The integer nearest to [x], the even one of the two at a tie. *)
Definition roundHalfEven (x : Q) : Z :=
  let f := Qfloor x in
  match (x - inject_Z f ?= 1 # 2)%Q with
  | Lt => f
  | Gt => f + 1
  | Eq => if Z.even f then f else f + 1
  end.

(** The binary64 number nearest to [q], ties to the even significand: a
    significand of 53 bits at the exponent of [q], or at the least exponent
    [-1074] for subnormal results. Results stay finite for [|q| < 2^1024],
    far above the percentages computed here. *)
Definition double (q : Q) : Q :=
  match Qnum q with
  | Z0 => 0%Q
  | _ =>
      let a := Qmake (Z.abs (Qnum q)) (Qden q) in
      let e := Z.max (ilog2 a - 52) (-1074) in
      let m := roundHalfEven (a / pow2 e) in
      Qred ((if Qle_bool 0 q then 1 else -1) * (inject_Z m * pow2 e))%Q
  end.

(** [x / y] and [x * y] on numbers: the exact result, rounded once. *)
Definition fdiv (x y : Q) : Q := double (x / y).
Definition fmul (x y : Q) : Q := double (x * y).

(** *** The loop *)

(** [(answers[k] ?? "").trim()]. An own entry is trimmed. A key that
    [answers] does not own is looked up on [Object.prototype]: under the
    names of [objectPrototypeKeys] the read gives an inherited function (the
    prototype object itself for [__proto__]), which is not nullish and has
    no [trim] method, so the call throws a [TypeError]; under any other name
    the read gives [undefined] and the empty string is trimmed. *)
Definition typeError : string :=
  "TypeError: (intermediate value).trim is not a function".

Definition readAnswer (answers : gmap string string) (k : string)
    : JS.Outcome string :=
  match answers !! k with
  | Some v => JS.Returned (JS.trim v)
  | None =>
      if isObjectPrototypeKey k then JS.Thrown typeError
      else JS.Returned (JS.trim EmptyString)
  end.

(** One iteration of the [for] loop of [computeResult], at index [i]. *)
Definition scoreQuestion (answers : gmap string string) (acc : Counters)
    (i : nat) (q : MockQuestion) : JS.Outcome Counters :=
  match readAnswer answers (id q) with
  | JS.Thrown m => JS.Thrown m
  | JS.Returned ua =>
      let ca := JS.trim (default EmptyString (correctAnswer q)) in
      let row v m :=
        mkRow i (id q) (chapter q) (type q) (JS.or_else ua "-") (JS.or_else ca "-") v m in
      JS.Returned
        (if negb (JS.truthy ua) then
           mkCounters (c_attempted acc) (c_correct acc) (c_wrong acc)
             (c_unattempted acc + 1) (c_breakdown acc ++ [row unattempted 0])
         else if JS.truthy ca && bool_decide (norm (Some ua) = norm (Some ca)) then
           mkCounters (c_attempted acc + 1) (c_correct acc + 1) (c_wrong acc)
             (c_unattempted acc) (c_breakdown acc ++ [row correct MARKS_CORRECT])
         else
           mkCounters (c_attempted acc + 1) (c_correct acc) (c_wrong acc + 1)
             (c_unattempted acc) (c_breakdown acc ++ [row wrong MARKS_WRONG]))
  end.

(** The loop from index [i] on; an exception leaves it at once. *)
Fixpoint scoreLoop (answers : gmap string string) (i : nat)
    (qs : list MockQuestion) (acc : Counters) : JS.Outcome Counters :=
  match qs with
  | [] => JS.Returned acc
  | q :: qs' =>
      match scoreQuestion answers acc i q with
      | JS.Thrown m => JS.Thrown m
      | JS.Returned acc' => scoreLoop answers (S i) qs' acc'
      end
  end.

(** [computeResult(mock, answers)]. The counters and marks are integers far
    below [2^53], where number arithmetic is exact; [Math.round] and
    [Math.max] are exact on their operand. *)
Definition computeResult (mock : MockPayload) (answers : gmap string string)
    : JS.Outcome ComputedResult :=
  match scoreLoop answers 0 (questions mock) (mkCounters 0 0 0 0 []) with
  | JS.Thrown m => JS.Thrown m
  | JS.Returned acc =>
      let n := Z.of_nat (length (questions mock)) in
      let marksCorrect := c_correct acc * MARKS_CORRECT in
      let marksWrong := c_wrong acc * MARKS_WRONG in
      let netMarks := marksCorrect + marksWrong in
      let maxMarks := n * MARKS_CORRECT in
      let accuracyPercent :=
        if 0 <? c_attempted acc
        then fdiv (inject_Z (JS.Math_round
                     (fmul (fdiv (inject_Z (c_correct acc)) (inject_Z (c_attempted acc)))
                           1000)))
                  10
        else 0%Q in
      let scorePercentRaw :=
        if 0 <? maxMarks
        then fmul (fdiv (inject_Z netMarks) (inject_Z maxMarks)) 100
        else 0%Q in
      let scorePercent :=
        JS.Qmax0 (fdiv (inject_Z (JS.Math_round (fmul scorePercentRaw 10))) 10) in
      JS.Returned
        (mkResult n (c_attempted acc) (c_correct acc) (c_wrong acc) (c_unattempted acc)
           marksCorrect marksWrong netMarks maxMarks accuracyPercent scorePercent
           (c_breakdown acc))
  end.

(** Whether the read of the answer to [q] throws. *)
Definition unreadable (answers : gmap string string) (q : MockQuestion) : bool :=
  isObjectPrototypeKey (id q) && bool_decide (answers !! id q = None).

End Runtime.

(** *** Sample exams *)

(** One question whose id is a name that plain objects inherit. *)
Definition inheritedIdPayload : MockPayload :=
  mkPayload "" "" (JS.Num 1200) (JS.Num 10) ["Kinematics"]
    [demoQuestion "constructor" "A"].



(** *** A corpus of two chapters *)

(** Physics holds the chapters Kinematics (two records, of two and of one
    question) and Optics (one record of two questions). The lines of the
    chapter files are abbreviated to the name of the source file of the
    record they hold. *)
Module Corpus.
Import MockRoute.

Definition rawQuestion (n : Z) (text : string) : RawQuestion :=
  mkRaw (Some n) None None text None None.

Definition chapterRecord (topic file : string) (qs : list RawQuestion) : ChapterRecord :=
  mkRecord "Physics" topic file None None qs None.

Definition records : list ChapterRecord :=
  [chapterRecord "Kinematics" "kinematics-1.html"
     [rawQuestion 1 "Find x."; rawQuestion 2 "Find v."];
   chapterRecord "Kinematics" "kinematics-2.html" [rawQuestion 1 "Find a."];
   chapterRecord "Optics" "optics.html"
     [rawQuestion 1 "Find f."; rawQuestion 2 "Find n."]].

(** A [JSON.parse] that knows the lines of the corpus and rejects everything
    else. *)
Definition JSON_parse (l : string) : JS.Outcome ChapterRecord :=
  match filter (fun r => rec_file r = l) records with
  | r :: _ => JS.Returned r
  | [] => JS.Thrown "Unexpected token in JSON"
  end.

Definition index : IndexShape :=
  Some [("Physics", mkNode (Some ["Kinematics"; "Optics"]) None)].

Definition fetchText (subjectName chapter : string) : option string :=
  if String.eqb subjectName "Physics" then
    if String.eqb chapter "Kinematics"
    then Some (String.append "kinematics-1.html" (String "010" "kinematics-2.html"))
    else if String.eqb chapter "Optics" then Some "optics.html" else None
  else None.

(** The exam assembled for [subject=Kinematics,Optics] when every random
    draw is 0. *)
Definition exam : MockPayload :=
  Eval vm_compute in
  match GET noListItems JSON_parse fetchText (Some index) (fun _ => 0%N)
          (fun _ => EmptyString) (Some "Kinematics,Optics") None None 0 with
  | JS.Returned (Share payload) => payload
  | _ => mkPayload "" "" JS.NaN JS.NaN [] []
  end.

End Corpus.

(** * Proofs *)

Ltac divlia := zify; Z.to_euclidean_division_equations; lia.

(** ** Trimming and case folding *)

Section TrimFacts.
Import JS.

Lemma trimEnd_idem s : trimEnd (trimEnd s) = trimEnd s.
Proof.
  induction s as [|c s IH]; simpl; [done|].
  destruct (trimEnd s) as [|d t] eqn:E.
  - destruct (isWhiteSpace c) eqn:W; simpl; [done|]. by rewrite W.
  - simpl in *. rewrite IH. done.
Qed.

Lemma trimStart_clean s : startsClean (trimStart s).
Proof. induction s as [|c s IH]; simpl; [done|]. destruct (isWhiteSpace c) eqn:W; simpl; done. Qed.

Lemma trimStart_of_clean s : startsClean s -> trimStart s = s.
Proof. destruct s; simpl; [done|]. by intros ->. Qed.

Lemma trimEnd_clean s : startsClean s -> startsClean (trimEnd s).
Proof.
  destruct s as [|c s]; simpl; [done|]. intros W.
  destruct (trimEnd s); simpl; [by rewrite W|done].
Qed.

Lemma trim_idem s : trim (trim s) = trim s.
Proof.
  unfold trim. rewrite (trimStart_of_clean (trimEnd _)).
  - apply trimEnd_idem.
  - apply trimEnd_clean, trimStart_clean.
Qed.

Lemma toUpperCase_empty s : toUpperCase s = EmptyString -> s = EmptyString.
Proof. by destruct s. Qed.

Lemma truthy_false s : truthy s = false <-> s = EmptyString.
Proof. destruct s; simpl; split; congruence. Qed.
End TrimFacts.

(** ** The scoring engine *)

Section Scoring.
Import MockClient.
Variable answers : gmap string string.

Lemma scoreQuestion_spec acc i q :
  let acc' := scoreQuestion answers acc i q in
  exists r,
    c_breakdown acc' = c_breakdown acc ++ [r]
    /\ row_id r = id q /\ row_index r = i
    /\ rowScore r = markingRule (answers !! id q) (correctAnswer q)
    /\ c_attempted acc' + c_unattempted acc' = c_attempted acc + c_unattempted acc + 1
    /\ c_correct acc' + c_wrong acc' - c_attempted acc'
       = c_correct acc + c_wrong acc - c_attempted acc
    /\ c_correct acc <= c_correct acc' /\ c_wrong acc <= c_wrong acc'
    /\ c_unattempted acc <= c_unattempted acc'.
Proof.
  unfold scoreQuestion, markingRule, rowScore, norm; simpl.
  rewrite !trim_idem.
  set (ua := JS.trim (default EmptyString (answers !! id q))).
  set (ca := JS.trim (default EmptyString (correctAnswer q))).
  destruct (JS.truthy ua) eqn:Hua; simpl.
  - assert (ua <> EmptyString) as Hne.
    { intros E. apply truthy_false in E. congruence. }
    rewrite (bool_decide_eq_false_2 _ Hne).
    destruct (JS.truthy ca) eqn:Hca; simpl.
    + destruct (bool_decide (JS.toUpperCase ua = JS.toUpperCase ca));
        eexists; simpl; repeat split; lia.
    + apply truthy_false in Hca. rewrite Hca.
      rewrite bool_decide_eq_false_2.
      * eexists; simpl; repeat split; lia.
      * intros E. simpl in E. apply toUpperCase_empty in E. done.
  - apply truthy_false in Hua. rewrite Hua. simpl.
    eexists; simpl; repeat split; lia.
Qed.

Lemma scoreLoop_spec qs : forall i acc,
  let acc' := scoreLoop answers i qs acc in
  exists rows,
    c_breakdown acc' = c_breakdown acc ++ rows
    /\ row_id <$> rows = id <$> qs
    /\ row_index <$> rows = seq i (length qs)
    /\ rowScore <$> rows = (fun q => markingRule (answers !! id q) (correctAnswer q)) <$> qs
    /\ c_attempted acc' + c_unattempted acc'
       = c_attempted acc + c_unattempted acc + Z.of_nat (length qs)
    /\ c_correct acc' + c_wrong acc' - c_attempted acc'
       = c_correct acc + c_wrong acc - c_attempted acc
    /\ c_correct acc <= c_correct acc' /\ c_wrong acc <= c_wrong acc'
    /\ c_unattempted acc <= c_unattempted acc'.
Proof.
  induction qs as [|q qs IH]; intros i acc; simpl.
  - exists []. rewrite app_nil_r. repeat split; lia.
  - destruct (scoreQuestion_spec acc i q) as (r & Hb & Hid & Hix & Hsc & Ha & Hc & Hle1 & Hle2 & Hle3).
    destruct (IH (S i) (scoreQuestion answers acc i q))
      as (rows & Hb' & Hid' & Hix' & Hsc' & Ha' & Hc' & Hle1' & Hle2' & Hle3').
    exists (r :: rows). rewrite Hb', Hb, <- app_assoc, !fmap_cons.
    rewrite Hid, Hix, Hsc, Hid', Hix', Hsc'.
    cbn [length seq app]. repeat split; try lia.
Qed.
End Scoring.

Section ScoringTheorems.
Import MockClient.


(** Without a usable answer key an attempted question is wrong. *)
Lemma markingRule_no_key userAnswer correctAnswer :
  JS.trim (default EmptyString userAnswer) <> EmptyString ->
  JS.trim (default EmptyString correctAnswer) = EmptyString ->
  markingRule userAnswer correctAnswer = (wrong, -1).
Proof.
  intros Hua Hca. unfold markingRule.
  rewrite (bool_decide_eq_false_2 _ Hua), Hca.
  rewrite bool_decide_eq_false_2; [done|].
  intros E. by apply toUpperCase_empty in E.
Qed.

(** C10: the counters partition the questions (attempted + unattempted is
    the total, correct + wrong is attempted) and the breakdown has one row
    per question, in payload order, carrying its index and id. *)
Theorem computeResult_counts mock answers :
  let r := computeResult mock answers in
  totalQuestions r = Z.of_nat (length (questions mock))
  /\ r_attempted r + r_unattempted r = totalQuestions r
  /\ r_correct r + r_wrong r = r_attempted r
  /\ Z.of_nat (length (breakdown r)) = totalQuestions r
  /\ row_index <$> breakdown r = seq 0 (length (questions mock))
  /\ row_id <$> breakdown r = id <$> questions mock.
Proof.
  unfold computeResult; cbn zeta; cbn [totalQuestions r_attempted r_unattempted r_correct r_wrong breakdown].
  destruct (scoreLoop_spec answers (questions mock) 0%nat (mkCounters 0 0 0 0 []))
    as (rows & Hb & Hid & Hix & _ & Ha & Hc & _).
  cbn [c_attempted c_unattempted c_correct c_wrong c_breakdown app] in *.
  rewrite Hb. repeat split; try lia; try done.
  apply (f_equal length) in Hid. rewrite !length_fmap in Hid. lia.
Qed.
End ScoringTheorems.

(** The scenario of the specification: answers [a] and [43] against the key
    [A], [42]. *)
Example demo_scores :
  let r := MockClient.computeResult demoPayload demoAnswers in
  rowScore <$> MockClient.breakdown r = [(MockClient.correct, 4); (MockClient.wrong, -1)]
  /\ MockClient.netMarks r = 3 /\ MockClient.maxMarks r = 8
  /\ (MockClient.scorePercent r == 375 # 10)%Q
  /\ (MockClient.accuracyPercent r == 50)%Q.
Proof. vm_compute. repeat split; congruence. Qed.

(** All unattempted: no marks, nothing attempted, both percentages zero. *)
Example all_unattempted :
  let r := MockClient.computeResult demoPayload ∅ in
  MockClient.netMarks r = 0 /\ MockClient.r_attempted r = 0
  /\ MockClient.accuracyPercent r = 0%Q /\ (MockClient.scorePercent r == 0)%Q.
Proof. vm_compute. repeat split; congruence. Qed.

(** ** Base64 *)

Section Base64Facts.
Import JS.

Lemma list_ind3 {A} (P : list A -> Prop) :
  P [] -> (forall a, P [a]) -> (forall a b, P [a; b]) ->
  (forall a b c l, P l -> P (a :: b :: c :: l)) -> forall l, P l.
Proof.
  intros H0 H1 H2 H3. fix IH 1.
  intros [|a [|b [|c l]]]; [exact H0 | apply H1 | apply H2 | apply H3, IH].
Qed.

Lemma chars_str l : chars (str l) = l.
Proof. apply list_ascii_of_string_of_list_ascii. Qed.

Lemma str_chars s : str (chars s) = s.
Proof. apply string_of_list_ascii_of_string. Qed.

Lemma chars_append a b : chars (String.append a b) = chars a ++ chars b.
Proof. induction a as [|c a IH]; simpl; [done|]. unfold chars in *. simpl. by rewrite IH. Qed.

Lemma length_chars s : length (chars s) = String.length s.
Proof. induction s as [|c s IH]; simpl; [done|]. unfold chars in *. simpl. by rewrite IH. Qed.

(** A property of every 6-bit value can be checked on the 64 of them. *)
Lemma sextet_cases (P : N -> bool) :
  forallb P (N.of_nat <$> seq 0 64) = true -> forall n, (n < 64)%N -> P n = true.
Proof.
  intros H n Hn. rewrite forallb_forall in H. apply H.
  apply in_map_iff. exists (N.to_nat n). split; [lia|]. apply in_seq. lia.
Qed.

Lemma sextets_bound buf : Forall isSextet (sextets buf).
Proof.
  induction buf as [| a | a b | a b c l IH] using list_ind3; cbn [sextets].
  - constructor.
  - pose proof (Byte.to_N_bounded a). repeat (apply List.Forall_cons; [unfold isSextet; divlia|]); apply Forall_nil.
  - pose proof (Byte.to_N_bounded a). pose proof (Byte.to_N_bounded b).
    repeat (apply List.Forall_cons; [unfold isSextet; divlia|]); apply Forall_nil.
  - pose proof (Byte.to_N_bounded a). pose proof (Byte.to_N_bounded b).
    pose proof (Byte.to_N_bounded c).
    repeat (apply List.Forall_cons; [unfold isSextet; divlia|]). exact IH.
Qed.

Lemma byteOfN_to_N a : byteOfN (Byte.to_N a) = a.
Proof.
  unfold byteOfN. pose proof (Byte.to_N_bounded a).
  rewrite N.mod_small by lia. by rewrite Byte.of_to_N.
Qed.

Lemma byteOfN_eq n a : n = Byte.to_N a -> byteOfN n = a.
Proof. intros ->. apply byteOfN_to_N. Qed.

Lemma unsextets_sextets buf : unsextets (sextets buf) = buf.
Proof.
  induction buf as [| a | a b | a b c l IH] using list_ind3;
    cbn [sextets unsextets app]; [done|..];
    pose proof (Byte.to_N_bounded a);
    try pose proof (Byte.to_N_bounded b);
    try pose proof (Byte.to_N_bounded c);
    try rewrite IH;
    repeat (apply (f_equal2 cons); [apply byteOfN_eq; divlia|]); done.
Qed.
End Base64Facts.

(** ** The URL-safe alphabet and the padding *)

Section Base64UrlFacts.
Import JS.

Lemma sextetOk_all n : isSextet n -> sextetOk n = true.
Proof. apply sextet_cases. vm_compute. reflexivity. Qed.

Lemma charSextet_sextetChar n : isSextet n -> charSextet (sextetChar n) = Some n.
Proof.
  intros H. apply sextetOk_all in H. unfold sextetOk in H.
  repeat (apply andb_prop in H as [H _]).
  destruct (charSextet (sextetChar n)); [|done].
  apply N.eqb_eq in H. by subst.
Qed.

Lemma sextetChar_plain n :
  isSextet n ->
  Ascii.eqb (sextetChar n) "=" = false /\ Ascii.eqb (sextetChar n) "-" = false
  /\ Ascii.eqb (sextetChar n) "_" = false /\ isAsciiWhitespace (sextetChar n) = false.
Proof.
  intros H. apply sextetOk_all in H. unfold sextetOk in H.
  repeat (apply andb_prop in H as [H ?]).
  repeat split; by apply negb_true_iff.
Qed.

Lemma mapM_charSextet l :
  Forall isSextet l -> mapM charSextet (sextetChar <$> l) = Some l.
Proof.
  induction 1 as [|n l Hn _ IH]; [done|].
  rewrite fmap_cons. cbn [mapM]. rewrite (charSextet_sextetChar n Hn), IH. done.
Qed.

Lemma urlOk_all n : isSextet n -> urlOk n = true.
Proof. apply sextet_cases. vm_compute. reflexivity. Qed.

Lemma stripTrailingList_run c k : stripTrailingList c (replicate k c) = [].
Proof. induction k as [|k IH]; simpl; [done|]. by rewrite IH, Ascii.eqb_refl. Qed.

Lemma stripTrailingList_app c l k :
  Forall (fun x => Ascii.eqb x c = false) l ->
  stripTrailingList c (l ++ replicate k c) = l.
Proof.
  induction 1 as [|x l Hx _ IH]; simpl.
  - apply stripTrailingList_run.
  - rewrite IH. destruct l; [by rewrite Hx|done].
Qed.

Lemma replaceAll_str c d l :
  replaceAll c d (str l) = str ((fun x => if Ascii.eqb x c then d else x) <$> l).
Proof. unfold replaceAll. by rewrite chars_str. Qed.

Lemma base64urlFromBuffer_chars buf :
  MockRoute.base64urlFromBuffer buf = str (urlChar <$> sextets buf).
Proof.
  unfold MockRoute.base64urlFromBuffer, toBase64.
  rewrite !replaceAll_str. unfold stripTrailing. rewrite chars_str.
  rewrite !fmap_app, <- !list_fmap_compose.
  f_equal.
  replace (_ <$> padding buf) with (replicate (length (padding buf)) "="%char).
  2:{ unfold padding. by destruct (length buf mod 3)%nat as [|[|[|?]]]. }
  rewrite stripTrailingList_app; [done|].
  apply Forall_fmap. eapply List.Forall_impl; [|apply sextets_bound].
  intros n Hn. apply urlOk_all in Hn. unfold urlOk in Hn.
  apply andb_prop in Hn as [_ Hn]. apply negb_true_iff in Hn. exact Hn.
Qed.

Lemma unreplace_urlChars l :
  Forall isSextet l ->
  replaceAll "_" "/" (replaceAll "-" "+" (str (urlChar <$> l))) = str (sextetChar <$> l).
Proof.
  intros H. rewrite !replaceAll_str, <- !list_fmap_compose. f_equal.
  apply Forall_fmap_ext. eapply List.Forall_impl; [|exact H].
  intros n Hn. apply urlOk_all in Hn. unfold urlOk in Hn.
  apply andb_prop in Hn as [Hn _]. apply Ascii.eqb_eq in Hn. exact Hn.
Qed.

Lemma padding_step a b c (l : list byte) : padding (a :: b :: c :: l) = padding l.
Proof.
  unfold padding. cbn [length].
  replace (S (S (S (length l)))) with (length l + 1 * 3)%nat by lia.
  by rewrite Nat.Div0.mod_add.
Qed.

Lemma repad buf :
  sliceFrom ((length (sextets buf) + 3) mod 4) "===" = str (padding buf).
Proof.
  induction buf as [| a | a b | a b c l IH] using list_ind3; try done.
  rewrite padding_step, <- IH. cbn [sextets]. rewrite length_app. cbn [length].
  replace (4 + length (sextets l) + 3)%nat with ((length (sextets l) + 3) + 1 * 4)%nat by lia.
  by rewrite Nat.Div0.mod_add.
Qed.

Lemma sextets_length_mod buf :
  (length ((sextetChar <$> sextets buf) ++ padding buf) mod 4 = 0)%nat
  /\ (length (sextets buf) mod 4 <> 1)%nat.
Proof.
  induction buf as [| a | a b | a b c l IH] using list_ind3; try done.
  rewrite length_app, length_fmap in *. cbn [sextets]. rewrite length_app. cbn [length].
  rewrite padding_step.
  replace (4 + length (sextets l) + length (padding l))%nat
    with ((length (sextets l) + length (padding l)) + 1 * 4)%nat by lia.
  replace (4 + length (sextets l))%nat with (length (sextets l) + 1 * 4)%nat by lia.
  by rewrite !Nat.Div0.mod_add.
Qed.

Lemma dropLastIf_snoc c l : dropLastIf c (l ++ [c]) = l.
Proof. unfold dropLastIf. rewrite rev_unit, Ascii.eqb_refl. apply rev_involutive. Qed.

Lemma dropLastIf_clean c l :
  Forall (fun x => Ascii.eqb x c = false) l -> dropLastIf c l = l.
Proof.
  intros H. unfold dropLastIf. destruct (rev l) as [|x r] eqn:E; [done|].
  assert (In x l) as Hin by (apply in_rev; rewrite E; left; done).
  rewrite List.Forall_forall in H. by rewrite (H x Hin).
Qed.

Lemma dropPadding_toBase64 buf :
  dropPadding ((sextetChar <$> sextets buf) ++ padding buf) = sextetChar <$> sextets buf.
Proof.
  unfold dropPadding.
  destruct (sextets_length_mod buf) as [-> _]. cbn [Nat.eqb].
  assert (Forall (fun x => Ascii.eqb x "=" = false) (sextetChar <$> sextets buf)) as Hc.
  { apply Forall_fmap. eapply List.Forall_impl; [|apply sextets_bound].
    intros n Hn. by apply sextetChar_plain in Hn as [? _]. }
  unfold padding. destruct (length buf mod 3)%nat as [|[|[|?]]].
  - rewrite app_nil_r. by rewrite !(dropLastIf_clean _ _ Hc).
  - change ["="%char; "="%char] with (["="%char] ++ ["="%char]).
    rewrite app_assoc, !dropLastIf_snoc. done.
  - rewrite dropLastIf_snoc. by rewrite (dropLastIf_clean _ _ Hc).
  - rewrite app_nil_r. by rewrite !(dropLastIf_clean _ _ Hc).
Qed.

Lemma filter_all {A} (P : A -> Prop) `{forall x, Decision (P x)} (l : list A) :
  Forall P l -> filter P l = l.
Proof.
  induction 1 as [|x l Hx _ IH]; [done|].
  rewrite filter_cons_True by done. by rewrite IH.
Qed.

Lemma atob_toBase64 buf : atob (toBase64 buf) = Some (string_of_list_byte buf).
Proof.
  unfold atob, toBase64. rewrite chars_str.
  rewrite filter_all.
  - rewrite dropPadding_toBase64, length_fmap.
    destruct (sextets_length_mod buf) as [_ Hne].
    destruct (Nat.eqb_spec (length (sextets buf) mod 4) 1) as [E|_]; [done|].
    rewrite mapM_charSextet by apply sextets_bound.
    cbn. by rewrite unsextets_sextets.
  - apply Forall_app. split.
    + apply Forall_fmap. eapply List.Forall_impl; [|apply sextets_bound].
      intros n Hn. by apply sextetChar_plain in Hn as (_ & _ & _ & ?).
    + unfold padding. destruct (length buf mod 3)%nat as [|[|[|?]]];
        repeat (apply List.Forall_cons; [done|]); apply List.Forall_nil.
Qed.

Lemma base64url_roundtrip buf :
  MockClient.base64urlToUint8Array (MockRoute.base64urlFromBuffer buf) = Some buf.
Proof.
  unfold MockClient.base64urlToUint8Array.
  rewrite base64urlFromBuffer_chars.
  rewrite unreplace_urlChars by apply sextets_bound.
  rewrite <- length_chars, chars_str, length_fmap, repad.
  replace (String.append _ _) with (toBase64 buf).
  - rewrite atob_toBase64. cbn. by rewrite list_byte_of_string_of_list_byte.
  - unfold toBase64. rewrite <- (str_chars (String.append _ _)), chars_append, !chars_str. done.
Qed.
End Base64UrlFacts.

(** ** The token codec *)

Section CodecLaws.
Import Codecs.

Lemma Codecs_JSON_roundtrip p : JSON_parse (JSON_stringify p) = Some p.
Proof.
  unfold JSON_parse, JSON_stringify.
  rewrite NilEmpty.usu, DecimalPos.Unsigned.of_to. apply decode_encode.
Qed.

Lemma Codecs_utf8_roundtrip s : utf8_decode (utf8_encode s) = s.
Proof. apply string_of_list_byte_of_string. Qed.

Lemma Codecs_gzip_roundtrip b : gunzip (gzipSync b) = Some b.
Proof. reflexivity. Qed.
End CodecLaws.

Section TokenCodec.
Variable JSON_stringify : MockPayload -> string.
Variable utf8_encode : string -> list byte.
Variable gzipSync : list byte -> list byte.
Variable gunzip : list byte -> option (list byte).
Variable utf8_decode : list byte -> string.
Variable JSON_parse : string -> option MockPayload.

(** C1: decoding the token of a payload gives the payload back. The
    base64url layer, with its alphabet substitution, stripped padding and
    re-padding, is the code's own and is proved for every buffer; the JSON,
    UTF-8 and gzip codecs are the platform's and enter through what they
    guarantee on this payload: the gzip stream of its JSON text decompresses
    to that text's bytes, these decode to the text, and the text parses to
    the payload. *)
Theorem token_roundtrip payload :
  let json := JSON_stringify payload in
  gunzip (gzipSync (utf8_encode json)) = Some (utf8_encode json) ->
  utf8_decode (utf8_encode json) = json ->
  JSON_parse json = Some payload ->
  MockClient.gunzipToJson gunzip utf8_decode JSON_parse
    (MockRoute.encodeToken JSON_stringify utf8_encode gzipSync payload)
  = Some payload.
Proof.
  intros json Hgzip Hutf8 Hjson.
  unfold MockClient.gunzipToJson, MockRoute.encodeToken.
  rewrite base64url_roundtrip. cbn [mbind option_bind].
  fold json. rewrite Hgzip. cbn [mbind option_bind].
  rewrite Hutf8. exact Hjson.
Qed.
End TokenCodec.

Lemma token_roundtrip_witness :
  MockClient.gunzipToJson Codecs.gunzip Codecs.utf8_decode Codecs.JSON_parse
    (MockRoute.encodeToken Codecs.JSON_stringify Codecs.utf8_encode Codecs.gzipSync
       demoPayload)
  = Some demoPayload.
Proof.
  apply (token_roundtrip Codecs.JSON_stringify Codecs.utf8_encode Codecs.gzipSync
           Codecs.gunzip Codecs.utf8_decode Codecs.JSON_parse).
  - apply Codecs_gzip_roundtrip.
  - apply Codecs_utf8_roundtrip.
  - apply Codecs_JSON_roundtrip.
Defined.

(** ** The session timer *)

Section Session.
Import MockClient.

Lemma commit_spec now before after :
  let '(st', n) := commit now before after in
  (depsChanged before after = false -> st' = after /\ n = 0%nat)
  /\ (depsChanged before after = true -> timerStopped st')
  /\ (n <= 1)%nat
  /\ (submitted after = true -> n = 0%nat /\ submitted st' = true)
  /\ (n = 1%nat -> submitted st' = true).
Proof.
  unfold commit.
  destruct (depsChanged before after) eqn:Hd.
  2:{ repeat split; try done; lia. }
  unfold timerEffect. cbn [token submitted setInterval].
  destruct (negb (JS.truthy (token after)) || submitted after) eqn:Hg.
  - unfold depsChanged at 1. cbn [token submitted setInterval].
    rewrite String.eqb_refl, eqb_reflx. cbn.
    repeat split; try done; try lia.
  - apply orb_false_elim in Hg as [Ht Hs].
    destruct (readOrInitSessionStart _ _ _) as [start ls].
    unfold tick, tickSubmits.
    destruct (timeLeft start now <=? 0) eqn:Hl.
    + unfold depsChanged. cbn. rewrite String.eqb_refl, Hs. cbn.
      rewrite Ht. cbn.
      repeat split; try done; try lia; congruence.
    + unfold depsChanged. cbn. rewrite String.eqb_refl, eqb_reflx. cbn.
      repeat split; try done; try lia; try congruence.
      intros _. unfold timerStopped. cbn. congruence.
Qed.

Lemma step_spec now ev st :
  timerStopped st ->
  let '(st', n) := step now ev st in
  timerStopped st'
  /\ (n <= 1)%nat
  /\ (submitted st = true -> n = 0%nat /\ submitted st' = true)
  /\ (n = 1%nat -> submitted st' = true).
Proof.
  intros Hinv. destruct ev; cbn [step].
  - (* TokenRead *)
    destruct (negb (JS.truthy t)); [cbn; repeat split; try done; lia|].
    set (st2 := match m with Some _ => _ | None => _ end).
    assert (submitted st2 = submitted st /\ interval st2 = interval st) as [Hs Hi].
    { subst st2. destruct m as [data|]; [destruct (_ =? _)%nat|]; done. }
    pose proof (commit_spec now st st2) as H.
    destruct (commit now st st2) as [st' n].
    destruct H as (H0 & H1 & H2 & H3 & H4).
    rewrite Hs in H3.
    destruct (depsChanged st st2) eqn:Hd.
    + repeat split; auto; apply H3; done.
    + destruct (H0 eq_refl) as [-> ->].
      repeat split; auto; try lia; try (by apply H3).
      unfold timerStopped. rewrite Hs, Hi. exact Hinv.
  - (* IntervalFired *)
    destruct (interval st) as [start|] eqn:Hi.
    2:{ repeat split; auto; try lia; try done. }
    assert (submitted st = false) as Hs.
    { destruct (submitted st) eqn:E; [|done]. rewrite (Hinv E) in Hi. done. }
    pose proof (commit_spec now st (tick start now st)) as H.
    destruct (commit now st (tick start now st)) as [st' n].
    destruct H as (H0 & H1 & H2 & H3 & H4).
    unfold tick, tickSubmits in *.
    destruct (timeLeft start now <=? 0) eqn:Hl.
    + destruct (H3 eq_refl) as [-> Hsub].
      assert (depsChanged st (setShowModal true (setSubmitted true (setRemainingMs (timeLeft start now) st))) = true) as Hd.
      { unfold depsChanged. cbn. rewrite Hs. cbn. apply orb_true_r. }
      repeat split; auto; try lia; congruence.
    + assert (depsChanged st (setRemainingMs (timeLeft start now) st) = false) as Hd.
      { unfold depsChanged. cbn. by rewrite String.eqb_refl, eqb_reflx. }
      destruct (H0 Hd) as [-> ->].
      repeat split; auto; try lia; try congruence.
  - (* SubmitNow *)
    pose proof (commit_spec now st (setShowModal true (setSubmitted true st))) as H.
    destruct (commit now st _) as [st' n].
    destruct H as (H0 & H1 & H2 & H3 & H4).
    destruct (H3 eq_refl) as [-> Hsub].
    destruct (depsChanged st (setShowModal true (setSubmitted true st))) eqn:Hd.
    + repeat split; auto.
    + destruct (H0 eq_refl) as [-> _].
      repeat split; auto; try lia.
      unfold timerStopped. cbn. intros _. apply Hinv.
      unfold depsChanged in Hd. cbn in Hd. rewrite String.eqb_refl in Hd. cbn in Hd.
      by destruct (submitted st).
  - cbn; repeat split; auto; try lia; done.
  - destruct (currentQuestion st); [destruct (submitted st) eqn:E|];
      cbn; repeat split; auto; try lia; try done; try congruence.
  - cbn; repeat split; auto; try lia; done.
  - destruct (mock st); cbn; repeat split; auto; try lia; done.
  - cbn; repeat split; auto; try lia; done.
Qed.

Lemma run_spec evs : forall st,
  timerStopped st ->
  let '(st', n) := run evs st in
  timerStopped st'
  /\ (n <= 1)%nat
  /\ (submitted st = true -> n = 0%nat /\ submitted st' = true)
  /\ (n = 1%nat -> submitted st' = true).
Proof.
  induction evs as [|[now ev] evs IH]; intros st Hinv; cbn [run].
  - repeat split; auto; lia.
  - pose proof (step_spec now ev st Hinv) as H1.
    destruct (step now ev st) as [st1 n1].
    destruct H1 as (Hi1 & Hn1 & Hs1 & Hf1).
    pose proof (IH st1 Hi1) as H2.
    destruct (run evs st1) as [st2 n2].
    destruct H2 as (Hi2 & Hn2 & Hs2 & Hf2).
    split; [done|].
    assert (n1 = 1%nat -> n2 = 0%nat) as Hx.
    { intros E. apply Hf1 in E. by apply Hs2 in E as [? _]. }
    split; [lia|]. split.
    + intros E. destruct (Hs1 E) as [-> E1]. destruct (Hs2 E1) as [-> E2]. done.
    + intros E. destruct n1 as [|[|?]]; try lia.
      * apply Hf2. lia.
      * apply Hs2. apply Hf1. done.
Qed.

Lemma run_app evs1 evs2 st :
  run (evs1 ++ evs2) st =
  let '(st1, n1) := run evs1 st in
  let '(st2, n2) := run evs2 st1 in
  (st2, (n1 + n2)%nat).
Proof.
  revert st. induction evs1 as [|[now ev] evs1 IH]; intros st; cbn [run app].
  - by destruct (run evs2 st).
  - destruct (step now ev st) as [st1 n1]. rewrite IH.
    destruct (run evs1 st1) as [st2 n2]. destruct (run evs2 st2) as [st3 n3].
    f_equal. lia.
Qed.

Lemma initial_timerStopped ls : timerStopped (initialState ls).
Proof. done. Qed.

(** C2, as the code has it: a tick of the interval sets the remaining time
    to the fixed limit of 20 minutes, [TIME_LIMIT_SECONDS * 1000], minus the
    time elapsed since the session start its closure captured, whatever
    payload the state holds; the payload's [durationSeconds] is never read.
    Without an interval no tick runs. The tick that the timer effect makes
    when it starts does the same, from the session start it reads or
    initialises. *)
Theorem tick_uses_fixed_limit now st :
  match interval st with
  | Some start =>
      remainingMs (step now IntervalFired st).1 = 20 * 60 * 1000 - (now - start)
  | None => step now IntervalFired st = (st, 0%nat)
  end
  /\ (if negb (JS.truthy (token st)) || submitted st
      then timerEffect now st = (setInterval None st, 0%nat)
      else remainingMs (timerEffect now st).1
           = 20 * 60 * 1000
             - (now - (readOrInitSessionStart (token st) now (localStorage st)).1)).
Proof.
  split.
  - cbn [step]. destruct (interval st) as [start|]; [|done].
    unfold commit, timerEffect, tick, tickSubmits, timeLeft, TIME_LIMIT_SECONDS.
    destruct (_ <=? 0) eqn:Hl.
    + destruct (depsChanged st _) eqn:Hd; cbn; [|done].
      rewrite orb_true_r. unfold depsChanged; cbn.
      by rewrite String.eqb_refl.
    + destruct (depsChanged st _) eqn:Hd; cbn; [|done].
      unfold depsChanged in Hd. cbn in Hd.
      by rewrite String.eqb_refl, eqb_reflx in Hd.
  - unfold timerEffect. cbn [token submitted setInterval localStorage].
    destruct (negb (JS.truthy (token st)) || submitted st); [done|].
    destruct (readOrInitSessionStart _ _ _) as [start ls].
    unfold tick, timeLeft, TIME_LIMIT_SECONDS.
    by destruct (_ <=? 0).
Qed.

(** C2 fails for an exam of 60 seconds, the duration that the route embeds
    for [duration=60] (its payload type says of the matching [expiresAt]:
    UI uses this for timer): one second into the session the tick leaves
    1 199 000 ms, where [durationSeconds*1000 - elapsed] is 59 000 ms. *)
Lemma tick_ignores_durationSeconds :
  let st := (run [(1000, TokenRead "tok" (Some shortPayload)); (2000, IntervalFired)]
               (initialState (Some ∅))).1 in
  MockRoute.effectiveDurationSeconds (Some (JS.Num 60)) = durationSeconds shortPayload
  /\ mock st = Some shortPayload
  /\ interval st = Some 1000
  /\ remainingMs st = 1199000
  /\ specRemaining (durationSeconds shortPayload) 2000 1000 = JS.Num (60 * 1000 + - (1000 # 1))
  /\ num_eqb (JS.Num (inject_Z (remainingMs st)))
       (specRemaining (durationSeconds shortPayload) 2000 1000) = false.
Proof. vm_compute. repeat split. Qed.

Lemma Number_of_String z : JS.Number_of_string (JS.String_of_Z z) = Some z.
Proof.
  unfold JS.Number_of_string, JS.String_of_Z.
  rewrite NilZero.isi.
  - cbn. by rewrite DecimalZ.of_to.
  - destruct z; cbn; try done. intros [= H]. revert H. apply DecimalPos.Unsigned.to_uint_nonnil.
  - destruct z; cbn; try done. intros [= H]. revert H. apply DecimalPos.Unsigned.to_uint_nonnil.
Qed.

Lemma String_of_Z_truthy z : JS.truthy (JS.String_of_Z z) = true.
Proof.
  pose proof (Number_of_String z) as H.
  destruct (JS.String_of_Z z); [done|done].
Qed.

(** X3: the session start is established once per token. Whatever the
    storage held, after one call of [readOrInitSessionStart] at a positive
    instant every later call, at any instant, returns the same start and
    leaves the storage as it is. *)
Theorem session_start_persists token now1 now2 m :
  0 < now1 ->
  let '(start, ls) := readOrInitSessionStart token now1 (Some m) in
  0 < start
  /\ readOrInitSessionStart token now2 ls = (start, ls).
Proof.
  intros Hnow.
  assert (forall k, 0 < k ->
            readOrInitSessionStart token now2
              (Some (<[newSessionStartKey token := JS.String_of_Z k]> m))
            = (k, Some (<[newSessionStartKey token := JS.String_of_Z k]> m))) as Hinit.
  { intros k Hk. unfold readOrInitSessionStart.
    rewrite lookup_insert_eq, String_of_Z_truthy, Number_of_String.
    by rewrite (proj2 (Z.ltb_lt 0 k) Hk). }
  unfold readOrInitSessionStart at 1.
  destruct (m !! newSessionStartKey token) as [existing|] eqn:Hm; [|by auto].
  destruct (JS.truthy existing) eqn:Ht; [|by auto].
  destruct (JS.Number_of_string existing) as [t|] eqn:Hn; [|by auto].
  destruct (Z.ltb_spec 0 t) as [Hpos|_]; [|by auto].
  split; [done|].
  unfold readOrInitSessionStart. rewrite Hm, Ht, Hn.
  by rewrite (proj2 (Z.ltb_lt 0 t) Hpos).
Qed.

Lemma session_start_persists_witness :
  readOrInitSessionStart "tok" 1730000060000
    (readOrInitSessionStart "tok" 1730000000000 (Some ∅)).2
  = readOrInitSessionStart "tok" 1730000000000 (Some ∅).
Proof.
  pose proof (session_start_persists "tok" 1730000000000 1730000060000 ∅ eq_refl) as H.
  destruct (readOrInitSessionStart "tok" 1730000000000 (Some ∅)) as [start ls].
  exact (proj2 H).
Defined.
(** A session resumed 19 minutes after its persisted start shows 60 s and
    leaves the stored start as it is. *)
Example resumed_session :
  let start := 1730000000000 in
  let now := start + 19 * 60 * 1000 in
  let ls := Some {[ newSessionStartKey "tok" := JS.String_of_Z start ]} in
  let st := (run [(now, TokenRead "tok" (Some demoPayload))] (initialState ls)).1 in
  remainingMs st = 60000 /\ interval st = Some start /\ localStorage st = ls.
Proof. vm_compute. repeat split. Qed.

(** C9: in every run of the component the timer submits at most once; and
    when a tick of the interval finds the time used up, the session was not
    yet submitted, that tick submits, and nothing that happens afterwards
    (further ticks included) makes the timer submit again: the run counts
    exactly one submission by the timer. *)
Theorem auto_submit_exactly_once ls evs :
  ((run evs (initialState ls)).2 <= 1)%nat
  /\ forall evs1 now evs2 start,
       evs = evs1 ++ (now, IntervalFired) :: evs2 ->
       interval (run evs1 (initialState ls)).1 = Some start ->
       timeLeft start now <= 0 ->
       let before := (run evs1 (initialState ls)).1 in
       let after := (step now IntervalFired before).1 in
       submitted before = false
       /\ (step now IntervalFired before).2 = 1%nat
       /\ submitted after = true
       /\ (run evs2 after).2 = 0%nat
       /\ (run evs (initialState ls)).2 = 1%nat.
Proof.
  split.
  { pose proof (run_spec evs _ (initial_timerStopped ls)) as H.
    destruct (run evs (initialState ls)) as [st n]. by destruct H as (_ & ? & _). }
  intros evs1 now evs2 start -> Hi Hl. cbn zeta.
  rewrite run_app. cbn [run].
  pose proof (run_spec evs1 _ (initial_timerStopped ls)) as H1.
  destruct (run evs1 (initialState ls)) as [st1 n1]. cbn [fst snd] in *.
  destruct H1 as (Hinv1 & Hn1 & _ & Hf1).
  assert (submitted st1 = false) as Hs1.
  { destruct (submitted st1) eqn:E; [|done]. rewrite (Hinv1 E) in Hi. done. }
  assert (n1 = 0%nat) as ->.
  { destruct n1 as [|[|?]]; [done| |lia]. rewrite Hf1 in Hs1; done. }
  pose proof (step_spec now IntervalFired st1 Hinv1) as H2.
  assert (1 <= (step now IntervalFired st1).2)%nat as Hge.
  { cbn [step]. rewrite Hi. destruct (commit _ _ _) as [s n]. cbn [snd].
    unfold tickSubmits. rewrite (proj2 (Z.leb_le _ _) Hl). lia. }
  destruct (step now IntervalFired st1) as [st2 n2]. cbn [fst snd] in *.
  destruct H2 as (Hinv2 & Hn2 & _ & Hf2).
  assert (n2 = 1%nat) as -> by lia.
  pose proof (run_spec evs2 st2 Hinv2) as H3.
  destruct (run evs2 st2) as [st3 n3]. cbn [fst snd] in *.
  destruct H3 as (_ & _ & Hs3 & _).
  destruct (Hs3 (Hf2 eq_refl)) as [-> _].
  repeat split; try done. by apply Hf2.
Qed.

Lemma auto_submit_exactly_once_witness :
  let evs := [(0, TokenRead "tok" (Some demoPayload)); (600000, IntervalFired);
              (1200000, IntervalFired); (1200250, IntervalFired); (1200500, SubmitNow);
              (1200750, IntervalFired)] in
  (run evs (initialState (Some ∅))).2 = 1%nat.
Proof.
  cbn zeta.
  refine (match auto_submit_exactly_once (Some ∅) _ with
          | conj _ H =>
              match H [(0, TokenRead "tok" (Some demoPayload)); (600000, IntervalFired)]
                      1200000
                      [(1200250, IntervalFired); (1200500, SubmitNow); (1200750, IntervalFired)]
                      0 eq_refl _ _ with
              | conj _ (conj _ (conj _ (conj _ E))) => E
              end
          end).
  - vm_compute. reflexivity.
  - vm_compute. discriminate.
Defined.
End Session.

(** ** Request parameters *)

Section Clamp.
Import MockRoute.

Lemma Qle_bool_false a b : Qle_bool a b = false -> (b < a)%Q.
Proof. intros E. apply Qnot_le_lt. rewrite <- Qle_bool_iff. congruence. Qed.

Local Ltac split_Qle :=
  repeat match goal with
    | |- context [Qle_bool ?a ?b] =>
        let E := fresh "E" in
        destruct (Qle_bool a b) eqn:E;
        [apply Qle_bool_iff in E | apply Qle_bool_false in E]; cbn
    end.

Lemma Math_min_max_inRange (lo hi : Q) v :
  (lo <= hi)%Q -> v <> JS.NaN ->
  inRange lo hi (JS.Math_min (JS.Num hi) (JS.Math_max (JS.Num lo) v)).
Proof.
  intros Hlh Hv. destruct v as [| |q|]; [done|..]; cbn; split_Qle; lra.
Qed.

Lemma num_or_not_NaN v d : JS.num_or v (JS.Num d) <> JS.NaN.
Proof.
  unfold JS.num_or. destruct v as [| |q|]; cbn; try done.
  by destruct (negb (Qeq_bool q 0)).
Qed.

Lemma effectiveMaxQuestions_inRange requested :
  inRange 1 10 (effectiveMaxQuestions requested).
Proof. apply Math_min_max_inRange; [done|apply num_or_not_NaN]. Qed.

(** C7, as the code has it: the effective count and duration are the
    requested value clamped to [[1, 10]] and [[60, 3600]], where a parameter
    that is absent, not a number or zero counts as not given and yields the
    default (10, 1200); the results always lie in their ranges. *)
Theorem clampParam_amended requested :
  effectiveMaxQuestions requested = specClamp 1 10 10 (usable requested)
  /\ effectiveDurationSeconds requested = specClamp 60 3600 1200 (usable requested)
  /\ inRange 1 10 (effectiveMaxQuestions requested)
  /\ inRange 60 3600 (effectiveDurationSeconds requested).
Proof.
  unfold effectiveMaxQuestions, effectiveDurationSeconds.
  repeat split.
  - unfold clampParam, usable, JS.num_or.
    destruct requested as [v|]; [|reflexivity]. unfold default; cbn [from_option Datatypes.id].
    destruct (JS.num_truthy v); reflexivity.
  - unfold clampParam, usable, JS.num_or.
    destruct requested as [v|]; [|reflexivity]. unfold default; cbn [from_option Datatypes.id].
    destruct (JS.num_truthy v); reflexivity.
  - apply effectiveMaxQuestions_inRange.
  - apply (Math_min_max_inRange 60 (60 * 60)); [done|apply num_or_not_NaN].
Qed.

(** [max=15] gives 10, [duration=10] gives 60, absent gives the defaults. *)
Example clamp_scenario :
  effectiveMaxQuestions (Some (JS.Num 15)) = JS.Num 10
  /\ effectiveDurationSeconds (Some (JS.Num 10)) = JS.Num 60
  /\ effectiveMaxQuestions None = JS.Num 10
  /\ effectiveDurationSeconds None = JS.Num 1200.
Proof. repeat split. Qed.

(** C7 fails for a requested value of zero: [max=0] gives 10 where the
    clamp to [[1, 10]] is 1, and [duration=0] gives 1200 where the clamp to
    [[60, 3600]] is 60. *)
Lemma clampParam_zero_is_default :
  effectiveMaxQuestions (Some (JS.Num 0)) = JS.Num 10
  /\ specClamp 1 10 10 (Some (JS.Num 0)) = JS.Num 1
  /\ num_eqb (JS.Num 10) (JS.Num 1) = false
  /\ effectiveDurationSeconds (Some (JS.Num 0)) = JS.Num 1200
  /\ specClamp 60 3600 1200 (Some (JS.Num 0)) = JS.Num 60
  /\ num_eqb (JS.Num 1200) (JS.Num 60) = false.
Proof. repeat split. Qed.
End Clamp.

(** ** The record normaliser *)

Section Normalizer.
Import MockRoute.

(** Matching of chapter names ignores case and separators. *)
Example normalize_insensitive :
  normalize "Motion-in-a-Plane" = "motion in a plane"
  /\ normalize "motion in a plane" = "motion in a plane"
  /\ normalize "  MOTION_IN__A - PLANE " = "motion in a plane".
Proof. repeat split. Qed.

(** C3, as the code has it: the type of a normalised question is the one
    the raw question declares in [question_type] when it declares one, and
    only otherwise [mcq] exactly when the options markup is non-empty after
    trimming. *)
Theorem questionType_declared_first listItems subjectName chapter record i q :
  type (poolEntry listItems subjectName chapter record i q)
  = match question_type q with
    | Some t => t
    | None => specType q
    end.
Proof.
  cbn [poolEntry type]. unfold questionType, specType.
  destruct (question_type q); [done|].
  destruct (JS.trim _) eqn:E; cbn; done.
Qed.

(** C3 fails for a question declared [value] that carries options markup:
    its type stays [value]. *)
Lemma declared_type_overrides_markup :
  type (poolEntry noListItems "Physics" "Kinematics" emptyRecord 0 typedValueWithOptions) = value
  /\ specType typedValueWithOptions = mcq.
Proof. split; reflexivity. Qed.
End Normalizer.

Section Jsonl.
Context {A : Type}.
Variable JSON_parse : string -> JS.Outcome A.

Lemma topic_parseLoop_spec lines : forall i data errs,
  let '(data', errs') := TopicRoute.parseLoop JSON_parse i lines data errs in
  data' = data ++ omap (parsedValue JSON_parse) lines
  /\ (length data' + length errs' = length data + length errs + length lines)%nat
  /\ (length errs <= length errs')%nat.
Proof.
  induction lines as [|l lines IH]; intros i data errs; cbn [TopicRoute.parseLoop].
  - rewrite app_nil_r. cbn. repeat split; lia.
  - cbn [omap list_omap length]. fold (omap (parsedValue JSON_parse) lines).
    unfold parsedValue at 1.
    destruct (JSON_parse l) as [v|m] eqn:E.
    + specialize (IH (S i) (data ++ [v]) errs).
      destruct (TopicRoute.parseLoop _ _ _ _ _) as [data' errs'].
      destruct IH as (-> & Hlen & Hle).
      rewrite <- app_assoc. rewrite !length_app in *. cbn [length app] in *.
      repeat split; lia.
    + specialize (IH (S i) data (errs ++ [TopicRoute.mkParseError (i + 1) m])).
      destruct (TopicRoute.parseLoop _ _ _ _ _) as [data' errs'].
      destruct IH as (-> & Hlen & Hle).
      rewrite !length_app in *. cbn [length] in *.
      repeat split; lia.
Qed.

(** X2: the topic route skips a malformed line and counts it among the
    parse errors; it answers with an error only when the file has lines and
    none of them parses. *)
Theorem topic_route_skips_malformed_lines text :
  let r := TopicRoute.parseJsonl JSON_parse text in
  TopicRoute.data r = omap (parsedValue JSON_parse) (TopicRoute.nonBlankLines text)
  /\ (length (TopicRoute.data r) + length (TopicRoute.parseErrors r)
      = TopicRoute.totalLines r)%nat
  /\ ((exists errs, TopicRoute.GET JSON_parse (Some text) = TopicRoute.NoValidLines errs)
      <-> TopicRoute.nonBlankLines text <> []
          /\ forall l, l ∈ TopicRoute.nonBlankLines text -> parsedValue JSON_parse l = None).
Proof.
  unfold TopicRoute.GET, TopicRoute.parseJsonl.
  pose proof (topic_parseLoop_spec (TopicRoute.nonBlankLines text) 0 [] []) as H.
  destruct (TopicRoute.parseLoop _ _ _ _ _) as [data errs].
  destruct H as (-> & Hlen & _).
  cbn [TopicRoute.data TopicRoute.parseErrors TopicRoute.totalLines length app] in *.
  split; [done|]. split; [lia|].
  set (lines := TopicRoute.nonBlankLines text) in *.
  destruct (Nat.ltb_spec 0 (length lines)) as [Hpos|Hz]; cbn.
  - destruct (Nat.eqb_spec (length (omap (parsedValue JSON_parse) lines)) 0) as [E|E].
    + split; [intros _|by eauto]. split.
      * intros E'. rewrite E' in Hpos. cbn in Hpos. lia.
      * intros l Hl. destruct (parsedValue JSON_parse l) as [v|] eqn:Ev; [|done].
        assert (v ∈ omap (parsedValue JSON_parse) lines) as Hv
          by (apply list_elem_of_omap; eauto).
        destruct (omap (parsedValue JSON_parse) lines); [by apply elem_of_nil in Hv|done].
    + split; [by intros [? ?]|]. intros [_ Hall]. exfalso. apply E.
      destruct (omap (parsedValue JSON_parse) lines) as [|v vs] eqn:Eo; [done|].
      assert (v ∈ omap (parsedValue JSON_parse) lines) as Hv by (rewrite Eo; left).
      apply list_elem_of_omap in Hv as (l0 & Hl & Hv). rewrite (Hall l0 Hl) in Hv. done.
  - split; [by intros [? ?]|]. intros [Hne _]. destruct lines; [done|cbn in Hz; lia].
Qed.

End Jsonl.

(** ** Malformed lines in the assembly route *)

Section AssemblyJsonl.
Import MockRoute.
Variable listItems : string -> list string.
Variable JSON_parse : string -> JS.Outcome ChapterRecord.
Variable fetchText : string -> string -> option string.

Lemma mock_parseLoop_throws lines : forall out l m,
  l ∈ lines -> JSON_parse l = JS.Thrown m ->
  exists m', parseLoop JSON_parse lines out = JS.Thrown m'.
Proof.
  induction lines as [|l0 lines IH]; intros out l m Hin Hl.
  - by apply elem_of_nil in Hin.
  - cbn [parseLoop]. destruct (JSON_parse l0) as [v|m0] eqn:E; [|by eauto].
    apply elem_of_cons in Hin as [->|Hin]; [congruence|]. by eapply IH.
Qed.

Lemma buildPool_throws chapterToSubject chapters c :
  c ∈ chapters ->
  (exists m, chapterEntries listItems JSON_parse fetchText chapterToSubject c = JS.Thrown m) ->
  exists m', buildPool listItems JSON_parse fetchText chapterToSubject chapters = JS.Thrown m'.
Proof.
  induction chapters as [|c0 cs IH]; intros Hin [m Hm].
  - by apply elem_of_nil in Hin.
  - cbn [buildPool].
    destruct (chapterEntries _ _ _ _ c0) as [qs|m0] eqn:E; [|by eauto].
    apply elem_of_cons in Hin as [->|Hin]; [congruence|].
    destruct (IH Hin) as [m' ->]; by eauto.
Qed.

(** C5: in the assembly route one malformed line is fatal. When the file of
    any requested chapter has a non-blank line that does not parse, building
    the pool throws, whatever else parses. *)
Theorem assembly_malformed_line_is_fatal chapterToSubject chapters c text l m :
  c ∈ chapters ->
  fetchText (default EmptyString (chapterToSubject !! c)) c = Some text ->
  l ∈ TopicRoute.nonBlankLines text ->
  JSON_parse l = JS.Thrown m ->
  exists m', buildPool listItems JSON_parse fetchText chapterToSubject chapters = JS.Thrown m'.
Proof.
  intros Hc Hf Hl Hm. apply (buildPool_throws _ _ c Hc).
  unfold chapterEntries. rewrite Hf.
  change (parseJsonl JSON_parse text)
    with (parseLoop JSON_parse (TopicRoute.nonBlankLines text) []).
  destruct (mock_parseLoop_throws _ [] l m Hl Hm) as [m' ->]. by eauto.
Qed.
End AssemblyJsonl.

Lemma assembly_malformed_line_is_fatal_witness :
  exists m',
    MockRoute.buildPool noListItems Doubles.JSON_parse (Doubles.fetchText Doubles.brokenFile)
      {[ "Kinematics" := "Physics" ]} ["Kinematics"] = JS.Thrown m'.
Proof.
  apply (assembly_malformed_line_is_fatal _ _ _ _ _ "Kinematics" Doubles.brokenFile
           "{not json" "Unexpected token in JSON").
  - vm_compute. left.
  - reflexivity.
  - vm_compute. right; left.
  - reflexivity.
Defined.

(** The same file in both routes: the topic route answers with the record
    of the good line and one parse error; the assembly route throws. *)
Example broken_file_in_both_routes (random : nat -> N)
    (toISOString : JS.number -> string) (now : Z) :
  TopicRoute.GET Doubles.JSON_parse (Some Doubles.brokenFile)
  = TopicRoute.Topic 1
      [TopicRoute.mkParseError 2 "Unexpected token in JSON"] [Doubles.record]
  /\ MockRoute.GET noListItems Doubles.JSON_parse
       (Doubles.fetchText Doubles.brokenFile) (Some Doubles.index) random toISOString
       (Some "Kinematics") None None now
     = JS.Thrown "Unexpected token in JSON".
Proof. split; vm_compute; reflexivity. Qed.

(** ** The pool sampler *)

Section Sampler.
Import MockRoute.
Context {T : Type}.

Lemma swap_Permutation (a : list T) i j : swap a i j ≡ₚ a.
Proof.
  unfold swap.
  destruct (a !! i) as [x|] eqn:Hi; [|done].
  destruct (a !! j) as [y|] eqn:Hj; [|done].
  apply Permutation_inj. split; [by rewrite !length_insert|].
  exists (fun k => if decide (k = i) then j else if decide (k = j) then i else k).
  split.
  - intros k1 k2. repeat case_decide; intros; subst; congruence.
  - intros k. pose proof (lookup_lt_Some _ _ _ Hi). pose proof (lookup_lt_Some _ _ _ Hj).
    destruct (decide (k = j)) as [->|Hkj].
    + rewrite list_lookup_insert_eq by (by rewrite length_insert).
      repeat case_decide; congruence.
    + rewrite list_lookup_insert_ne by done.
      destruct (decide (k = i)) as [->|Hki].
      * rewrite list_lookup_insert_eq by done. repeat case_decide; congruence.
      * rewrite list_lookup_insert_ne by done. repeat case_decide; congruence.
Qed.

Lemma shuffleLoop_Permutation random i : forall k (a : list T),
  shuffleLoop random i k a ≡ₚ a.
Proof.
  induction i as [|i IH]; intros k a; cbn [shuffleLoop]; [done|].
  rewrite IH. apply swap_Permutation.
Qed.

Lemma randomIndex_lt r bound : (0 < bound)%nat -> (randomIndex r bound < bound)%nat.
Proof.
  intros Hb. unfold randomIndex.
  assert (r mod 2 ^ 53 < 2 ^ 53)%N as Hr by (apply N.mod_lt; done).
  assert ((r mod 2 ^ 53) * N.of_nat bound / 2 ^ 53 < N.of_nat bound)%N; [|lia].
  apply N.Div0.div_lt_upper_bound. nia.
Qed.

End Sampler.

Section SamplerTheorems.
Import MockRoute.

Lemma randomPick_twins {T} random (x : T) :
  randomPick random [x; x] (JS.Num 10) = [x; x].
Proof.
  unfold randomPick. cbn [length Nat.sub shuffleLoop].
  pose proof (randomIndex_lt (random 0%nat) (1 + 1) ltac:(lia)) as Hj.
  destruct (randomIndex (random 0%nat) (1 + 1)) as [|[|j]]; [..|lia]; reflexivity.
Qed.

(** X1: the sample is drawn without replacement. It has exactly
    [min(floor(maxQuestions), poolSize)] questions, which is at most
    [min(10, poolSize)]; it is a part of the pool (as a multiset); and its ids
    are distinct when those of the pool are. *)
Theorem randomPick_sample random (pool : list MockQuestion) requested :
  let sample := randomPick random pool (effectiveMaxQuestions requested) in
  (exists q, effectiveMaxQuestions requested = JS.Num q
             /\ Z.of_nat (length sample) = Qfloor q `min` Z.of_nat (length pool))
  /\ (length sample <= 10 `min` length pool)%nat
  /\ sample ⊆+ pool
  /\ (NoDup (id <$> pool) -> NoDup (id <$> sample)).
Proof.
  cbn zeta.
  pose proof (effectiveMaxQuestions_inRange requested) as Hr.
  unfold randomPick.
  set (a := shuffleLoop random (length pool - 1) 0 pool).
  assert (a ≡ₚ pool) as Hp by apply shuffleLoop_Permutation.
  destruct (effectiveMaxQuestions requested) as [| |q|]; try done.
  cbn in Hr.
  assert (0 <= Qfloor q <= 10)%Z as Hf.
  { split; [change 0%Z with (Qfloor 0)|change 10%Z with (Qfloor 10)];
      apply Qfloor_resp_le; lra. }
  assert (exists k, Z.of_nat k = Qfloor q `min` Z.of_nat (length a) /\
            sliceTo (JS.Math_min (JS.Num q) (JS.Num (inject_Z (Z.of_nat (length a))))) a
            = take k a) as (k & Hk & ->).
  { cbn. destruct (Qle_bool q _) eqn:E.
    - apply Qle_bool_iff in E.
      unfold sliceTo. rewrite (proj2 (Qle_bool_iff 0 q)) by lra.
      destruct (Z.ltb_spec (Qfloor q) 0); [lia|].
      exists (Z.to_nat (Qfloor q)). split; [|done].
      assert (Qfloor q <= Z.of_nat (length a))%Z; [|lia].
      rewrite <- (Qfloor_Z (Z.of_nat (length a))). by apply Qfloor_resp_le.
    - apply Qle_bool_false in E.
      unfold sliceTo. rewrite (proj2 (Qle_bool_iff 0 _)).
      2:{ change 0%Q with (inject_Z 0). rewrite <- Zle_Qle. lia. }
      rewrite Qfloor_Z.
      destruct (Z.ltb_spec (Z.of_nat (length a)) 0); [lia|].
      exists (length a). split; [|by rewrite Nat2Z.id].
      assert (Z.of_nat (length a) <= Qfloor q)%Z; [|lia].
      rewrite <- (Qfloor_Z (Z.of_nat (length a))). apply Qfloor_resp_le. lra. }
  rewrite (Permutation_length Hp) in Hk.
  assert (length (take k a) = k) as Hlen.
  { rewrite length_take, (Permutation_length Hp). lia. }
  split; [|split; [|split]].
  - exists q. split; [done|]. by rewrite Hlen.
  - rewrite Hlen. lia.
  - rewrite <- Hp. apply sublist_submseteq, sublist_take.
  - intros Hnd. rewrite fmap_take.
    apply (sublist_NoDup _ (id <$> a)); [by rewrite Hp|apply sublist_take].
Qed.
End SamplerTheorems.

Section DuplicateChapters.
Import MockRoute.

(** C6: a request that names the same chapter twice is answered with an
    exam that carries the same question, and so the same id, twice,
    whatever the random draws. *)
Theorem duplicate_chapter_duplicates_ids (random : nat -> N)
    (toISOString : JS.number -> string) (now : Z) :
  exists payload,
    GET noListItems Doubles.JSON_parse (Doubles.fetchText Doubles.recordLine)
      (Some Doubles.index) random toISOString
      (Some "Kinematics,Kinematics") None None now
    = JS.Returned (Share payload)
    /\ id <$> questions payload
       = ["Physics::Kinematics::kinematics.html::0";
          "Physics::Kinematics::kinematics.html::0"].
Proof.
  unfold GET.
  set (chapters := splitParamList _).
  assert (chapters = ["Kinematics"; "Kinematics"]) as -> by (vm_compute; reflexivity).
  cbn [length Nat.eqb].
  set (m := findSubjectsForChapters _ _).
  set (resolved := filter _ _).
  assert (resolved = ["Kinematics"; "Kinematics"]) as -> by (vm_compute; reflexivity).
  cbn [length Nat.eqb].
  set (pool := buildPool _ _ _ _ _).
  set (q := mkQuestion "Physics::Kinematics::kinematics.html::0" "Physics" "Kinematics"
              value "" "Find x." [] None (Some (mkSource "kinematics.html" None))).
  assert (pool = JS.Returned [q; q]) as -> by (vm_compute; reflexivity).
  cbn [length Nat.eqb].
  change (effectiveMaxQuestions None) with (JS.Num 10).
  rewrite randomPick_twins.
  eexists. split; [reflexivity|]. reflexivity.
Qed.
End DuplicateChapters.

(** * Further properties of the code *)

(** ** Chapter-name normalisation *)

Section Normalize.
Import MockRoute.

Lemma allAscii_spec (P : ascii -> bool) : allAscii P = true -> forall c, P c = true.
Proof.
  unfold allAscii. rewrite forallb_forall. intros H c.
  rewrite <- (ascii_nat_embedding c). apply H. apply in_seq.
  pose proof (nat_ascii_bounded c). lia.
Qed.

Lemma isGap_lowerChar c : isGap (JS.lowerChar c) = isGap c.
Proof.
  pose proof (allAscii_spec
    (fun c => Bool.eqb (isGap (JS.lowerChar c)) (isGap c))
    ltac:(vm_compute; reflexivity) c) as H.
  by apply eqb_prop in H.
Qed.

(** Collapsing separator runs and then whitespace runs collapses the runs
    of both kinds together. *)
Lemma collapse_twice s : forall b b',
  (b' = true -> b = true) ->
  JS.collapseRuns JS.isWhiteSpace b (JS.collapseRuns isSeparator b' s)
  = JS.collapseRuns isGap b s.
Proof.
  induction s as [|c s IH]; intros b b' Hb; [done|].
  cbn [JS.collapseRuns]. unfold isGap at 1.
  destruct (isSeparator c) eqn:Hsep; cbn [orb].
  - destruct b'.
    + rewrite (Hb eq_refl). by apply IH.
    + cbn [JS.collapseRuns]. change (JS.isWhiteSpace " ") with true. cbn iota.
      rewrite (IH true true) by done. by destruct b.
  - cbn [JS.collapseRuns].
    destruct (JS.isWhiteSpace c) eqn:Hws.
    + rewrite (IH true false) by done. by destruct b.
    + by rewrite (IH false false).
Qed.

Lemma normalize_collapses_gaps s :
  normalize s = JS.collapseRuns isGap false (JS.toLowerCase (JS.trim s)).
Proof. unfold normalize. by apply collapse_twice. Qed.

Lemma collapse_same s t : forall b,
  Forall2 sameChar (JS.chars s) (JS.chars t) ->
  JS.collapseRuns isGap b (JS.toLowerCase s) = JS.collapseRuns isGap b (JS.toLowerCase t).
Proof.
  revert t. induction s as [|a s IH]; intros [|c t] b H;
    unfold JS.chars in H; cbn [list_ascii_of_string] in H;
    try (by inversion H).
  apply Forall2_cons_1 in H as [Hac H]. cbn [JS.toLowerCase JS.collapseRuns].
  rewrite !isGap_lowerChar.
  destruct Hac as [Hlow|[Ha Hc]].
  - assert (isGap a = isGap c) as ->.
    { by rewrite <- (isGap_lowerChar a), <- (isGap_lowerChar c), Hlow. }
    rewrite Hlow. destruct (isGap c), b; by rewrite ?(IH t _ H).
  - rewrite Ha, Hc. destruct b; by rewrite (IH t _ H).
Qed.

(** X4: names that, once trimmed, agree character by character up to the
    case of letters and up to which separator or whitespace character is
    written have the same normal form, so they match the same topics. *)
Theorem normalize_ignores_case_and_separators s t :
  Forall2 sameChar (JS.chars (JS.trim s)) (JS.chars (JS.trim t)) ->
  normalize s = normalize t.
Proof. intros H. rewrite !normalize_collapses_gaps. by apply collapse_same. Qed.

Lemma normalize_ignores_case_and_separators_witness :
  normalize "Motion-in-a-Plane" = normalize "  MOTION_IN A_PLANE ".
Proof.
  apply normalize_ignores_case_and_separators.
  vm_compute. repeat (apply List.Forall2_cons; [first [by left | by right]|]).
  apply List.Forall2_nil.
Defined.

Lemma collapse_normal_form s : forall b,
  Forall (fun c => JS.lowerChar c = c /\ isSeparator c = false
                   /\ (JS.isWhiteSpace c = true -> c = " "%char))
    (JS.chars (JS.collapseRuns isGap b (JS.toLowerCase s)))
  /\ singleSpaced (JS.chars (JS.collapseRuns isGap b (JS.toLowerCase s)))
  /\ (b = true -> head (JS.chars (JS.collapseRuns isGap b (JS.toLowerCase s)))
                  <> Some " "%char).
Proof.
  induction s as [|c s IH]; intros b; cbn [JS.toLowerCase JS.collapseRuns].
  - cbn. repeat split; [apply List.Forall_nil|done].
  - rewrite isGap_lowerChar.
    destruct (isGap c) eqn:Hg.
    + destruct (IH true) as (H1 & H2 & H3). destruct b.
      * repeat split; done.
      * change (JS.chars (String " " ?x)) with (" "%char :: JS.chars x).
        repeat split; [apply List.Forall_cons; [by vm_compute|done]| |done].
        cbn. destruct (JS.chars _) as [|d l]; [done|].
        split; [|done]. intros _ ->. by apply (H3 eq_refl).
    + destruct (IH false) as (H1 & H2 & _).
      change (JS.chars (String ?a ?x)) with (a :: JS.chars x).
      assert (JS.lowerChar (JS.lowerChar c) = JS.lowerChar c
              /\ isSeparator (JS.lowerChar c) = false
              /\ JS.isWhiteSpace (JS.lowerChar c) = false) as (Hl & Hs & Hw).
      { rewrite <- (isGap_lowerChar c) in Hg. unfold isGap in Hg.
        apply orb_false_elim in Hg as [-> ->]. split; [|done].
        pose proof (allAscii_spec
          (fun c => Ascii.eqb (JS.lowerChar (JS.lowerChar c)) (JS.lowerChar c))
          ltac:(vm_compute; reflexivity) c) as H.
        by apply Ascii.eqb_eq in H. }
      repeat split.
      * apply List.Forall_cons; [|done]. repeat split; [done..|]. congruence.
      * cbn. destruct (JS.chars _) as [|d l]; [done|].
        split; [|done]. intros E. rewrite E in Hw. by vm_compute in Hw.
      * intros _. cbn. intros [= E]. rewrite E in Hw. by vm_compute in Hw.
Qed.

(** X5: a normal form holds no upper-case letter, no hyphen or underscore
    and no whitespace but single spaces. *)
Theorem normalize_normal_form s :
  Forall (fun c => JS.lowerChar c = c /\ isSeparator c = false
                   /\ (JS.isWhiteSpace c = true -> c = " "%char))
    (JS.chars (normalize s))
  /\ singleSpaced (JS.chars (normalize s)).
Proof.
  rewrite normalize_collapses_gaps.
  destruct (collapse_normal_form (JS.trim s) false) as (H1 & H2 & _). done.
Qed.
End Normalize.

(** ** The chapter list of a request *)

Section ParamList.
Import MockRoute.

Lemma cons_chars a s : JS.chars (String a s) = a :: JS.chars s.
Proof. done. Qed.

Lemma unescapeCommas_id s :
  Forall (fun c => c <> "%"%char) (JS.chars s) -> unescapeCommas s = s.
Proof.
  induction s as [|c s IH]; [done|]. rewrite cons_chars. intros H.
  apply Forall_cons_1 in H as [Hc H].
  cbn [unescapeCommas].
  assert (Ascii.eqb c "%" = false) as E by by apply Ascii.eqb_neq.
  rewrite E. cbn [andb]. destruct s as [|c1 [|c2 s']]; by rewrite (IH H).
Qed.

Lemma split_cons sep c s :
  JS.split sep (String c s) =
  if Ascii.eqb c sep then EmptyString :: JS.split sep s
  else match JS.split sep s with
       | l :: ls => String c l :: ls
       | [] => [String c EmptyString]
       end.
Proof. done. Qed.

Lemma split_free sep x :
  Forall (fun c => c <> sep) (JS.chars x) -> JS.split sep x = [x].
Proof.
  induction x as [|c x IH]; [done|]. rewrite cons_chars. intros H.
  apply Forall_cons_1 in H as [Hc H].
  rewrite split_cons, (proj2 (Ascii.eqb_neq c sep) Hc), (IH H). done.
Qed.

Lemma split_app sep x rest :
  Forall (fun c => c <> sep) (JS.chars x) ->
  JS.split sep (String.append x (String sep rest)) = x :: JS.split sep rest.
Proof.
  induction x as [|c x IH]; intros H.
  - simpl. by rewrite Ascii.eqb_refl.
  - rewrite cons_chars in H. apply Forall_cons_1 in H as [Hc H].
    simpl.
    rewrite (proj2 (Ascii.eqb_neq c sep) Hc), (IH H). done.
Qed.

Lemma split_concat sep names :
  names <> [] ->
  Forall (fun x => Forall (fun c => c <> sep) (JS.chars x)) names ->
  JS.split sep (String.concat (String sep EmptyString) names) = names.
Proof.
  induction names as [|x [|y names] IH]; intros Hne H; [done| |].
  - apply Forall_cons_1 in H as [Hx _]. cbn. by apply split_free.
  - apply Forall_cons_1 in H as [Hx H].
    change (String.concat (String sep EmptyString) (x :: y :: names))
      with (String.append x (String sep (String.concat (String sep EmptyString) (y :: names)))).
    rewrite (split_app _ _ _ Hx), IH; done.
Qed.

Lemma concat_chars sep names (P : ascii -> Prop) :
  P sep -> Forall (fun x => Forall P (JS.chars x)) names ->
  Forall P (JS.chars (String.concat (String sep EmptyString) names)).
Proof.
  intros Hsep. induction names as [|x [|y names] IH]; intros H.
  - apply List.Forall_nil.
  - by apply Forall_cons_1 in H as [Hx _].
  - apply Forall_cons_1 in H as [Hx H].
    change (String.concat (String sep EmptyString) (x :: y :: names))
      with (String.append x (String sep (String.concat (String sep EmptyString) (y :: names)))).
    rewrite chars_append, cons_chars. apply Forall_app. split; [done|].
    apply List.Forall_cons; [done|]. by apply IH.
Qed.

Lemma split_joined names :
  Forall cleanName names ->
  splitParamList (String.concat "," names) = names.
Proof.
  intros H. unfold splitParamList.
  rewrite unescapeCommas_id.
  2:{ apply (concat_chars "," names (fun c => c <> "%"%char)); [done|].
      eapply List.Forall_impl; [|exact H]. intros x (_ & _ & Hx).
      eapply List.Forall_impl; [|exact Hx]. by intros c [_ ?]. }
  destruct names as [|x names]; [done|].
  rewrite split_concat; [|done|].
  2:{ eapply List.Forall_impl; [|exact H]. intros y (_ & _ & Hy).
      eapply List.Forall_impl; [|exact Hy]. by intros c [? _]. }
  assert (JS.trim <$> (x :: names) = x :: names) as ->.
  { clear -H. induction H as [|y l (_ & Hy & _) _ IH]; [done|].
    by rewrite fmap_cons, Hy, IH. }
  apply filter_all. eapply List.Forall_impl; [|exact H].
  intros y (Hy & _). by destruct y.
Qed.

(** X6: a list of clean names joined with commas is split back into the
    same list: nothing is lost, merged or reordered. *)
Theorem splitParamList_join names :
  Forall cleanName names ->
  splitParamList (String.concat "," names) = names.
Proof. apply split_joined. Qed.

Lemma splitParamList_join_witness :
  splitParamList (String.concat "," ["Kinematics"; "Laws of Motion"; "3d-geometry"])
  = ["Kinematics"; "Laws of Motion"; "3d-geometry"].
Proof.
  apply splitParamList_join.
  repeat (apply List.Forall_cons;
          [repeat split; [done|];
           vm_compute; repeat (apply List.Forall_cons; [done|]); apply List.Forall_nil|]).
  apply List.Forall_nil.
Defined.

Lemma split_pieces sep s :
  Forall (fun x => Forall (fun c => c <> sep) (JS.chars x)) (JS.split sep s).
Proof.
  induction s as [|c s IH]; [by repeat constructor|].
  rewrite split_cons. destruct (Ascii.eqb c sep) eqn:E.
  - apply List.Forall_cons; [apply List.Forall_nil|done].
  - apply Ascii.eqb_neq in E. destruct (JS.split sep s) as [|l ls].
    + by repeat constructor.
    + apply Forall_cons_1 in IH as [Hl Hls].
      apply List.Forall_cons; [|done]. rewrite cons_chars. by apply List.Forall_cons.
Qed.

Lemma trimStart_chars (P : ascii -> Prop) s :
  Forall P (JS.chars s) -> Forall P (JS.chars (JS.trimStart s)).
Proof.
  induction s as [|c s IH]; [done|]. intros H. simpl.
  destruct (JS.isWhiteSpace c); [|done].
  rewrite cons_chars in H. apply Forall_cons_1 in H as [_ H]. by apply IH.
Qed.

Lemma trimEnd_chars (P : ascii -> Prop) s :
  Forall P (JS.chars s) -> Forall P (JS.chars (JS.trimEnd s)).
Proof.
  induction s as [|c s IH]; [done|]. intros H.
  rewrite cons_chars in H. apply Forall_cons_1 in H as [Hc H].
  simpl. destruct (JS.trimEnd s) as [|d t].
  - destruct (JS.isWhiteSpace c); [apply List.Forall_nil|by repeat constructor].
  - rewrite cons_chars. apply List.Forall_cons; [done|]. by apply IH.
Qed.

(** X7: every name the route takes from the chapter parameter is non-empty,
    carries no surrounding whitespace and holds no comma, whatever the
    parameter text is. *)
Theorem splitParamList_wellformed raw :
  Forall (fun x => x <> EmptyString /\ JS.trim x = x
                   /\ Forall (fun c => c <> ","%char) (JS.chars x))
         (splitParamList raw).
Proof.
  unfold splitParamList. apply list.Forall_forall. intros x Hx.
  apply list_elem_of_filter in Hx as [Ht Hx].
  apply list_elem_of_fmap in Hx as (y & -> & Hy).
  split; [by destruct (JS.trim y)|]. split; [apply trim_idem|].
  unfold JS.trim. apply trimEnd_chars, trimStart_chars.
  pose proof (split_pieces "," (unescapeCommas raw)) as H.
  rewrite list.Forall_forall in H. by apply H.
Qed.
End ParamList.

(** ** The topic picker *)

Section Picker.
Import MockRoute TopicsClient.

Lemma add_NoDup t set : NoDup set -> NoDup (add t set).
Proof.
  intros H. unfold add. case_bool_decide; [done|].
  apply list.NoDup_app. split; [done|]. split; [|apply NoDup_singleton].
  intros x Hx ->%list_elem_of_singleton. done.
Qed.

Lemma add_elem x t set : x ∈ add t set -> x = t \/ x ∈ set.
Proof.
  unfold add. case_bool_decide; [by right|].
  intros [?| ->%list_elem_of_singleton]%elem_of_app; [by right|by left].
Qed.

Lemma selectAll_from ts : forall set,
  NoDup set ->
  NoDup (fold_left (fun set t => add t set) ts set)
  /\ forall x, x ∈ fold_left (fun set t => add t set) ts set -> x ∈ set \/ x ∈ ts.
Proof.
  induction ts as [|t ts IH]; intros set H; simpl.
  - split; [done|]. by left.
  - destruct (IH (add t set) (add_NoDup t set H)) as [IH1 IH2]. split; [done|].
    intros x Hx. destruct (IH2 x Hx) as [Hx'|Hx'].
    + apply add_elem in Hx' as [->|?]; [right; left|by left].
    + right. by right.
Qed.

Lemma act_selection a selected :
  NoDup selected ->
  NoDup (act selected a)
  /\ forall x, x ∈ act selected a -> x ∈ selected \/ x ∈ named a.
Proof.
  intros H. destruct a as [t|ts|]; simpl.
  - unfold toggleTopic. case_bool_decide.
    + split; [by apply list.NoDup_filter|].
      intros x [_ ?]%list_elem_of_filter. by left.
    + split; [by apply add_NoDup|].
      intros x [->|?]%add_elem; [right; left|by left].
  - destruct (selectAll_from ts [] (NoDup_nil_2)) as [H1 H2]. split; [done|].
    intros x Hx. destruct (H2 x Hx) as [Hn|?]; [by apply elem_of_nil in Hn|by right].
  - split; [apply NoDup_nil_2|]. by intros x Hx%elem_of_nil.
Qed.

Lemma run_selection actions : forall selected,
  NoDup selected ->
  NoDup (fold_left act actions selected)
  /\ forall x, x ∈ fold_left act actions selected ->
       x ∈ selected \/ exists a, a ∈ actions /\ x ∈ named a.
Proof.
  induction actions as [|a actions IH]; intros selected H; simpl.
  - split; [done|]. by left.
  - destruct (act_selection a selected H) as [H1 H2].
    destruct (IH _ H1) as [IH1 IH2]. split; [done|].
    intros x Hx. destruct (IH2 x Hx) as [Hx'|(b & Hb & Hx')].
    + destruct (H2 x Hx') as [?|?]; [by left|]. right. exists a. split; [left|done].
    + right. exists b. split; [by right|done].
Qed.

(** X8: whatever the user does in the topic picker, starting from the empty
    selection, the request that [createMock] sends names exactly the selected
    topics, each of them once, provided the topic names are clean: the route
    splits the parameter back into the selection, without duplicates. A
    request is sent only for a selection that is not empty, and not while
    another one is being made. *)
Theorem picker_requests_each_topic_once (actions : list Action) (creating : bool) raw :
  Forall (fun a => Forall cleanName (named a)) actions ->
  createMock (fold_left act actions []) creating = Some raw ->
  splitParamList raw = fold_left act actions []
  /\ NoDup (splitParamList raw) /\ splitParamList raw <> [] /\ creating = false.
Proof.
  intros Hclean Hraw.
  destruct (run_selection actions [] NoDup_nil_2) as [Hnd Hin].
  set (selected := fold_left act actions []) in *.
  unfold createMock in Hraw.
  destruct (length selected =? 0)%nat eqn:E; [done|].
  destruct creating; [done|]. simpl in Hraw. injection Hraw as <-.
  assert (splitParamList (String.concat "," selected) = selected) as ->.
  { apply split_joined. apply list.Forall_forall. intros x Hx.
    destruct (Hin x Hx) as [Hn|(a & Ha & Hxa)]; [by apply elem_of_nil in Hn|].
    rewrite list.Forall_forall in Hclean. specialize (Hclean a Ha).
    rewrite list.Forall_forall in Hclean. by apply Hclean. }
  split; [done|]. split; [done|]. split; [|done]. intros Hs. by rewrite Hs in E.
Qed.

Lemma picker_requests_each_topic_once_witness :
  let actions := [Toggle "kinematics"; SelectAll ["gravitation"; "kinematics"];
                  Toggle "gravitation"; Toggle "optics"; Toggle "optics";
                  Toggle "work-energy"] in
  splitParamList "kinematics,work-energy" = fold_left act actions []
  /\ NoDup (splitParamList "kinematics,work-energy")
  /\ splitParamList "kinematics,work-energy" <> [] /\ false = false.
Proof.
  apply (picker_requests_each_topic_once _ false).
  - repeat (apply List.Forall_cons;
            [repeat (apply List.Forall_cons;
              [repeat split; [done|];
               vm_compute; repeat (apply List.Forall_cons; [done|]); apply List.Forall_nil|]);
             apply List.Forall_nil|]).
    apply List.Forall_nil.
  - vm_compute. reflexivity.
Defined.
End Picker.


(** ** The token alphabet *)

Section TokenAlphabet.
Import JS MockRoute MockClient.

Lemma sextets_length buf : length (sextets buf) = ((4 * length buf + 2) / 3)%nat.
Proof.
  induction buf as [| a | a b | a b c l IH] using list_ind3; try done.
  cbn [sextets]. rewrite length_app, IH. cbn [length].
  replace (4 * S (S (S (length l))) + 2)%nat with ((4 * length l + 2) + 4 * 3)%nat by lia.
  rewrite Nat.div_add by done. lia.
Qed.

Lemma urlChar_safe n : isSextet n -> isUrlSafe (urlChar n) = true.
Proof.
  intros H. apply (sextet_cases (fun n => isUrlSafe (urlChar n))); [|exact H].
  vm_compute. reflexivity.
Qed.

(** X9: a token is made of letters, digits, hyphens and underscores only, so
    the share URL carries it without escaping, and it has
    ceil(4n/3) characters for a compressed payload of n bytes. *)
Theorem token_is_url_safe buf :
  Forall (fun c => isUrlSafe c = true) (chars (base64urlFromBuffer buf))
  /\ String.length (base64urlFromBuffer buf) = ((4 * length buf + 2) / 3)%nat.
Proof.
  rewrite <- length_chars, base64urlFromBuffer_chars, chars_str, length_fmap.
  split; [|apply sextets_length].
  apply Forall_fmap. eapply List.Forall_impl; [|apply sextets_bound].
  intros n Hn. by apply urlChar_safe.
Qed.

Lemma unreplace_chars t :
  chars (replaceAll "_" "/" (replaceAll "-" "+" t)) = unUrlChar <$> chars t.
Proof.
  unfold replaceAll. rewrite !chars_str, <- list_fmap_compose. done.
Qed.

Lemma dropLastIf_Forall (P : ascii -> Prop) c l :
  Forall P (dropLastIf c l) -> Forall (fun x => P x \/ x = c) l.
Proof.
  unfold dropLastIf. destruct (rev l) as [|x r] eqn:E.
  - intros H. eapply List.Forall_impl; [|exact H]. by left.
  - destruct (Ascii.eqb_spec x c) as [->|_].
    + intros H. rewrite <- (rev_involutive l), E. simpl.
      apply Forall_app. split.
      * eapply List.Forall_impl; [|exact H]. by left.
      * apply List.Forall_cons; [by right|apply List.Forall_nil].
    + intros H. eapply List.Forall_impl; [|exact H]. by left.
Qed.

Lemma dropPadding_Forall (P : ascii -> Prop) l :
  Forall P (dropPadding l) -> Forall (fun x => P x \/ x = "="%char) l.
Proof.
  unfold dropPadding. destruct (length l mod 4 =? 0)%nat.
  - intros H%dropLastIf_Forall%dropLastIf_Forall.
    eapply List.Forall_impl; [|exact H]. intros x [[?|?]|?]; auto.
  - intros H. eapply List.Forall_impl; [|exact H]. by left.
Qed.

Lemma atob_chars s r :
  atob s = Some r ->
  Forall (fun c => is_Some (charSextet c) \/ c = "="%char \/ isAsciiWhitespace c = true)
         (chars s).
Proof.
  unfold atob. set (l := dropPadding _).
  destruct (length l mod 4 =? 1)%nat; [done|].
  destruct (mapM charSextet l) as [sx|] eqn:E; [|done]. intros _.
  apply mapM_Some in E.
  assert (Forall (fun c => is_Some (charSextet c)) l) as H.
  { clear -E. induction E as [|c n l sx Hc _ IH]; [apply List.Forall_nil|].
    apply List.Forall_cons; [by exists n|done]. }
  apply dropPadding_Forall in H. rewrite list.Forall_forall in H.
  apply list.Forall_forall. intros c Hc.
  destruct (isAsciiWhitespace c) eqn:W; [by right; right|].
  destruct (H c) as [?|?]; [|by left|by right; left].
  apply list_elem_of_filter. done.
Qed.

Lemma decode_chars t bytes :
  base64urlToUint8Array t = Some bytes ->
  Forall (fun c => isTokenChar c = true) (chars t).
Proof.
  unfold base64urlToUint8Array.
  destruct (atob _) as [r|] eqn:E; [|done]. intros _.
  apply atob_chars in E. rewrite chars_append, unreplace_chars in E.
  apply Forall_app in E as [E _]. apply Forall_fmap in E.
  eapply List.Forall_impl; [|exact E]. intros c Hc. cbn beta in Hc.
  unfold compose in Hc.
  pose proof (allAscii_spec
    (fun c => implb (match charSextet (unUrlChar c) with Some _ => true | None => false end
                     || Ascii.eqb (unUrlChar c) "=" || isAsciiWhitespace (unUrlChar c))
                    (isTokenChar c))
    ltac:(vm_compute; reflexivity) c) as H.
  cbn beta in H. destruct Hc as [[n Hn]|[Hc|Hc]].
  - by rewrite Hn in H.
  - rewrite Hc in H. rewrite Ascii.eqb_refl, orb_true_r in H. done.
  - rewrite Hc, orb_true_r in H. done.
Qed.

(** X10: the token decoder rejects every text that holds a character other
    than letters, digits, [-], [_], [+], [/], [=] and ASCII whitespace: no
    such text is silently read as a payload. *)
Theorem decode_rejects_foreign_characters t c :
  c ∈ chars t -> isTokenChar c = false -> base64urlToUint8Array t = None.
Proof.
  intros Hc Hf. destruct (base64urlToUint8Array t) as [bytes|] eqn:E; [|done].
  apply decode_chars in E. rewrite list.Forall_forall in E.
  specialize (E c Hc). congruence.
Qed.

Lemma decode_rejects_foreign_characters_witness :
  base64urlToUint8Array "H4sI%2FAAA" = None.
Proof.
  apply (decode_rejects_foreign_characters _ "%"%char); [|done].
  vm_compute. do 4 right. left.
Defined.
End TokenAlphabet.


(** ** Which URL-safe texts decode *)

Section TokenLength.
Import JS MockRoute MockClient.

Lemma list_ind4 {A} (P : list A -> Prop) :
  P [] -> (forall a, P [a]) -> (forall a b, P [a; b]) -> (forall a b c, P [a; b; c]) ->
  (forall a b c d l, P l -> P (a :: b :: c :: d :: l)) -> forall l, P l.
Proof.
  intros H0 H1 H2 H3 H4. fix IH 1.
  intros [|a [|b [|c [|d l]]]];
    [exact H0 | apply H1 | apply H2 | apply H3 | apply H4, IH].
Qed.

Lemma unsextets_length sx : length (unsextets sx) = (3 * length sx / 4)%nat.
Proof.
  induction sx as [| a | a b | a b c | a b c d l IH] using list_ind4; try done.
  cbn [unsextets]. rewrite length_app, IH. cbn [length].
  replace (3 * S (S (S (S (length l)))))%nat with (3 * length l + 3 * 4)%nat by lia.
  rewrite Nat.div_add by done. lia.
Qed.

Lemma mod4_cases n : exists q r, (n = r + q * 4 /\ r < 4)%nat.
Proof.
  exists (n / 4)%nat, (n mod 4)%nat. split.
  - pose proof (Nat.div_mod_eq n 4). lia.
  - by apply Nat.mod_upper_bound.
Qed.

Lemma atob_repadded R sx :
  mapM charSextet R = Some sx ->
  Forall (fun c => Ascii.eqb c "=" = false) R ->
  Forall (fun c => isAsciiWhitespace c = false) R ->
  atob (str (R ++ drop ((length R + 3) mod 4) ["="; "="; "="]%char))
  = if (length R mod 4 =? 1)%nat then None
    else Some (string_of_list_byte (unsextets sx)).
Proof.
  intros Hsx Heq Hws. unfold atob. rewrite chars_str.
  destruct (mod4_cases (length R)) as (q & r & Hn & Hr).
  replace (length R + 3)%nat with ((r + 3) + q * 4)%nat by lia.
  rewrite Hn, !Nat.Div0.mod_add.
  assert (forall P, Forall (fun c => isAsciiWhitespace c = false) (R ++ P) ->
            filter (fun c => isAsciiWhitespace c = false) (R ++ P) = R ++ P) as Hf
    by (intros P; apply filter_all).
  assert (forall P, (length (R ++ P) mod 4 = (r + length P) mod 4)%nat) as Hl.
  { intros P. rewrite length_app, Hn.
    replace (r + q * 4 + length P)%nat with ((r + length P) + q * 4)%nat by lia.
    by rewrite Nat.Div0.mod_add. }
  assert (length R mod 4 = r mod 4)%nat as HR by (by rewrite Hn, Nat.Div0.mod_add).
  assert (forall P, mapM charSextet (R ++ "="%char :: P) = None) as Hpad.
  { intros P. destruct (mapM charSextet (R ++ "="%char :: P)) as [k|] eqn:E; [|done].
    assert (is_Some (mapM charSextet (R ++ "="%char :: P))) as Hs by by exists k.
    apply mapM_is_Some, Forall_app in Hs as [_ Hs].
    apply Forall_cons_1 in Hs as [[? Hs] _]. done. }
  unfold dropPadding.
  destruct r as [|[|[|[|r]]]]; [| | | |lia].
  - change ((0 + 3) mod 4)%nat with 3%nat. cbn [drop].
    rewrite Hf by (by rewrite app_nil_r). rewrite Hl.
    change ((0 + length []) mod 4 =? 0)%nat with true. cbv iota.
    rewrite app_nil_r, !(dropLastIf_clean _ _ Heq), HR, Hsx. done.
  - change ((1 + 3) mod 4)%nat with 0%nat. cbn [drop].
    rewrite Hf by (apply Forall_app; split; [done|by repeat constructor]).
    rewrite Hl. change ((1 + length ["="; "="; "="]%char) mod 4 =? 0)%nat with true.
    cbv iota.
    change (R ++ ["="; "="; "="]%char) with (R ++ ["="] ++ ["="] ++ ["="])%char.
    rewrite !app_assoc, !dropLastIf_snoc, Hpad.
    by destruct (_ =? _)%nat.
  - change ((2 + 3) mod 4)%nat with 1%nat. cbn [drop].
    rewrite Hf by (apply Forall_app; split; [done|by repeat constructor]).
    rewrite Hl. change ((2 + length ["="; "="]%char) mod 4 =? 0)%nat with true.
    cbv iota.
    change (R ++ ["="; "="]%char) with (R ++ ["="] ++ ["="])%char.
    rewrite !app_assoc, !dropLastIf_snoc, HR, Hsx. done.
  - change ((3 + 3) mod 4)%nat with 2%nat. cbn [drop].
    rewrite Hf by (apply Forall_app; split; [done|by repeat constructor]).
    rewrite Hl. change ((3 + length ["="]%char) mod 4 =? 0)%nat with true.
    cbv iota.
    rewrite dropLastIf_snoc, (dropLastIf_clean _ _ Heq), HR, Hsx. done.
Qed.

Lemma unUrlChar_safe c :
  isUrlSafe c = true ->
  is_Some (charSextet (unUrlChar c)) /\ Ascii.eqb (unUrlChar c) "=" = false
  /\ isAsciiWhitespace (unUrlChar c) = false.
Proof.
  intros Hc.
  pose proof (allAscii_spec
    (fun c => implb (isUrlSafe c)
      (match charSextet (unUrlChar c) with Some _ => true | None => false end
       && negb (Ascii.eqb (unUrlChar c) "=") && negb (isAsciiWhitespace (unUrlChar c))))
    ltac:(vm_compute; reflexivity) c) as H.
  cbn beta in H. rewrite Hc in H. cbn [implb] in H.
  apply andb_prop in H as [[H1 H2]%andb_prop H3].
  apply negb_true_iff in H2, H3. split; [|done].
  destruct (charSextet (unUrlChar c)) as [n|]; [by exists n|done].
Qed.

(** X11: a text of URL-safe characters decodes exactly when its length is not
    1 modulo 4, and then to floor(3n/4) bytes for n characters: of the
    truncations of a share link, the decoder itself refuses one in four. *)
Theorem decode_by_length t :
  Forall (fun c => isUrlSafe c = true) (chars t) ->
  if (String.length t mod 4 =? 1)%nat then base64urlToUint8Array t = None
  else exists bytes, base64urlToUint8Array t = Some bytes
                     /\ length bytes = (3 * String.length t / 4)%nat.
Proof.
  intros Hsafe. unfold base64urlToUint8Array.
  set (R := unUrlChar <$> chars t).
  assert (length R = String.length t) as HR
    by (unfold R; by rewrite length_fmap, length_chars).
  assert (Forall (fun c => is_Some (charSextet c) /\ Ascii.eqb c "=" = false
                           /\ isAsciiWhitespace c = false) R) as H.
  { apply Forall_fmap. eapply List.Forall_impl; [|exact Hsafe].
    intros c Hc. by apply unUrlChar_safe. }
  assert (is_Some (mapM charSextet R)) as [sx Hsx].
  { apply mapM_is_Some. eapply List.Forall_impl; [|exact H]. by intros c [? _]. }
  replace (String.append _ _)
    with (str (R ++ drop ((length R + 3) mod 4) ["="; "="; "="]%char)).
  2:{ rewrite <- (str_chars (String.append _ _)), chars_append, unreplace_chars.
      unfold sliceFrom. by rewrite chars_str, HR. }
  rewrite (atob_repadded R sx Hsx).
  - rewrite HR. destruct (String.length t mod 4 =? 1)%nat; [done|].
    eexists. split; [cbn; by rewrite list_byte_of_string_of_list_byte|].
    rewrite unsextets_length. apply length_mapM in Hsx. by rewrite <- Hsx, HR.
  - eapply List.Forall_impl; [|exact H]. by intros c (_ & ? & _).
  - eapply List.Forall_impl; [|exact H]. by intros c (_ & _ & ?).
Qed.

Lemma decode_by_length_witness :
  base64urlToUint8Array "H4sIA" = None.
Proof.
  apply (decode_by_length "H4sIA").
  vm_compute. repeat (apply List.Forall_cons; [done|]). apply List.Forall_nil.
Defined.
End TokenLength.


(** ** The summary of a result *)

Section Summary.
Import MockClient.

Lemma countVerdict_snoc v rows r :
  countVerdict v (rows ++ [r]) = countVerdict v rows + (if hasVerdict v r then 1 else 0).
Proof.
  unfold countVerdict. rewrite List.filter_app, length_app. cbn [List.filter].
  destruct (hasVerdict v r); cbn [length]; lia.
Qed.

Lemma totalMarks_snoc rows r : totalMarks (rows ++ [r]) = totalMarks rows + marks r.
Proof.
  unfold totalMarks. induction rows as [|x rows IH]; cbn [foldr app]; [lia|].
  rewrite IH. lia.
Qed.

Lemma scoreQuestion_tallied answers acc i q :
  tallied acc -> tallied (scoreQuestion answers acc i q).
Proof.
  intros (Hc & Hw & Hu & Ha & Hm). unfold scoreQuestion, tallied.
  destruct (negb _); [|destruct (_ && _)];
    cbn [c_correct c_wrong c_unattempted c_attempted c_breakdown];
    rewrite !countVerdict_snoc, totalMarks_snoc;
    cbn [hasVerdict verdict marks]; unfold MARKS_CORRECT, MARKS_WRONG in *; lia.
Qed.

Lemma scoreLoop_tallied answers qs : forall i acc,
  tallied acc -> tallied (scoreLoop answers i qs acc).
Proof.
  induction qs as [|q qs IH]; intros i acc H; cbn [scoreLoop]; [done|].
  by apply IH, scoreQuestion_tallied.
Qed.

(** X12: the summary of a result agrees with its breakdown: the counts of
    correct, wrong and unattempted questions are the numbers of rows with
    that verdict, the attempted ones are the correct and the wrong ones, and
    the net marks are the sum of the marks of the rows. *)
Theorem summary_agrees_with_breakdown mock answers :
  let r := computeResult mock answers in
  r_correct r = countVerdict correct (breakdown r)
  /\ r_wrong r = countVerdict wrong (breakdown r)
  /\ r_unattempted r = countVerdict unattempted (breakdown r)
  /\ r_attempted r = countVerdict correct (breakdown r) + countVerdict wrong (breakdown r)
  /\ netMarks r = totalMarks (breakdown r).
Proof.
  assert (tallied (scoreLoop answers 0 (questions mock) (mkCounters 0 0 0 0 [])))
    as (Hc & Hw & Hu & Ha & Hm) by by apply scoreLoop_tallied.
  unfold computeResult.
  cbn [r_correct r_wrong r_unattempted r_attempted netMarks breakdown].
  repeat split; congruence.
Qed.

Lemma Math_round_ge (x : Q) (lo : Z) : (inject_Z lo <= x)%Q -> lo <= JS.Math_round x.
Proof.
  intros Hlo. unfold JS.Math_round.
  rewrite <- (Qfloor_Z lo). apply Qfloor_resp_le. lra.
Qed.

Lemma Math_round_le (x : Q) (hi : Z) : (x <= inject_Z hi)%Q -> JS.Math_round x <= hi.
Proof.
  intros Hhi. unfold JS.Math_round.
  pose proof (Qfloor_le (x + (1 # 2))) as H.
  destruct (Z_le_gt_dec (Qfloor (x + (1 # 2))) hi) as [|Hgt]; [done|].
  assert (hi + 1 <= Qfloor (x + (1 # 2))) as Hge by lia.
  rewrite Zle_Qle, inject_Z_plus in Hge.
  change (inject_Z 1) with 1%Q in Hge. lra.
Qed.

Lemma ratio_lower (a b : Z) : 0 <= a -> 0 < b -> (0 <= inject_Z a / inject_Z b)%Q.
Proof.
  intros Ha Hb. rewrite Zlt_Qlt in Hb. rewrite Zle_Qle in Ha.
  change (inject_Z 0) with 0%Q in *.
  apply Qle_shift_div_l; [done|]. lra.
Qed.

Lemma ratio_upper (a b : Z) : a <= b -> 0 < b -> (inject_Z a / inject_Z b <= 1)%Q.
Proof.
  intros Hab Hb. rewrite Zlt_Qlt in Hb. rewrite Zle_Qle in Hab.
  change (inject_Z 0) with 0%Q in *.
  apply Qle_shift_div_r; [done|]. lra.
Qed.

Lemma tenth_nonneg (k : Z) : (0 <= inject_Z k / 10)%Q -> 0 <= k.
Proof.
  intros H. destruct (Z_le_gt_dec 0 k) as [|Hneg]; [done|].
  assert (k <= -1) as Hk by lia. rewrite Zle_Qle in Hk.
  assert (inject_Z k / 10 <= inject_Z (-1) / 10)%Q as Hd
    by (by apply Qmult_le_compat_r).
  assert (inject_Z (-1) / 10 < 0)%Q by done. lra.
Qed.

(** X13: both percentages of a result are whole tenths between 0 and 100,
    for every payload and every answer map. *)
Theorem percentages_are_tenths_in_range mock answers :
  let r := computeResult mock answers in
  (exists k, 0 <= k <= 1000 /\ (accuracyPercent r == inject_Z k / 10)%Q)
  /\ (exists k, 0 <= k <= 1000 /\ (scorePercent r == inject_Z k / 10)%Q).
Proof.
  unfold computeResult; cbn zeta; cbn [accuracyPercent scorePercent].
  destruct (scoreLoop_spec answers (questions mock) 0%nat (mkCounters 0 0 0 0 []))
    as (rows & _ & _ & _ & _ & Ha & Hc & Hc0 & Hw0 & Hu0).
  cbn [c_attempted c_unattempted c_correct c_wrong c_breakdown] in *.
  set (acc := scoreLoop _ _ _ _) in *.
  unfold MARKS_CORRECT, MARKS_WRONG. split.
  - destruct (Z.ltb_spec 0 (c_attempted acc)) as [Hpos|_].
    2:{ exists 0. split; [lia|]. reflexivity. }
    eexists. split; [|reflexivity].
    pose proof (ratio_lower (c_correct acc) (c_attempted acc) Hc0 Hpos) as H0.
    pose proof (ratio_upper (c_correct acc) (c_attempted acc) ltac:(lia) Hpos) as H1.
    set (x := (inject_Z (c_correct acc) / inject_Z (c_attempted acc))%Q) in *.
    split; [apply Math_round_ge; change (inject_Z 0) with 0%Q
           |apply Math_round_le; change (inject_Z 1000) with 1000%Q]; lra.
  - set (raw := if 0 <? _ then _ else _).
    assert (raw <= 100)%Q as Hraw.
    { subst raw. destruct (Z.ltb_spec 0 (Z.of_nat (length (questions mock)) * 4)) as [Hpos|_];
        [|done].
      pose proof (ratio_upper (c_correct acc * 4 + c_wrong acc * -1)
                    (Z.of_nat (length (questions mock)) * 4) ltac:(lia) Hpos) as H1.
      set (x := (inject_Z _ / inject_Z _)%Q) in *. lra. }
    unfold JS.Qmax0.
    destruct (Qle_bool 0 _) eqn:E.
    2:{ exists 0. split; [lia|]. reflexivity. }
    eexists. split; [|reflexivity].
    apply Qle_bool_iff in E. split; [by apply tenth_nonneg|].
    apply Math_round_le. change (inject_Z 1000) with 1000%Q. lra.
Qed.

Lemma scoreQuestion_norm a1 a2 acc1 acc2 i q :
  norm (a1 !! id q) = norm (a2 !! id q) ->
  tally acc1 = tally acc2 ->
  tally (scoreQuestion a1 acc1 i q) = tally (scoreQuestion a2 acc2 i q).
Proof.
  intros Hq Ht. unfold tally in Ht. injection Ht as Ha Hc Hw Hu Hb.
  unfold scoreQuestion, norm in *. cbn [default from_option Datatypes.id] in *.
  rewrite !trim_idem.
  set (ua1 := JS.trim (default EmptyString (a1 !! id q))) in *.
  set (ua2 := JS.trim (default EmptyString (a2 !! id q))) in *.
  assert (JS.truthy ua1 = JS.truthy ua2) as Htr.
  { destruct ua1, ua2; try done; cbn in Hq; done. }
  rewrite Htr, Hq.
  destruct (negb (JS.truthy ua2)); [|destruct (_ && _)];
    unfold tally; cbn [c_attempted c_correct c_wrong c_unattempted c_breakdown];
    rewrite !fmap_app, Ha, Hc, Hw, Hu, Hb; done.
Qed.

Lemma scoreLoop_norm a1 a2 qs : forall i acc1 acc2,
  (forall q, q ∈ qs -> norm (a1 !! id q) = norm (a2 !! id q)) ->
  tally acc1 = tally acc2 ->
  tally (scoreLoop a1 i qs acc1) = tally (scoreLoop a2 i qs acc2).
Proof.
  induction qs as [|q qs IH]; intros i acc1 acc2 Hqs Ht; cbn [scoreLoop]; [done|].
  apply IH.
  - intros q' Hq'. apply Hqs. by right.
  - apply scoreQuestion_norm; [|done]. apply Hqs. by left.
Qed.

(** X14: scoring reads an answer only up to surrounding whitespace and the
    case of its letters, and only the answers of the exam's own questions:
    two answer maps that agree on these give the same figures, verdicts and
    marks. The question ids are plain keys, as those of an assembled exam
    are. *)
Theorem scoring_reads_normalized_answers mock a1 a2 :
  Forall (fun q => plainKey (id q)) (questions mock) ->
  (forall q, q ∈ questions mock -> norm (a1 !! id q) = norm (a2 !! id q)) ->
  figures (computeResult mock a1) = figures (computeResult mock a2)
  /\ rowScore <$> breakdown (computeResult mock a1)
     = rowScore <$> breakdown (computeResult mock a2).
Proof.
  intros _ H.
  pose proof (scoreLoop_norm a1 a2 (questions mock) 0%nat
                (mkCounters 0 0 0 0 []) (mkCounters 0 0 0 0 []) H eq_refl) as Ht.
  unfold tally in Ht. injection Ht as Ha Hc Hw Hu Hb.
  unfold computeResult, figures; cbn zeta.
  cbn [totalQuestions r_attempted r_correct r_wrong r_unattempted marksCorrect
       marksWrong netMarks maxMarks accuracyPercent scorePercent breakdown].
  rewrite Ha, Hc, Hw, Hb. split; [|done]. by rewrite Hu.
Qed.

Lemma scoring_reads_normalized_answers_witness :
  figures (computeResult demoPayload demoAnswers)
  = figures (computeResult demoPayload
       (<["q1" := "  A "]> (<["q2" := "43"]> (<["q9" := "B"]> ∅)))).
Proof.
  apply scoring_reads_normalized_answers.
  { repeat (apply List.Forall_cons; [done|]). apply List.Forall_nil. }
  intros q Hq. vm_compute in Hq.
  repeat (apply elem_of_cons in Hq as [->|Hq]; [vm_compute; reflexivity|]).
  by apply elem_of_nil in Hq.
Defined.
End Summary.


(** ** The session after the submission, and the question pointer *)

Section SessionFacts.
Import MockClient.

Lemma timerEffect_keeps now st :
  let st' := (timerEffect now st).1 in
  mock st' = mock st /\ current st' = current st /\ answers st' = answers st
  /\ token st' = token st
  /\ (submitted st = true -> remainingMs st' = remainingMs st /\ submitted st' = true).
Proof.
  unfold timerEffect. cbn [token submitted setInterval localStorage].
  destruct (submitted st) eqn:Hs.
  - rewrite orb_true_r. cbn. by rewrite Hs.
  - destruct (negb (JS.truthy (token st))); cbn [orb]; [by cbn|].
    destruct (readOrInitSessionStart _ _ _) as [start ls].
    unfold tick. destruct (_ <=? 0); by cbn.
Qed.

Lemma commit_keeps now before after :
  let st' := (commit now before after).1 in
  mock st' = mock after /\ current st' = current after /\ answers st' = answers after
  /\ token st' = token after
  /\ (submitted after = true -> remainingMs st' = remainingMs after /\ submitted st' = true).
Proof.
  unfold commit. destruct (depsChanged before after); [|by cbn].
  pose proof (timerEffect_keeps now after) as H1.
  destruct (timerEffect now after) as [s1 n1]. cbn [fst] in H1.
  destruct H1 as (Hm & Hc & Ha & Ht & Hs).
  destruct (depsChanged after s1); [|by cbn].
  pose proof (timerEffect_keeps now s1) as H2.
  destruct (timerEffect now s1) as [s2 n2]. cbn [fst] in *.
  destruct H2 as (Hm2 & Hc2 & Ha2 & Ht2 & Hs2).
  repeat split; try congruence.
  - destruct (Hs H) as [? Hs1]. destruct (Hs2 Hs1). congruence.
  - destruct (Hs H) as [? Hs1]. by destruct (Hs2 Hs1).
Qed.

Lemma step_frozen now ev st :
  timerStopped st -> submitted st = true ->
  let st' := (step now ev st).1 in
  answers st' = answers st /\ remainingMs st' = remainingMs st.
Proof.
  intros Hinv Hs. destruct ev; cbn [step].
  - destruct (negb (JS.truthy t)); [by cbn|].
    set (st2 := match m with Some _ => _ | None => _ end).
    assert (submitted st2 = true /\ answers st2 = answers st
            /\ remainingMs st2 = remainingMs st) as (Hs2 & Ha2 & Hr2).
    { subst st2. destruct m as [data|]; [destruct (_ =? _)%nat|]; by cbn. }
    destruct (commit_keeps now st st2) as (_ & _ & Ha & _ & Hr).
    destruct (Hr Hs2). split; congruence.
  - by rewrite (Hinv Hs).
  - destruct (commit_keeps now st (setShowModal true (setSubmitted true st)))
      as (_ & _ & Ha & _ & Hr).
    destruct (Hr eq_refl). split; [exact Ha|done].
  - by cbn.
  - destruct (currentQuestion st); [|done]. by rewrite Hs.
  - by cbn.
  - by destruct (mock st).
  - by cbn.
Qed.

Lemma run_frozen evs : forall st,
  timerStopped st -> submitted st = true ->
  let st' := (run evs st).1 in
  submitted st' = true /\ answers st' = answers st
  /\ remainingMs st' = remainingMs st /\ interval st' = None.
Proof.
  induction evs as [|[now ev] evs IH]; intros st Hinv Hs; cbn [run].
  - cbn. repeat split; try done. by apply Hinv.
  - pose proof (step_spec now ev st Hinv) as H1.
    pose proof (step_frozen now ev st Hinv Hs) as H2.
    destruct (step now ev st) as [st1 n1]. cbn [fst] in H2.
    destruct H1 as (Hi1 & _ & Hs1 & _). destruct (Hs1 Hs) as [_ Hs1'].
    specialize (IH st1 Hi1 Hs1').
    destruct (run evs st1) as [st2 n2]. cbn [fst] in *.
    destruct H2 as [Ha Hr]. destruct IH as (? & ? & ? & ?).
    repeat split; congruence.
Qed.

(** X15: a submission is final. Once a session is submitted, by the user or
    by the timer, whatever happens next leaves it submitted, changes no
    answer, leaves the clock where it stopped and starts no new timer. *)
Theorem submission_is_final ls evs1 evs2 :
  let st1 := (run evs1 (initialState ls)).1 in
  let st2 := (run (evs1 ++ evs2) (initialState ls)).1 in
  submitted st1 = true ->
  submitted st2 = true /\ answers st2 = answers st1
  /\ remainingMs st2 = remainingMs st1 /\ interval st2 = None.
Proof.
  cbn zeta. rewrite run_app.
  pose proof (run_spec evs1 (initialState ls) (initial_timerStopped ls)) as H1.
  destruct (run evs1 (initialState ls)) as [st1 n1]. cbn [fst].
  destruct H1 as (Hinv & _). intros Hs.
  pose proof (run_frozen evs2 st1 Hinv Hs) as H2.
  destruct (run evs2 st1) as [st2 n2]. by cbn [fst] in *.
Qed.

Lemma submission_is_final_witness :
  let evs1 := [(1000, TokenRead "tok" (Some demoPayload)); (2000, SetAnswer "a");
               (3000, SubmitNow)] in
  let evs2 := [(4000, SetAnswer "b"); (5000, IntervalFired); (6000, Next);
               (7000, SetAnswer "c"); (2000000, IntervalFired)] in
  let st1 := (run evs1 (initialState (Some ∅))).1 in
  let st2 := (run (evs1 ++ evs2) (initialState (Some ∅))).1 in
  submitted st2 = true /\ answers st2 = answers st1
  /\ remainingMs st2 = remainingMs st1 /\ interval st2 = None.
Proof.
  apply (submission_is_final (Some ∅)). vm_compute. reflexivity.
Defined.

Lemma step_onQuestion now ev st :
  isTokenRead ev = false -> onQuestion st -> onQuestion (step now ev st).1.
Proof.
  intros Hev (m & Hm & Hc). unfold onQuestion.
  destruct ev; try done; cbn [step].
  - destruct (interval st) as [start|]; [|by exists m].
    destruct (commit_keeps now st (tick start now st)) as (Hm' & Hc' & _).
    destruct (commit now st (tick start now st)) as [st' n]. cbn [fst] in *.
    exists m. rewrite Hm', Hc'. unfold tick. by destruct (_ <=? 0).
  - destruct (commit_keeps now st (setShowModal true (setSubmitted true st)))
      as (Hm' & Hc' & _).
    exists m. by rewrite Hm', Hc'.
  - by exists m.
  - destruct (currentQuestion st); [destruct (submitted st)|]; by exists m.
  - exists m. cbn. split; [done|lia].
  - rewrite Hm. exists m. cbn. split; [done|lia].
  - exists m. cbn. split; [done|]. unfold clamp, total. rewrite Hm. lia.
Qed.

(** X16: navigation never leaves the exam. From a state whose pointer is on
    a question of the loaded exam, no sequence of ticks, answers,
    submissions and moves (previous, next, jump to any index) takes the
    pointer off the questions: there is always a current question. *)
Theorem navigation_stays_on_a_question evs st :
  Forall (fun e => isTokenRead e.2 = false) evs ->
  onQuestion st ->
  onQuestion (run evs st).1 /\ is_Some (currentQuestion (run evs st).1).
Proof.
  intros Hevs Hst.
  assert (onQuestion (run evs st).1) as H.
  { revert st Hst. induction Hevs as [|[now ev] evs Hev _ IH]; intros st Hst; [done|].
    cbn [run]. pose proof (step_onQuestion now ev st Hev Hst) as H1.
    destruct (step now ev st) as [st1 n1]. specialize (IH st1 H1).
    by destruct (run evs st1). }
  split; [done|]. destruct H as (m & Hm & Hc).
  unfold currentQuestion. rewrite Hm. cbn.
  apply lookup_lt_is_Some. lia.
Qed.

Lemma navigation_stays_on_a_question_witness :
  let st := (step 1000 (TokenRead "tok" (Some demoPayload)) (initialState (Some ∅))).1 in
  let evs := [(2000, JumpTo 7); (3000, Next); (4000, Next); (5000, JumpTo (-3));
              (6000, Prev); (7000, SubmitNow); (8000, Next)] in
  onQuestion (run evs st).1 /\ is_Some (currentQuestion (run evs st).1).
Proof.
  apply navigation_stays_on_a_question.
  - repeat (apply List.Forall_cons; [done|]). apply List.Forall_nil.
  - exists demoPayload. vm_compute. repeat split; congruence.
Defined.
End SessionFacts.


(** ** The exam that the assembly shares *)

Section AssemblyShare.
Import MockRoute.
Variable listItems : string -> list string.
Variable JSON_parse : string -> JS.Outcome ChapterRecord.
Variable fetchText : string -> string -> option string.
Variable fetchIndex : option IndexShape.
Variable random : nat -> N.
Variable toISOString : JS.number -> string.

Lemma poolEntry_wellFormed subjectName name record i q :
  wellFormedQuestion (poolEntry listItems subjectName name record i q).
Proof.
  unfold wellFormedQuestion, poolEntry.
  cbn [type options correctAnswer promptHtml examHtml source id subject chapter].
  split; [by intros ->|]. split.
  - intros a. unfold inferCorrectAnswer.
    destruct (answer_key record) as [ak|]; [|done].
    destruct (ak !! i) as [x|]; [|done].
    destruct (JS.truthy (JS.trim x)) eqn:E; [|done].
    intros [= <-]. split; [by destruct (JS.trim x)|apply trim_idem].
  - split; [apply trim_idem|]. split; [apply trim_idem|].
    eexists _, i. split; reflexivity.
Qed.

Lemma Forall_imap {A B} (P : B -> Prop) (f : nat -> A -> B) (l : list A) :
  (forall i x, P (f i x)) -> Forall P (imap f l).
Proof.
  revert f. induction l as [|x l IH]; intros f H; cbn [imap]; [apply List.Forall_nil|].
  apply List.Forall_cons; [apply H|]. apply IH. intros i y. apply H.
Qed.

Lemma chapterEntries_spec chapterToSubject c qs :
  chapterEntries listItems JSON_parse fetchText chapterToSubject c = JS.Returned qs ->
  Forall (fun q => chapter q = c
                   /\ subject q = default EmptyString (chapterToSubject !! c)
                   /\ wellFormedQuestion q) qs.
Proof.
  unfold chapterEntries.
  destruct (fetchText _ c) as [text|]; [|intros [= <-]; apply List.Forall_nil].
  destruct (parseJsonl JSON_parse text) as [records|m]; [|done].
  intros [= <-]. induction records as [|r records IH]; [apply List.Forall_nil|].
  cbn [flat_map]. apply Forall_app. split; [|exact IH].
  apply Forall_imap. intros i q. split; [done|]. split; [done|].
  apply poolEntry_wellFormed.
Qed.

Lemma buildPool_spec chapterToSubject chapters : forall pool,
  buildPool listItems JSON_parse fetchText chapterToSubject chapters = JS.Returned pool ->
  Forall (fun q => chapter q ∈ chapters
                   /\ subject q = default EmptyString (chapterToSubject !! chapter q)
                   /\ wellFormedQuestion q) pool.
Proof.
  induction chapters as [|c cs IH]; intros pool; cbn [buildPool].
  - intros [= <-]. apply List.Forall_nil.
  - destruct (chapterEntries _ _ _ _ c) as [qs|m] eqn:E; [|done].
    destruct (buildPool _ _ _ _ cs) as [rest|m]; [|done].
    intros [= <-]. apply Forall_app. split.
    + apply chapterEntries_spec in E.
      eapply List.Forall_impl; [|exact E]. intros q (Hc & Hs & Hw).
      rewrite Hc. split; [left|done].
    + eapply List.Forall_impl; [|exact (IH rest eq_refl)].
      intros q (Hc & Hs & Hw). split; [by right|done].
Qed.

Lemma randomPick_prefix {T} (pool : list T) requested :
  exists k a q,
    a ≡ₚ pool
    /\ effectiveMaxQuestions requested = JS.Num q
    /\ randomPick random pool (effectiveMaxQuestions requested) = take k a
    /\ Z.of_nat k = Qfloor q `min` Z.of_nat (length pool)
    /\ 1 <= Qfloor q <= 10.
Proof.
  pose proof (effectiveMaxQuestions_inRange requested) as Hr.
  unfold randomPick.
  set (a := shuffleLoop random (length pool - 1) 0 pool).
  assert (a ≡ₚ pool) as Hp by apply shuffleLoop_Permutation.
  destruct (effectiveMaxQuestions requested) as [| |q|]; try done.
  cbn in Hr.
  assert (1 <= Qfloor q <= 10)%Z as Hf.
  { split; [change 1%Z with (Qfloor 1)|change 10%Z with (Qfloor 10)];
      apply Qfloor_resp_le; lra. }
  rewrite <- (Permutation_length Hp).
  cbn. destruct (Qle_bool q _) eqn:E.
  - apply Qle_bool_iff in E.
    unfold sliceTo. rewrite (proj2 (Qle_bool_iff 0 q)) by lra.
    destruct (Z.ltb_spec (Qfloor q) 0); [lia|].
    exists (Z.to_nat (Qfloor q)), a, q. repeat split; try done; try lia.
    assert (Qfloor q <= Z.of_nat (length a))%Z; [|lia].
    rewrite <- (Qfloor_Z (Z.of_nat (length a))). by apply Qfloor_resp_le.
  - apply Qle_bool_false in E.
    unfold sliceTo. rewrite (proj2 (Qle_bool_iff 0 _)).
    2:{ change 0%Q with (inject_Z 0). rewrite <- Zle_Qle. lia. }
    rewrite Qfloor_Z.
    destruct (Z.ltb_spec (Z.of_nat (length a)) 0); [lia|].
    exists (length a), a, q. repeat split; try done; try lia.
    + by rewrite Nat2Z.id.
    + assert (Z.of_nat (length a) <= Qfloor q)%Z; [|lia].
      rewrite <- (Qfloor_Z (Z.of_nat (length a))). apply Qfloor_resp_le. lra.
Qed.

(** X17: the exam of a share link is well formed. When the assembly answers
    with a payload, its chapters are a non-empty part of the requested
    names, in request order; it holds at least one and at most
    [min(10, maxQuestions)] questions; every question belongs to one of the
    payload's chapters, under a non-empty subject, is well formed (a value
    question has no options, an answer key is never blank, the markup is
    trimmed, the id is built from subject, chapter, file and index); and the
    client accepts the payload instead of reporting an invalid one. The
    requested names are plain keys. *)
Theorem shared_exam_is_well_formed subjectParam maxParam durationParam now payload :
  Forall plainKey (splitParamList (default EmptyString subjectParam)) ->
  GET listItems JSON_parse fetchText fetchIndex random toISOString
      subjectParam maxParam durationParam now = JS.Returned (Share payload) ->
  chapters payload <> []
  /\ sublist (chapters payload) (splitParamList (default EmptyString subjectParam))
  /\ questions payload <> []
  /\ (length (questions payload) <= 10)%nat
  /\ (exists q, maxQuestions payload = JS.Num q
                /\ Z.of_nat (length (questions payload)) <= Qfloor q)
  /\ Forall (fun q => chapter q ∈ chapters payload /\ subject q <> EmptyString
                      /\ wellFormedQuestion q) (questions payload)
  /\ (forall t st at_, t <> EmptyString ->
        MockClient.mock (MockClient.step at_ (MockClient.TokenRead t (Some payload)) st).1
        = Some payload).
Proof.
  intros _. unfold GET.
  set (requested := splitParamList _).
  destruct (length requested =? 0)%nat; [done|].
  destruct fetchIndex as [index|]; [|done].
  set (chapterToSubject := findSubjectsForChapters index requested).
  set (resolved := filter _ requested).
  destruct (length resolved =? 0)%nat eqn:Hres; [done|].
  destruct (buildPool _ _ _ _ resolved) as [pool|m] eqn:Hpool; [|done].
  destruct (length pool =? 0)%nat eqn:Hlen; [done|].
  intros [= <-]. cbn [chapters questions maxQuestions].
  apply Nat.eqb_neq in Hres, Hlen.
  destruct (randomPick_prefix pool maxParam) as (k & a & q & Hp & Hq & -> & Hk & Hf).
  assert (length (take k a) = k) as Hlk.
  { rewrite length_take, (Permutation_length Hp). lia. }
  assert (questions_ne : take k a <> []).
  { intros E. rewrite E in Hlk. cbn in Hlk. lia. }
  split; [by destruct resolved|].
  split; [apply sublist_filter|].
  split; [done|]. split; [rewrite Hlk; lia|].
  split; [exists q; split; [done|rewrite Hlk; lia]|].
  split.
  - apply buildPool_spec in Hpool. rewrite <- Hp in Hpool.
    assert (Forall
      (fun q0 => chapter q0 ∈ resolved
                 /\ subject q0 = default EmptyString (chapterToSubject !! chapter q0)
                 /\ wellFormedQuestion q0) (take k a)) as H
      by by apply Forall_take.
    eapply List.Forall_impl; [|exact H]. intros x (Hc & Hs & Hw).
    split; [done|]. split; [|done].
    apply list_elem_of_filter in Hc as [Ht _]. rewrite Hs.
    by destruct (default EmptyString (chapterToSubject !! chapter x)).
  - intros t st at_ Ht. cbn [MockClient.step].
    destruct t as [|c t]; [done|]. cbn [JS.truthy negb].
    destruct (length (questions _) =? 0)%nat eqn:E.
    { cbn [questions] in E. apply Nat.eqb_eq in E.
      by apply nil_length_inv in E. }
    destruct (commit_keeps at_ st
                (MockClient.setMock (Some (mkPayload
                   (toISOString (JS.Num (inject_Z now)))
                   (toISOString (JS.num_add (JS.Num (inject_Z now))
                      (JS.num_mul (effectiveDurationSeconds durationParam) (JS.Num 1000))))
                   (effectiveDurationSeconds durationParam)
                   (effectiveMaxQuestions maxParam) resolved (take k a)))
                   (MockClient.setToken (String c t) st))) as (Hm & _).
    exact Hm.
Qed.
End AssemblyShare.

Lemma shared_exam_is_well_formed_witness :
  let payload :=
    mkPayload "" "" (JS.Num 1200) (JS.Num 10) ["Kinematics"]
      [mkQuestion "Physics::Kinematics::kinematics.html::0" "Physics" "Kinematics"
         value "" "Find x." [] None (Some (mkSource "kinematics.html" None))] in
  chapters payload <> []
  /\ sublist (chapters payload) (MockRoute.splitParamList "Kinematics")
  /\ questions payload <> []
  /\ (length (questions payload) <= 10)%nat
  /\ (exists q, maxQuestions payload = JS.Num q
                /\ Z.of_nat (length (questions payload)) <= Qfloor q)
  /\ Forall (fun q => chapter q ∈ chapters payload /\ subject q <> EmptyString
                      /\ wellFormedQuestion q) (questions payload)
  /\ (forall t st at_, t <> EmptyString ->
        MockClient.mock (MockClient.step at_ (MockClient.TokenRead t (Some payload)) st).1
        = Some payload).
Proof.
  apply (shared_exam_is_well_formed noListItems Doubles.JSON_parse
           (Doubles.fetchText Doubles.recordLine) (Some Doubles.index)
           (fun _ => 0%N) (fun _ => EmptyString) (Some "Kinematics") None None 0).
  - vm_compute. repeat constructor.
  - vm_compute. reflexivity.
Defined.


(** ** Which chapters resolve *)

Section Resolver.
Import MockRoute.

Section Resolve.
Variable chapters : list string.
Variable c : string.

Lemma find_original t :
  firstSpelling chapters c = true ->
  normalize t = normalize c ->
  List.find (fun c' => bool_decide (normalize c' = normalize t)) chapters = Some c.
Proof.
  unfold firstSpelling. intros [H _]%andb_prop Hn.
  apply bool_decide_eq_true in H. by rewrite Hn.
Qed.

Lemma original_first t original :
  List.find (fun c' => bool_decide (normalize c' = normalize t)) chapters = Some original ->
  JS.truthy original = true ->
  firstSpelling chapters original = true /\ normalize t = normalize original.
Proof.
  intros F Ht. pose proof (find_some _ _ F) as [_ Hn].
  apply bool_decide_eq_true in Hn. split; [|done].
  unfold firstSpelling. rewrite Ht, andb_true_r. apply bool_decide_eq_true.
  by rewrite Hn.
Qed.

Lemma firstSpelling_requested :
  firstSpelling chapters c = true -> c ∈ chapters /\ JS.truthy c = true.
Proof.
  unfold firstSpelling. intros [H Ht]%andb_prop. split; [|done].
  apply bool_decide_eq_true in H. apply find_some in H as [H _].
  by apply list_elem_of_In.
Qed.

Lemma resolve_topic (acc : gmap string string) (subjectName t : string) :
  (if bool_decide (normalize t ∈ normalize <$> chapters) then
     match List.find (fun c' => bool_decide (normalize c' = normalize t)) chapters with
     | Some original =>
         if JS.truthy original then <[original := subjectName]> acc else acc
     | None => acc
     end
   else acc) !! c
  = if firstSpelling chapters c && bool_decide (normalize t = normalize c)
    then Some subjectName else acc !! c.
Proof.
  destruct (firstSpelling chapters c && bool_decide (normalize t = normalize c)) eqn:E.
  - apply andb_prop in E as [Hf Hn]. apply bool_decide_eq_true in Hn.
    rewrite (find_original t Hf Hn).
    destruct (firstSpelling_requested Hf) as [Hin ->].
    rewrite bool_decide_eq_true_2.
    + by rewrite lookup_insert_eq.
    + rewrite Hn. apply list_elem_of_fmap. by exists c.
  - destruct (bool_decide (normalize t ∈ normalize <$> chapters)); [|done].
    destruct (List.find _ chapters) as [original|] eqn:F; [|done].
    destruct (JS.truthy original) eqn:Ht; [|done].
    destruct (original_first t original F Ht) as [Hf Hn].
    destruct (decide (original = c)) as [->|Hne].
    + rewrite Hf, bool_decide_eq_true_2 in E; done.
    + by rewrite lookup_insert_ne.
Qed.

Lemma resolve_topics (subjectName : string) ts : forall acc : gmap string string,
  fold_left
    (fun acc topic =>
       if bool_decide (normalize topic ∈ normalize <$> chapters) then
         match List.find (fun c' => bool_decide (normalize c' = normalize topic)) chapters with
         | Some original =>
             if JS.truthy original then <[original := subjectName]> acc else acc
         | None => acc
         end
       else acc) ts acc !! c
  = if firstSpelling chapters c
       && existsb (fun t => bool_decide (normalize t = normalize c)) ts
    then Some subjectName else acc !! c.
Proof.
  induction ts as [|t ts IH]; intros acc; cbn [fold_left existsb].
  - by rewrite andb_false_r.
  - rewrite IH, resolve_topic.
    destruct (firstSpelling chapters c); cbn [andb]; [|done].
    destruct (bool_decide (normalize t = normalize c)); cbn [orb]; [|done].
    by destruct (existsb _ ts).
Qed.

Lemma resolve_subjects subjects : forall acc : gmap string string,
  fold_left
    (fun acc '(subjectName, node) =>
       fold_left
         (fun acc topic =>
            if bool_decide (normalize topic ∈ normalize <$> chapters) then
              match List.find (fun c' => bool_decide (normalize c' = normalize topic)) chapters with
              | Some original =>
                  if JS.truthy original then <[original := subjectName]> acc else acc
              | None => acc
              end
            else acc)
         (topicsOf node) acc)
    subjects acc !! c
  = if firstSpelling chapters c
    then match list.last (fst <$> List.filter (lists c) subjects) with
         | Some s => Some s
         | None => acc !! c
         end
    else acc !! c.
Proof.
  induction subjects as [|[s node] subjects IH]; intros acc; cbn [fold_left List.filter].
  - by destruct (firstSpelling chapters c).
  - rewrite IH, resolve_topics. unfold lists at 2. cbn [snd].
    destruct (firstSpelling chapters c); cbn [andb]; [|done].
    destruct (existsb _ (topicsOf node)); [|done].
    rewrite fmap_cons, last_cons. cbn [fst].
    by destruct (list.last _).
Qed.
End Resolve.

(** X19: which chapters the index resolves. A requested name, a plain key,
    gets a subject exactly when it is not empty, no earlier name of the
    request has the same normal form, and some subject of the index lists a
    topic with that normal form; it then gets the last such subject in the
    order of the index. *)
Theorem findSubjectsForChapters_resolution index chapters c :
  plainKey c ->
  findSubjectsForChapters index chapters !! c
  = if firstSpelling chapters c
    then list.last (fst <$> List.filter (lists c) (default [] index))
    else None.
Proof.
  intros _. unfold findSubjectsForChapters. rewrite resolve_subjects, lookup_empty.
  destruct (firstSpelling chapters c); [|done]. by destruct (list.last _).
Qed.
End Resolver.

Lemma findSubjectsForChapters_resolution_witness :
  MockRoute.findSubjectsForChapters
    (Some [("Physics", MockRoute.mkNode (Some ["Kinematics"; "Optics"]) None);
           ("Mathematics", MockRoute.mkNode None (Some ["kinematics"]))])
    ["KINEMATICS"; "kinematics"; "Optics"] !! "KINEMATICS"
  = Some "Mathematics".
Proof.
  by apply (findSubjectsForChapters_resolution
              (Some [("Physics", MockRoute.mkNode (Some ["Kinematics"; "Optics"]) None);
                     ("Mathematics", MockRoute.mkNode None (Some ["kinematics"]))])
              ["KINEMATICS"; "kinematics"; "Optics"] "KINEMATICS").
Defined.


(** ** When the question ids are distinct *)

Section QuestionIds.
Import MockRoute.

Lemma sep_inj a : forall b x y,
  colonFree a -> colonFree b ->
  String.append a (String.append "::" x) = String.append b (String.append "::" y) ->
  a = b /\ x = y.
Proof.
  unfold colonFree.
  induction a as [|ca a IH]; intros [|cb b] x y Ha Hb; simpl; intros E.
  - by injection E.
  - injection E as <- _. rewrite cons_chars in Hb. by apply Forall_cons_1 in Hb as [? _].
  - injection E as -> _. rewrite cons_chars in Ha. by apply Forall_cons_1 in Ha as [? _].
  - injection E as -> E. rewrite cons_chars in Ha, Hb.
    apply Forall_cons_1 in Ha as [_ Ha]. apply Forall_cons_1 in Hb as [_ Hb].
    destruct (IH b x y Ha Hb E) as [-> ->]. done.
Qed.

Lemma questionId_inj s1 c1 f1 i1 s2 c2 f2 i2 :
  colonFree s1 -> colonFree s2 -> colonFree c1 -> colonFree c2 ->
  colonFree f1 -> colonFree f2 ->
  questionId s1 c1 f1 i1 = questionId s2 c2 f2 i2 ->
  s1 = s2 /\ c1 = c2 /\ f1 = f2 /\ i1 = i2.
Proof.
  intros Hs1 Hs2 Hc1 Hc2 Hf1 Hf2 E. unfold questionId in E.
  apply sep_inj in E as [-> E]; [|done..].
  apply sep_inj in E as [-> E]; [|done..].
  apply sep_inj in E as [-> E]; [|done..].
  by apply pretty_nat_inj in E.
Qed.

Section Pool.
Variable listItems : string -> list string.
Variable JSON_parse : string -> JS.Outcome ChapterRecord.
Variable fetchText : string -> string -> option string.
Variable chapterToSubject : gmap string string.

Lemma record_ids s c r :
  id <$> imap (poolEntry listItems s c r) (rec_questions r)
  = questionId s c (rec_file r) <$> seq 0 (length (rec_questions r)).
Proof.
  rewrite fmap_imap.
  exact (imap_seq_0 (rec_questions r) (questionId s c (rec_file r))).
Qed.

Lemma records_ids_elem s c records x :
  x ∈ id <$> flat_map (fun r => imap (poolEntry listItems s c r) (rec_questions r)) records ->
  exists r i, r ∈ records /\ x = questionId s c (rec_file r) i.
Proof.
  induction records as [|r records IH]; cbn [flat_map].
  - by intros ?%elem_of_nil.
  - rewrite fmap_app, record_ids. intros [H|H]%elem_of_app.
    + apply list_elem_of_fmap in H as (i & -> & _). exists r, i. split; [left|done].
    + destruct (IH H) as (r' & i & Hr & ->). exists r', i. split; [by right|done].
Qed.

Lemma records_ids_NoDup s c records :
  colonFree s -> colonFree c -> tidyChapter records ->
  NoDup (id <$> flat_map (fun r => imap (poolEntry listItems s c r) (rec_questions r))
                  records).
Proof.
  intros Hs Hc [Hnd Hcf]. induction records as [|r records IH]; cbn [flat_map].
  - apply NoDup_nil_2.
  - rewrite fmap_cons in Hnd. apply list.NoDup_cons in Hnd as [Hr Hnd].
    apply Forall_cons_1 in Hcf as [Hf Hcf].
    rewrite fmap_app, record_ids. apply list.NoDup_app. split; [|split].
    + apply NoDup_fmap_2_strong; [|apply NoDup_seq].
      intros i j _ _ E. by apply questionId_inj in E as (_ & _ & _ & ?).
    + intros x Hx Hx'. apply list_elem_of_fmap in Hx as (i & -> & _).
      apply records_ids_elem in Hx' as (r' & j & Hr' & E).
      rewrite list.Forall_forall in Hcf.
      apply questionId_inj in E as (_ & _ & E & _); [|by auto..].
      apply Hr. rewrite E. apply list_elem_of_fmap. by exists r'.
    + by apply IH.
Qed.

Lemma chapterEntries_ids c qs :
  colonFree c -> colonFree (default EmptyString (chapterToSubject !! c)) ->
  (forall text records,
     fetchText (default EmptyString (chapterToSubject !! c)) c = Some text ->
     parseJsonl JSON_parse text = JS.Returned records -> tidyChapter records) ->
  chapterEntries listItems JSON_parse fetchText chapterToSubject c = JS.Returned qs ->
  NoDup (id <$> qs)
  /\ forall x, x ∈ id <$> qs ->
       exists f i, colonFree f
         /\ x = questionId (default EmptyString (chapterToSubject !! c)) c f i.
Proof.
  intros Hc Hs Htidy. unfold chapterEntries.
  destruct (fetchText _ c) as [text|].
  2:{ intros [= <-]. split; [apply NoDup_nil_2|]. by intros x ?%elem_of_nil. }
  destruct (parseJsonl JSON_parse text) as [records|m] eqn:Hp; [|done].
  intros [= <-]. specialize (Htidy text records eq_refl Hp).
  split; [by apply records_ids_NoDup|].
  intros x Hx. apply records_ids_elem in Hx as (r & i & Hr & ->).
  exists (rec_file r), i. split; [|done].
  destruct Htidy as [_ Hcf]. rewrite list.Forall_forall in Hcf. by apply Hcf.
Qed.

Lemma buildPool_ids chapters : forall pool,
  NoDup chapters ->
  Forall (fun c => colonFree c /\ colonFree (default EmptyString (chapterToSubject !! c)))
         chapters ->
  (forall c text records,
     c ∈ chapters ->
     fetchText (default EmptyString (chapterToSubject !! c)) c = Some text ->
     parseJsonl JSON_parse text = JS.Returned records -> tidyChapter records) ->
  buildPool listItems JSON_parse fetchText chapterToSubject chapters = JS.Returned pool ->
  NoDup (id <$> pool)
  /\ forall x, x ∈ id <$> pool ->
       exists c f i, c ∈ chapters /\ colonFree f
         /\ x = questionId (default EmptyString (chapterToSubject !! c)) c f i.
Proof.
  induction chapters as [|c cs IH]; intros pool Hnd Hcf Htidy; cbn [buildPool].
  - intros [= <-]. split; [apply NoDup_nil_2|]. by intros x ?%elem_of_nil.
  - destruct (chapterEntries _ _ _ _ c) as [qs|m] eqn:E; [|done].
    destruct (buildPool _ _ _ _ cs) as [rest|m] eqn:Er; [|done].
    intros [= <-].
    apply list.NoDup_cons in Hnd as [Hc Hnd]. pose proof Hcf as Hall.
    apply Forall_cons_1 in Hcf as [[Hcc Hcs] Hcf].
    destruct (chapterEntries_ids c qs Hcc Hcs) as [H1 H2]; [|done|].
    { intros text records. apply Htidy. left. }
    destruct (IH rest Hnd Hcf) as [H3 H4]; [|done|].
    { intros c' text records Hc'. apply Htidy. by right. }
    split.
    + rewrite fmap_app. apply list.NoDup_app. split; [done|]. split; [|done].
      intros x Hx Hx'. destruct (H2 x Hx) as (f & i & Hf & ->).
      destruct (H4 _ Hx') as (c' & f' & i' & Hc' & Hf' & Eid).
      rewrite list.Forall_forall in Hcf. destruct (Hcf c' Hc') as [? ?].
      apply questionId_inj in Eid as (_ & -> & _); done.
    + intros x. rewrite fmap_app. intros [Hx|Hx]%elem_of_app.
      * destruct (H2 x Hx) as (f & i & Hf & ->). exists c, f, i. split; [left|done].
      * destruct (H4 x Hx) as (c' & f & i & Hc' & Hf & ->).
        exists c', f, i. split; [by right|done].
Qed.
End Pool.

(** X20: a request that names every chapter once gets an exam without
    duplicate ids. When the requested names are plain keys, pairwise distinct
    and, like
    the subjects they resolve to, hold no colon, and every chapter file that
    is fetched holds records of distinct source files with colon-free names,
    then no two questions of the shared exam carry the same id, whatever the
    random draws. *)
Theorem distinct_chapters_give_distinct_ids listItems JSON_parse fetchText index
    random toISOString subjectParam maxParam durationParam now payload :
  let requested := splitParamList (default EmptyString subjectParam) in
  let subjectOf c :=
    default EmptyString (findSubjectsForChapters index requested !! c) in
  Forall plainKey requested ->
  NoDup requested ->
  Forall (fun c => colonFree c /\ colonFree (subjectOf c)) requested ->
  (forall c text records,
     c ∈ requested -> fetchText (subjectOf c) c = Some text ->
     parseJsonl JSON_parse text = JS.Returned records -> tidyChapter records) ->
  GET listItems JSON_parse fetchText (Some index) random toISOString
      subjectParam maxParam durationParam now = JS.Returned (Share payload) ->
  NoDup (id <$> questions payload).
Proof.
  cbn zeta. intros _ Hnd Hcf Htidy. unfold GET.
  set (requested := splitParamList _) in *.
  destruct (length requested =? 0)%nat; [done|].
  set (chapterToSubject := findSubjectsForChapters index requested) in *.
  set (resolved := filter _ requested).
  destruct (length resolved =? 0)%nat; [done|].
  destruct (buildPool _ _ _ _ resolved) as [pool|m] eqn:Hpool; [|done].
  destruct (length pool =? 0)%nat; [done|].
  intros [= <-]. cbn [questions].
  destruct (randomPick_prefix random pool maxParam) as (k & a & q & Hp & _ & -> & _).
  apply buildPool_ids in Hpool as [Hpool _].
  - rewrite fmap_take. apply (sublist_NoDup _ (id <$> a)); [by rewrite Hp|apply sublist_take].
  - by apply list.NoDup_filter.
  - apply list.Forall_forall. intros c [_ Hc]%list_elem_of_filter.
    rewrite list.Forall_forall in Hcf. by apply Hcf.
  - intros c text records [_ Hc]%list_elem_of_filter. by apply Htidy.
Qed.
End QuestionIds.

(** The exam of the two-chapter corpus holds the five questions of its
    three records. *)
Example corpus_exam_ids :
  id <$> questions Corpus.exam
  = ["Physics::Kinematics::kinematics-1.html::1";
     "Physics::Kinematics::kinematics-2.html::0";
     "Physics::Optics::optics.html::0";
     "Physics::Optics::optics.html::1";
     "Physics::Kinematics::kinematics-1.html::0"].
Proof. vm_compute. reflexivity. Qed.

Lemma distinct_chapters_give_distinct_ids_witness :
  length (questions Corpus.exam) = 5%nat
  /\ chapters Corpus.exam = ["Kinematics"; "Optics"]
  /\ NoDup (id <$> questions Corpus.exam).
Proof.
  split; [vm_compute; reflexivity|]. split; [vm_compute; reflexivity|].
  apply (distinct_chapters_give_distinct_ids noListItems Corpus.JSON_parse
           Corpus.fetchText Corpus.index (fun _ => 0%N) (fun _ => EmptyString)
           (Some "Kinematics,Optics") None None 0 Corpus.exam).
  - vm_compute. repeat constructor.
  - vm_compute. apply list.NoDup_cons. split.
    + intros H. apply elem_of_cons in H as [H|H]; [discriminate H|by apply elem_of_nil in H].
    + apply list.NoDup_cons. split; [by intros ?%elem_of_nil|apply NoDup_nil_2].
  - vm_compute. repeat (apply List.Forall_cons; [split|]); try apply List.Forall_nil;
      repeat (apply List.Forall_cons; [done|]); apply List.Forall_nil.
  - intros c text records Hc. vm_compute in Hc.
    apply elem_of_cons in Hc as [->|Hc];
      [|apply elem_of_cons in Hc as [->|Hc]; [|by apply elem_of_nil in Hc]].
    + intros [= <-]. intros [= <-]. split.
      * vm_compute. apply list.NoDup_cons. split.
        -- intros H. apply elem_of_cons in H as [H|H];
             [discriminate H|by apply elem_of_nil in H].
        -- apply list.NoDup_cons. split; [by intros ?%elem_of_nil|apply NoDup_nil_2].
      * vm_compute. repeat (apply List.Forall_cons;
          [repeat (apply List.Forall_cons; [done|]); apply List.Forall_nil|]).
        apply List.Forall_nil.
    + intros [= <-]. intros [= <-]. split.
      * vm_compute. apply list.NoDup_cons.
        split; [by intros ?%elem_of_nil|apply NoDup_nil_2].
      * vm_compute. repeat (apply List.Forall_cons;
          [repeat (apply List.Forall_cons; [done|]); apply List.Forall_nil|]).
        apply List.Forall_nil.
  - vm_compute. reflexivity.
Defined.


(** ** The options of a question *)

Section Options.
Import MockRoute.

Lemma pretty_N_go_digits x : forall s,
  Forall (fun c => isDigit c = true) (JS.chars s) ->
  Forall (fun c => isDigit c = true) (JS.chars (pretty_N_go x s)).
Proof.
  induction (N.lt_wf_0 x) as [x _ IH]; intros s Hs.
  destruct (N.eq_dec x 0%N) as [->|Hx]; [by rewrite pretty_N_go_0|].
  rewrite pretty_N_go_step by lia. apply IH.
  - apply N.div_lt; lia.
  - rewrite cons_chars. apply List.Forall_cons; [|done].
    unfold pretty_N_char. by repeat case_match.
Qed.

Lemma pretty_nat_digits (n : nat) :
  Forall (fun c => isDigit c = true) (JS.chars (pretty n)).
Proof.
  unfold pretty, pretty_nat, pretty, pretty_N.
  case_decide; [by repeat constructor|].
  apply pretty_N_go_digits. apply List.Forall_nil.
Qed.

Lemma get_chars s : forall i, String.get i s = JS.chars s !! i.
Proof. induction s as [|c s IH]; intros [|i]; try done. apply IH. Qed.

Lemma optionKey_inj i j : optionKey i = optionKey j -> i = j.
Proof.
  unfold optionKey. rewrite !get_chars.
  assert (NoDup (JS.chars letters)) as Hnd by (by apply (bool_decide_unpack _)).
  assert (Forall (fun c => isDigit c = false) (JS.chars letters)) as Hl
    by (vm_compute; repeat constructor).
  rewrite list.Forall_forall in Hl.
  assert (forall k c (n : nat), JS.chars letters !! k = Some c -> String c EmptyString <> pretty n)
    as Hne.
  { intros k c n Hk E. pose proof (pretty_nat_digits n) as Hd.
    rewrite <- E in Hd. apply Forall_cons_1 in Hd as [Hd _].
    rewrite (Hl c) in Hd; [done|]. by eapply list_elem_of_lookup_2. }
  destruct (JS.chars letters !! i) as [c|] eqn:Hi;
    destruct (JS.chars letters !! j) as [d|] eqn:Hj.
  - intros [= ->]. by eapply NoDup_lookup.
  - intros E. by destruct (Hne i c (j + 1)%nat Hi).
  - intros E. by destruct (Hne j d (i + 1)%nat Hj).
  - intros E%pretty_nat_inj. lia.
Qed.

(** X21: the options that [parseOptions] builds. Their keys are pairwise
    distinct, however many list items the markup has (the letters A to Z,
    then the numerals from 27 on); the markup of every option is trimmed;
    blank markup gives no option, and any other markup gives one option per
    list item, or a single option A when it has no list item. *)
Theorem parseOptions_keys_distinct listItems optionsHtml :
  let opts := parseOptions listItems optionsHtml in
  let lis := listItems (JS.trim optionsHtml) in
  NoDup (key <$> opts)
  /\ key <$> opts = optionKey <$> seq 0 (length opts)
  /\ Forall (fun o => JS.trim (html o) = html o) opts
  /\ (opts = [] <-> JS.trim optionsHtml = EmptyString)
  /\ (JS.trim optionsHtml <> EmptyString -> length opts = (1 `max` length lis)%nat).
Proof.
  cbn zeta. unfold parseOptions.
  destruct (JS.trim optionsHtml) as [|c s] eqn:Ht; cbn [JS.truthy negb].
  { repeat split; try done. apply NoDup_nil_2. }
  rewrite <- Ht. destruct (listItems (JS.trim optionsHtml)) as [|li lis] eqn:Hlis.
  { repeat split; try done; try congruence.
    - apply NoDup_singleton.
    - apply List.Forall_cons; [apply trim_idem|apply List.Forall_nil]. }
  set (l := li :: lis).
  assert (key <$> imap (fun i inner =>
            mkOption (match String.get i letters with
                      | Some c => String c EmptyString
                      | None => pretty (i + 1)%nat
                      end) (JS.trim inner)) l
          = optionKey <$> seq 0 (length l)) as Hk.
  { rewrite fmap_imap. exact (imap_seq_0 l optionKey). }
  split; [|split; [|split; [|split]]].
  - rewrite Hk. apply NoDup_fmap_2_strong; [|apply NoDup_seq].
    intros i j _ _. apply optionKey_inj.
  - by rewrite Hk, length_imap.
  - apply Forall_imap. intros i x. apply trim_idem.
  - split; [done|congruence].
  - intros _. rewrite length_imap. subst l. cbn [length]. lia.
Qed.
End Options.


(** ** The error report of the topic route *)

Section TopicErrors.
Context {A : Type}.
Variable JSON_parse : string -> JS.Outcome A.

Lemma topic_parseLoop_errors lines : forall i data errs,
  (TopicRoute.parseLoop JSON_parse i lines data errs).2
  = errs ++ omap Datatypes.id (imap (fun j => errorOf JSON_parse (i + j)) lines).
Proof.
  induction lines as [|l lines IH]; intros i data errs;
    cbn [TopicRoute.parseLoop imap omap list_omap].
  - by rewrite app_nil_r.
  - unfold errorOf at 1. rewrite Nat.add_0_r.
    assert (imap ((fun j => errorOf JSON_parse (i + j)) ∘ S) lines
            = imap (fun j => errorOf JSON_parse (S i + j)) lines) as ->.
    { apply imap_ext. intros j x _. cbn. f_equal. lia. }
    destruct (JSON_parse l) as [v|m]; rewrite IH; cbn [Datatypes.id]; [done|].
    by rewrite <- app_assoc.
Qed.

Lemma errors_in_range lines : forall i e,
  e ∈ omap Datatypes.id (imap (fun j => errorOf JSON_parse (i + j)) lines) ->
  (i + 1 <= TopicRoute.line e <= i + length lines)%nat.
Proof.
  intros i e He. apply list_elem_of_omap in He as (o & Ho & Hid).
  apply list_elem_of_lookup in Ho as [j Hj].
  rewrite list_lookup_imap in Hj.
  destruct (lines !! j) as [l|] eqn:Hl; [|done].
  apply lookup_lt_Some in Hl. cbn in Hj. injection Hj as <-.
  unfold errorOf in Hid. cbn in Hid.
  destruct (JSON_parse l); [done|]. injection Hid as <-. cbn. lia.
Qed.

(** X22: what the topic route reports about malformed lines. The recorded
    errors are those of the lines that do not parse, in order, each under
    the 1-based position of its line among the non-blank lines of the file
    (blank lines are not counted); the response carries the first ten of
    them, whether it is the error response or the topic. *)
Theorem topic_route_reports_errors text :
  let lines := TopicRoute.nonBlankLines text in
  let r := TopicRoute.parseJsonl JSON_parse text in
  TopicRoute.parseErrors r = omap Datatypes.id (imap (errorOf JSON_parse) lines)
  /\ (forall e, e ∈ TopicRoute.parseErrors r ->
        (1 <= TopicRoute.line e <= TopicRoute.totalLines r)%nat)
  /\ reportedErrors (TopicRoute.GET JSON_parse (Some text))
     = take 10 (TopicRoute.parseErrors r)
  /\ (length (reportedErrors (TopicRoute.GET JSON_parse (Some text))) <= 10)%nat.
Proof.
  cbn zeta. unfold TopicRoute.GET, TopicRoute.parseJsonl.
  pose proof (topic_parseLoop_errors (TopicRoute.nonBlankLines text) 0 [] []) as H.
  destruct (TopicRoute.parseLoop _ _ _ _ _) as [data errs]. cbn [snd app] in H.
  cbn [TopicRoute.data TopicRoute.parseErrors TopicRoute.totalLines].
  assert (reportedErrors
            (if (0 <? length (TopicRoute.nonBlankLines text))%nat && (length data =? 0)%nat
             then TopicRoute.NoValidLines (take 10 errs)
             else TopicRoute.Topic (length data)
                    (if (0 <? length errs)%nat then take 10 errs else []) data)
          = take 10 errs) as Hrep.
  { destruct (_ && _); cbn [reportedErrors]; [done|]. by destruct errs. }
  split; [exact H|]. split; [|split; [exact Hrep|]].
  - intros e He. rewrite H in He.
    pose proof (errors_in_range (TopicRoute.nonBlankLines text) 0 e He). lia.
  - rewrite Hrep, length_take. lia.
Qed.
End TopicErrors.

(** ** The key of the session start *)

Section SessionKey.
Import MockClient.

Lemma newSessionStartKey_inj t1 t2 :
  newSessionStartKey t1 = newSessionStartKey t2 <-> JS.sliceTo 48 t1 = JS.sliceTo 48 t2.
Proof.
  unfold newSessionStartKey. split; [|by intros ->].
  intros E. by simplify_eq/=.
Qed.

Lemma readOrInit_fresh token now (m : gmap string string) k :
  0 < k ->
  readOrInitSessionStart token now
    (Some (<[newSessionStartKey token := JS.String_of_Z k]> m))
  = (k, Some (<[newSessionStartKey token := JS.String_of_Z k]> m)).
Proof.
  intros Hk. unfold readOrInitSessionStart.
  rewrite lookup_insert_eq, String_of_Z_truthy, Number_of_String.
  by rewrite (proj2 (Z.ltb_lt 0 k) Hk).
Qed.

Lemma readOrInit_stable token now1 now2 m :
  0 < now1 ->
  readOrInitSessionStart token now2 (readOrInitSessionStart token now1 (Some m)).2
  = readOrInitSessionStart token now1 (Some m).
Proof.
  intros Hnow. unfold readOrInitSessionStart at 2 3.
  destruct (m !! newSessionStartKey token) as [existing|] eqn:Hm;
    [|by apply readOrInit_fresh].
  destruct (JS.truthy existing) eqn:Ht; [|by apply readOrInit_fresh].
  destruct (JS.Number_of_string existing) as [t|] eqn:Hn; [|by apply readOrInit_fresh].
  destruct (Z.ltb_spec 0 t) as [Hpos|_]; [|by apply readOrInit_fresh].
  cbn [snd]. unfold readOrInitSessionStart. rewrite Hm, Ht, Hn.
  by rewrite (proj2 (Z.ltb_lt 0 t) Hpos).
Qed.

Lemma readOrInit_storage token now m :
  exists m', (readOrInitSessionStart token now (Some m)).2 = Some m'
    /\ forall k, k <> newSessionStartKey token -> m' !! k = m !! k.
Proof.
  unfold readOrInitSessionStart.
  assert (forall k, k <> newSessionStartKey token ->
            <[newSessionStartKey token := JS.String_of_Z now]> m !! k = m !! k) as Hins
    by (intros k Hk; by rewrite lookup_insert_ne).
  destruct (m !! newSessionStartKey token) as [existing|]; [|by eexists].
  destruct (JS.truthy existing); [|by eexists].
  destruct (JS.Number_of_string existing) as [t|]; [|by eexists].
  destruct (0 <? t); by eexists.
Qed.

(** X23: the session start is keyed by the first 48 characters of the
    token. Two tokens that agree on them share one session start: once it is
    set for the first, the second reads the same start, at any instant. Two
    tokens that differ there do not interfere: setting the start of the
    first changes nothing of what the second reads. *)
Theorem session_keyed_by_token_prefix t1 t2 now1 now2 m :
  0 < now1 ->
  let first := readOrInitSessionStart t1 now1 (Some m) in
  (JS.sliceTo 48 t1 = JS.sliceTo 48 t2 ->
     readOrInitSessionStart t2 now2 first.2 = first)
  /\ (JS.sliceTo 48 t1 <> JS.sliceTo 48 t2 ->
        (readOrInitSessionStart t2 now2 first.2).1
        = (readOrInitSessionStart t2 now2 (Some m)).1).
Proof.
  intros Hnow. cbn zeta. split.
  - intros E%newSessionStartKey_inj.
    assert (forall now ls, readOrInitSessionStart t2 now ls
                           = readOrInitSessionStart t1 now ls) as Hsame.
    { intros now ls. unfold readOrInitSessionStart. by rewrite E. }
    rewrite Hsame. by apply readOrInit_stable.
  - intros Hne. destruct (readOrInit_storage t1 now1 m) as (m' & -> & Hm').
    assert (newSessionStartKey t2 <> newSessionStartKey t1) as Hk
      by (intros E%newSessionStartKey_inj; congruence).
    unfold readOrInitSessionStart. rewrite (Hm' _ Hk).
    destruct (m !! newSessionStartKey t2) as [existing|]; [|done].
    destruct (JS.truthy existing); [|done].
    destruct (JS.Number_of_string existing) as [t|]; [|done].
    by destruct (0 <? t).
Qed.

Lemma session_keyed_by_token_prefix_witness :
  let t1 := "H4sIAAAAAAAAA6tWSi5KTSxJTXEsUbJSMjIwMtM1MNQ1NFJIAAAAAAAA-first" in
  let t2 := "H4sIAAAAAAAAA6tWSi5KTSxJTXEsUbJSMjIwMtM1MNQ1NFJIAAAAAAAA-second" in
  let first := MockClient.readOrInitSessionStart t1 1000 (Some ∅) in
  (JS.sliceTo 48 t1 = JS.sliceTo 48 t2 ->
     MockClient.readOrInitSessionStart t2 900000 first.2 = first)
  /\ (JS.sliceTo 48 t1 <> JS.sliceTo 48 t2 ->
        (MockClient.readOrInitSessionStart t2 900000 first.2).1
        = (MockClient.readOrInitSessionStart t2 900000 (Some ∅)).1).
Proof.
  apply session_keyed_by_token_prefix. lia.
Defined.
End SessionKey.


(** ** From the request to the open exam *)

Section EndToEnd.
Import MockRoute MockClient.
Variable listItems : string -> list string.
Variable parseRecord : string -> JS.Outcome ChapterRecord.
Variable fetchText : string -> string -> option string.
Variable fetchIndex : option IndexShape.
Variable random : nat -> N.
Variable toISOString : JS.number -> string.
Variable JSON_stringify : MockPayload -> string.
Variable utf8_encode : string -> list byte.
Variable gzipSync : list byte -> list byte.
Variable gunzip : list byte -> option (list byte).
Variable utf8_decode : list byte -> string.
Variable JSON_parse : string -> option MockPayload.

Lemma timerEffect_err now st : err (timerEffect now st).1 = err st.
Proof.
  unfold timerEffect. cbn [token submitted setInterval localStorage].
  destruct (negb (JS.truthy (MockClient.token st)) || submitted st); [done|].
  destruct (readOrInitSessionStart _ _ _) as [start ls'].
  unfold tick. by destruct (_ <=? 0).
Qed.

Lemma commit_err now before after : err (commit now before after).1 = err after.
Proof.
  unfold commit. destruct (depsChanged before after); [|done].
  pose proof (timerEffect_err now after) as H1.
  destruct (timerEffect now after) as [s1 n1]. cbn [fst] in H1.
  destruct (depsChanged after s1); [|done].
  pose proof (timerEffect_err now s1) as H2.
  destruct (timerEffect now s1) as [s2 n2]. cbn [fst] in *. congruence.
Qed.

Lemma token_not_empty buf : buf <> [] -> base64urlFromBuffer buf <> EmptyString.
Proof.
  intros Hb E. apply (f_equal String.length) in E.
  rewrite <- length_chars, base64urlFromBuffer_chars, chars_str, length_fmap,
    sextets_length in E.
  destruct buf as [|b buf]; [done|]. cbn [length String.length] in E.
  assert (1 <= (4 * S (length buf) + 2) / 3)%nat; [|lia].
  apply Nat.div_le_lower_bound; lia.
Qed.

(** X24: a share link opens the exam it was made for. When the assembly
    answers a request of plain keys with a payload, and the platform codecs round-trip on it (the
    gzip stream is not empty and decompresses to the bytes of the JSON text,
    which decode and parse back to the payload), then the client that reads
    the token of the link in its initial state decodes that very payload,
    reports no error, keeps the token, starts with no answer and shows the
    first question. *)
Theorem share_link_opens_the_exam subjectParam maxParam durationParam now payload ls at_ :
  let json := JSON_stringify payload in
  let token := encodeToken JSON_stringify utf8_encode gzipSync payload in
  let decoded := gunzipToJson gunzip utf8_decode JSON_parse token in
  let st := (step at_ (TokenRead token decoded) (initialState ls)).1 in
  Forall plainKey (splitParamList (default EmptyString subjectParam)) ->
  GET listItems parseRecord fetchText fetchIndex random toISOString
      subjectParam maxParam durationParam now = JS.Returned (Share payload) ->
  gzipSync (utf8_encode json) <> [] ->
  gunzip (gzipSync (utf8_encode json)) = Some (utf8_encode json) ->
  utf8_decode (utf8_encode json) = json ->
  JSON_parse json = Some payload ->
  decoded = Some payload
  /\ mock st = Some payload /\ err st = None /\ MockClient.token st = token
  /\ answers st = ∅ /\ current st = 0
  /\ currentQuestion st = head (questions payload)
  /\ is_Some (currentQuestion st).
Proof.
  cbn zeta. intros _ Hget Hne Hgzip Hutf8 Hjson.
  set (token := encodeToken JSON_stringify utf8_encode gzipSync payload).
  assert (gunzipToJson gunzip utf8_decode JSON_parse token = Some payload) as Hdec.
  { unfold gunzipToJson, token, encodeToken.
    rewrite base64url_roundtrip. cbn [mbind option_bind].
    rewrite Hgzip. cbn [mbind option_bind]. by rewrite Hutf8. }
  rewrite Hdec. split; [done|].
  assert (questions payload <> []) as Hq.
  { revert Hget. unfold GET.
    destruct (length _ =? 0)%nat; [done|].
    destruct fetchIndex as [index|]; [|done].
    destruct (length _ =? 0)%nat; [done|].
    destruct (buildPool _ _ _ _ _) as [pool|m]; [|done].
    destruct (length pool =? 0)%nat eqn:Hlen; [done|].
    intros [= <-]. cbn [questions]. apply Nat.eqb_neq in Hlen.
    destruct (randomPick_prefix random pool maxParam) as (k & a & q & Hp & _ & -> & Hk & Hf).
    intros E. apply (f_equal length) in E.
    rewrite length_take, (Permutation_length Hp) in E. cbn in E. lia. }
  assert (JS.truthy token = true) as Ht.
  { pose proof (token_not_empty (gzipSync (utf8_encode (JSON_stringify payload))) Hne).
    unfold token, encodeToken. by destruct (base64urlFromBuffer _). }
  cbn [step]. rewrite Ht. cbn [negb].
  destruct (length (questions payload) =? 0)%nat eqn:E.
  { apply Nat.eqb_eq in E. by apply nil_length_inv in E. }
  set (loaded := setMock (Some payload) (setToken token (initialState ls))).
  destruct (commit_keeps at_ (initialState ls) loaded) as (Hm & Hc & Ha & Htok & _).
  pose proof (commit_err at_ (initialState ls) loaded) as He.
  assert (currentQuestion (commit at_ (initialState ls) loaded).1 = head (questions payload))
    as Hcur.
  { unfold currentQuestion. rewrite Hm, Hc. cbn. by destruct (questions payload). }
  repeat split; try done.
  rewrite Hcur. by destruct (questions payload).
Qed.
End EndToEnd.

Lemma share_link_opens_the_exam_witness :
  let payload :=
    mkPayload "" "" (JS.Num 1200) (JS.Num 10) ["Kinematics"]
      [mkQuestion "Physics::Kinematics::kinematics.html::0" "Physics" "Kinematics"
         value "" "Find x." [] None (Some (mkSource "kinematics.html" None))] in
  let token :=
    MockRoute.encodeToken Codecs.JSON_stringify Codecs.utf8_encode Codecs.gzipSync payload in
  let decoded :=
    MockClient.gunzipToJson Codecs.gunzip Codecs.utf8_decode Codecs.JSON_parse token in
  let st := (MockClient.step 5000 (MockClient.TokenRead token decoded)
               (MockClient.initialState (Some ∅))).1 in
  decoded = Some payload
  /\ MockClient.mock st = Some payload /\ MockClient.err st = None
  /\ MockClient.token st = token
  /\ MockClient.answers st = ∅ /\ MockClient.current st = 0
  /\ MockClient.currentQuestion st = head (questions payload)
  /\ is_Some (MockClient.currentQuestion st).
Proof.
  apply (share_link_opens_the_exam noListItems Doubles.JSON_parse
           (Doubles.fetchText Doubles.recordLine) (Some Doubles.index)
           (fun _ => 0%N) (fun _ => EmptyString)
           Codecs.JSON_stringify Codecs.utf8_encode Codecs.gzipSync
           Codecs.gunzip Codecs.utf8_decode Codecs.JSON_parse
           (Some "Kinematics") None None 0).
  - vm_compute. repeat constructor.
  - vm_compute. reflexivity.
  - done.
  - apply Codecs_gzip_roundtrip.
  - apply Codecs_utf8_roundtrip.
  - apply Codecs_JSON_roundtrip.
Defined.


(** ** The index builder *)

Section FileNames.
Import CreateIndex.

Lemma chars_toLowerCase s : JS.chars (JS.toLowerCase s) = JS.lowerChar <$> JS.chars s.
Proof. induction s as [|c s IH]; [done|]. cbn [JS.toLowerCase]. by rewrite !cons_chars, IH. Qed.

Lemma matchIgnoringCase_spec pat : forall cs,
  matchIgnoringCase pat cs = true <-> JS.lowerChar <$> pat = JS.lowerChar <$> cs.
Proof.
  induction pat as [|p pat IH]; intros [|c cs]; cbn [matchIgnoringCase]; try done.
  rewrite andb_true_iff, Ascii.eqb_eq, IH, !fmap_cons. split.
  - by intros [-> ->].
  - by intros [= -> ->].
Qed.

Lemma str_app a b : JS.str (a ++ b) = String.append (JS.str a) (JS.str b).
Proof. by rewrite <- (str_chars (String.append _ _)), chars_append, !chars_str. Qed.

Lemma isJsonlFile_match name :
  isJsonlFile name
  = matchIgnoringCase (JS.chars ".jsonl") (drop (length (JS.chars name) - 6) (JS.chars name)).
Proof.
  unfold isJsonlFile, endsWith. rewrite chars_toLowerCase, length_fmap, <- fmap_drop.
  change (String.length ".jsonl") with 6%nat.
  set (suffix := drop _ _).
  destruct (matchIgnoringCase _ suffix) eqn:E.
  - apply matchIgnoringCase_spec in E. apply bool_decide_eq_true. by rewrite <- E.
  - apply bool_decide_eq_false. intros E'.
    assert (matchIgnoringCase (JS.chars ".jsonl") suffix = true); [|congruence].
    apply matchIgnoringCase_spec. by rewrite E'.
Qed.

Lemma name_split name :
  name = String.append (JS.str (take (length (JS.chars name) - 6) (JS.chars name)))
           (JS.str (drop (length (JS.chars name) - 6) (JS.chars name))).
Proof. by rewrite <- str_app, take_drop, str_chars. Qed.

Lemma jsonl_appended t :
  drop (length (JS.chars (String.append t ".jsonl")) - 6) (JS.chars (String.append t ".jsonl"))
  = JS.chars ".jsonl"
  /\ take (length (JS.chars (String.append t ".jsonl")) - 6)
       (JS.chars (String.append t ".jsonl")) = JS.chars t.
Proof.
  rewrite chars_append, length_app.
  replace (length (JS.chars t) + length (JS.chars ".jsonl") - 6)%nat
    with (length (JS.chars t)) by (cbn; lia).
  by rewrite drop_app_length, take_app_length.
Qed.

(** X25: file names, topics and the extension. The index builder takes a
    file exactly when its name ends in [.jsonl] written in any case, and the
    topic is then the name without these six characters; any other name is
    its own topic. Appending [.jsonl] to a topic gives a file the builder
    takes, under that topic; and the name [topic + ".jsonl"], which the
    routes fetch, is the file's own name exactly when the extension is
    written in lower case. *)
Theorem topic_and_extension name :
  (if isJsonlFile name
   then exists ext, name = String.append (topicFromFile name) ext
                    /\ JS.toLowerCase ext = ".jsonl"
   else topicFromFile name = name)
  /\ (String.append (topicFromFile name) ".jsonl" = name <-> endsWith ".jsonl" name = true)
  /\ (forall t, isJsonlFile (String.append t ".jsonl") = true
                /\ topicFromFile (String.append t ".jsonl") = t).
Proof.
  split; [|split].
  - rewrite isJsonlFile_match. unfold topicFromFile.
    destruct (matchIgnoringCase _ _) eqn:E; [|done].
    exists (JS.str (drop (length (JS.chars name) - 6) (JS.chars name))).
    split; [apply name_split|].
    apply matchIgnoringCase_spec in E.
    rewrite <- (str_chars (JS.toLowerCase _)), chars_toLowerCase, chars_str, <- E. done.
  - unfold endsWith. change (String.length ".jsonl") with 6%nat.
    rewrite bool_decide_eq_true. split.
    + intros <-. by destruct (jsonl_appended (topicFromFile name)) as [-> _].
    + intros E. unfold topicFromFile. rewrite E. cbn [matchIgnoringCase].
      change (matchIgnoringCase _ _) with true. cbv iota.
      rewrite (name_split name) at 3. by rewrite E.
  - intros t. rewrite isJsonlFile_match. unfold topicFromFile.
    destruct (jsonl_appended t) as [-> ->]. split; [done|].
    change (matchIgnoringCase _ _) with true. cbv iota. apply str_chars.
Qed.
End FileNames.


Section IndexBuild.
Import CreateIndex.
Variable pathJoin : string -> string -> string.
Variable sortNames : list string -> list string.
Variable listFiles : string -> list string.

Lemma expectedTopic_snoc rel t done f :
  expectedTopic rel t (done ++ [f])
  = if String.eqb (topicFromFile f) t
    then Some (mkTopic t
                 (((fun f => mkFile f (rel f)) <$>
                     List.filter (fun f => String.eqb (topicFromFile f) t) done)
                  ++ [mkFile f (rel f)]))
    else expectedTopic rel t done.
Proof.
  unfold expectedTopic. rewrite List.filter_app. cbn [List.filter].
  destruct (String.eqb (topicFromFile f) t); [|by rewrite app_nil_r].
  destruct (List.filter _ done) as [|f' l]; [done|].
  cbn [app]. by rewrite !fmap_cons, fmap_app.
Qed.

Lemma expectedTopic_Some rel t done entry :
  expectedTopic rel t done = Some entry ->
  entry = mkTopic t ((fun f => mkFile f (rel f)) <$>
                       List.filter (fun f => String.eqb (topicFromFile f) t) done)
  /\ exists f, f ∈ done /\ topicFromFile f = t.
Proof.
  unfold expectedTopic.
  destruct (List.filter _ done) as [|f l] eqn:E; [done|]. intros [= <-]. split; [done|].
  assert (In f (List.filter (fun f => String.eqb (topicFromFile f) t) done)) as Hf
    by (rewrite E; by left).
  apply filter_In in Hf as [Hf Ht]. apply String.eqb_eq in Ht.
  exists f. split; [by apply list_elem_of_In|done].
Qed.

Lemma expectedTopic_None rel t done :
  expectedTopic rel t done = None ->
  List.filter (fun f => String.eqb (topicFromFile f) t) done = [].
Proof. unfold expectedTopic. by destruct (List.filter _ done). Qed.

Lemma addFile_spec s T done f :
  Forall (fun f => isObjectPrototypeKey (topicFromFile f) = false) done ->
  (forall t, T !! t
             = expectedTopic (fun f => JS.replaceAll backslash "/" (pathJoin s f)) t done) ->
  match addFile pathJoin s T f with
  | JS.Returned T' =>
      isObjectPrototypeKey (topicFromFile f) = false
      /\ forall t, T' !! t
           = expectedTopic (fun f => JS.replaceAll backslash "/" (pathJoin s f)) t
               (done ++ [f])
  | JS.Thrown _ => isObjectPrototypeKey (topicFromFile f) = true
  end.
Proof.
  intros Hdone HT. unfold addFile.
  destruct (T !! topicFromFile f) as [entry|] eqn:E.
  - rewrite HT in E. apply expectedTopic_Some in E as [-> (f' & Hf' & Ht)].
    split.
    { rewrite list.Forall_forall in Hdone. rewrite <- Ht. by apply Hdone. }
    intros t. rewrite expectedTopic_snoc.
    destruct (String.eqb_spec (topicFromFile f) t) as [<-|Hne].
    + by rewrite lookup_insert_eq.
    + by rewrite lookup_insert_ne.
  - destruct (isObjectPrototypeKey (topicFromFile f)) eqn:Hk; [done|].
    split; [done|]. intros t. rewrite expectedTopic_snoc.
    destruct (String.eqb_spec (topicFromFile f) t) as [<-|Hne].
    + rewrite lookup_insert_eq. rewrite HT in E.
      by rewrite (expectedTopic_None _ _ _ E).
    + by rewrite lookup_insert_ne.
Qed.

Lemma addFiles_spec s fs : forall T done,
  Forall (fun f => isObjectPrototypeKey (topicFromFile f) = false) done ->
  (forall t, T !! t
             = expectedTopic (fun f => JS.replaceAll backslash "/" (pathJoin s f)) t done) ->
  match addFiles pathJoin s fs T with
  | JS.Returned T' =>
      Forall (fun f => isObjectPrototypeKey (topicFromFile f) = false) fs
      /\ forall t, T' !! t
           = expectedTopic (fun f => JS.replaceAll backslash "/" (pathJoin s f)) t
               (done ++ fs)
  | JS.Thrown _ => Exists (fun f => isObjectPrototypeKey (topicFromFile f) = true) fs
  end.
Proof.
  induction fs as [|f fs IH]; intros T done Hdone HT; cbn [addFiles].
  - split; [apply List.Forall_nil|]. intros t. by rewrite app_nil_r.
  - pose proof (addFile_spec s T done f Hdone HT) as H.
    destruct (addFile pathJoin s T f) as [T'|m]; [|by apply List.Exists_cons_hd].
    destruct H as [Hf HT'].
    assert (Forall (fun f => isObjectPrototypeKey (topicFromFile f) = false) (done ++ [f]))
      as Hdone'.
    { apply Forall_app. split; [done|]. by apply List.Forall_cons. }
    specialize (IH T' (done ++ [f]) Hdone' HT').
    destruct (addFiles pathJoin s fs T') as [T''|m].
    + destruct IH as [Hfs HT'']. split; [by apply List.Forall_cons|].
      intros t. by rewrite HT'', <- app_assoc.
    + by apply List.Exists_cons_tl.
Qed.

(** X26: what the index holds for a subject. When the build returns, no
    [.jsonl] file of the directory has the name of an inherited property as
    its topic, every such file is listed under the topic of its name and
    under no other, the files of a topic appear in directory order, and the
    topic list holds every topic once. When the build throws, some file's
    topic is an inherited property name, such as [constructor.jsonl]. The
    sort is only known to permute. *)
Theorem index_lists_every_file s :
  (forall l, sortNames l ≡ₚ l) ->
  let jsonlFiles := List.filter isJsonlFile (listFiles s) in
  match subjectEntry pathJoin sortNames listFiles s with
  | JS.Thrown _ =>
      Exists (fun f => isObjectPrototypeKey (topicFromFile f) = true) jsonlFiles
  | JS.Returned e =>
      Forall (fun f => isObjectPrototypeKey (topicFromFile f) = false) jsonlFiles
      /\ folderName e = s
      /\ (forall t, topics e !! t
            = expectedTopic (fun f => JS.replaceAll backslash "/" (pathJoin s f)) t
                jsonlFiles)
      /\ NoDup (topicList e)
      /\ (forall t, t ∈ topicList e <-> exists f, f ∈ jsonlFiles /\ topicFromFile f = t)
  end.
Proof.
  intros Hsort. cbn zeta. unfold subjectEntry.
  pose proof (addFiles_spec s (List.filter isJsonlFile (listFiles s)) ∅ []
                (List.Forall_nil _) (fun t => lookup_empty t)) as H.
  destruct (addFiles _ _ _ _) as [T|m]; [|done].
  destruct H as [Hk HT]. cbn [app] in HT.
  cbn [folderName topics topicList].
  split; [done|]. split; [done|]. split; [done|]. split.
  - rewrite Hsort. apply NoDup_fst_map_to_list.
  - intros t. rewrite Hsort. unfold keys. rewrite list_elem_of_fmap. split.
    + intros ([t' entry] & -> & Hin). apply elem_of_map_to_list in Hin.
      cbn [fst]. rewrite HT in Hin. by apply expectedTopic_Some in Hin as [_ ?].
    + intros (f & Hf & Ht).
      destruct (T !! t) as [entry|] eqn:E.
      * exists (t, entry). split; [done|]. by apply elem_of_map_to_list.
      * rewrite HT in E. apply expectedTopic_None in E.
        assert (In f (List.filter (fun f => String.eqb (topicFromFile f) t)
                        (List.filter isJsonlFile (listFiles s)))) as Hin.
        { apply filter_In. split; [by apply list_elem_of_In|by apply String.eqb_eq]. }
        by rewrite E in Hin.
Qed.
End IndexBuild.

Lemma index_lists_every_file_witness :
  match CreateIndex.subjectEntry demoJoin Datatypes.id demoFiles "Physics" with
  | JS.Thrown _ =>
      Exists (fun f => isObjectPrototypeKey (CreateIndex.topicFromFile f) = true)
        (List.filter CreateIndex.isJsonlFile (demoFiles "Physics"))
  | JS.Returned e =>
      Forall (fun f => isObjectPrototypeKey (CreateIndex.topicFromFile f) = false)
        (List.filter CreateIndex.isJsonlFile (demoFiles "Physics"))
      /\ CreateIndex.folderName e = "Physics"
      /\ (forall t, CreateIndex.topics e !! t
            = expectedTopic
                (fun f => JS.replaceAll CreateIndex.backslash "/" (demoJoin "Physics" f)) t
                (List.filter CreateIndex.isJsonlFile (demoFiles "Physics")))
      /\ NoDup (CreateIndex.topicList e)
      /\ (forall t, t ∈ CreateIndex.topicList e <->
            exists f, f ∈ List.filter CreateIndex.isJsonlFile (demoFiles "Physics")
                      /\ CreateIndex.topicFromFile f = t)
  end.
Proof.
  apply (index_lists_every_file demoJoin Datatypes.id demoFiles "Physics"). done.
Defined.

(** The directory of the witness: two topics, [Optics] in two files. *)
Example demo_index :
  match CreateIndex.subjectEntry demoJoin Datatypes.id demoFiles "Physics" with
  | JS.Returned e =>
      CreateIndex.topics e !! "Optics"
      = Some (CreateIndex.mkTopic "Optics"
                [CreateIndex.mkFile "Optics.jsonl" "Physics/Optics.jsonl";
                 CreateIndex.mkFile "Optics.Jsonl" "Physics/Optics.Jsonl"])
      /\ CreateIndex.topics e !! "Kinematics"
         = Some (CreateIndex.mkTopic "Kinematics"
                   [CreateIndex.mkFile "Kinematics.JSONL" "Physics/Kinematics.JSONL"])
      /\ CreateIndex.topics e !! "notes.txt" = None
  | JS.Thrown _ => False
  end.
Proof. vm_compute. repeat split. Qed.


Section IndexMain.
Import CreateIndex.
Variable pathJoin : string -> string -> string.
Variable sortNames : list string -> list string.
Variable listFiles : string -> list string.
Variable now : string.
Variable root : string.

Lemma subjectLoop_spec dirs : forall S0,
  match subjectLoop pathJoin sortNames listFiles dirs S0 with
  | JS.Returned all =>
      (forall d e, all !! d = Some e ->
         S0 !! d = Some e
         \/ (d ∈ dirs /\ d <> "__proto__"
             /\ subjectEntry pathJoin sortNames listFiles d = JS.Returned e))
      /\ (forall d, d ∈ dirs -> d <> "__proto__" -> is_Some (all !! d))
      /\ (forall d, is_Some (S0 !! d) -> is_Some (all !! d))
  | JS.Thrown m =>
      exists d, d ∈ dirs /\ subjectEntry pathJoin sortNames listFiles d = JS.Thrown m
  end.
Proof.
  induction dirs as [|d ds IH]; intros S0; cbn [subjectLoop].
  - split; [by left|]. split; [by intros d ?%elem_of_nil|done].
  - destruct (subjectEntry pathJoin sortNames listFiles d) as [e|m] eqn:He.
    2:{ exists d. split; [left|done]. }
    set (S1 := if String.eqb d "__proto__" then S0 else <[d := e]> S0).
    specialize (IH S1).
    destruct (subjectLoop pathJoin sortNames listFiles ds S1) as [all|m].
    2:{ destruct IH as (d' & Hd' & H). exists d'. split; [by right|done]. }
    destruct IH as (H1 & H2 & H3).
    assert (forall k, is_Some (S0 !! k) -> is_Some (S1 !! k)) as H01.
    { intros k Hk. subst S1. destruct (String.eqb d "__proto__"); [done|].
      destruct (decide (k = d)) as [->|Hne];
        [by rewrite lookup_insert_eq|by rewrite lookup_insert_ne]. }
    split; [|split].
    + intros k e' Hk. destruct (H1 k e' Hk) as [Hk1|(Hin & Hne & Hek)].
      * subst S1. destruct (String.eqb_spec d "__proto__") as [_|Hp]; [by left|].
        destruct (decide (k = d)) as [->|Hkd].
        -- rewrite lookup_insert_eq in Hk1. injection Hk1 as <-.
           right. split; [left|done].
        -- rewrite lookup_insert_ne in Hk1 by done. by left.
      * right. split; [by right|done].
    + intros k Hk Hne. apply elem_of_cons in Hk as [->|Hk]; [|by apply H2].
      apply H3. subst S1. destruct (String.eqb_spec d "__proto__") as [?|_]; [done|].
      by rewrite lookup_insert_eq.
    + intros k Hk. by apply H3, H01.
Qed.

(** X27: what [main] writes. When it returns, the index has an entry for
    every subject directory except one named [__proto__], each entry is the
    one built from the files of its directory, and the subject list holds
    every indexed subject once. It throws exactly the exception of a
    directory whose entry cannot be built. The sort is only known to
    permute. *)
Theorem main_indexes_every_directory subjectDirs :
  (forall l, sortNames l ≡ₚ l) ->
  match main pathJoin sortNames listFiles now root subjectDirs with
  | JS.Returned out =>
      (forall d, d ∈ subjectList out <-> d ∈ subjectDirs /\ d <> "__proto__")
      /\ NoDup (subjectList out)
      /\ (forall d e, subjects out !! d = Some e ->
            subjectEntry pathJoin sortNames listFiles d = JS.Returned e)
  | JS.Thrown m =>
      exists d, d ∈ subjectDirs
                /\ subjectEntry pathJoin sortNames listFiles d = JS.Thrown m
  end.
Proof.
  intros Hsort. unfold main.
  pose proof (subjectLoop_spec subjectDirs ∅) as H.
  destruct (subjectLoop pathJoin sortNames listFiles subjectDirs ∅) as [all|m]; [|done].
  destruct H as (H1 & H2 & _). cbn [subjectList subjects].
  split; [|split].
  - intros d. rewrite Hsort. unfold keys. rewrite list_elem_of_fmap. split.
    + intros ([d' e] & -> & Hin). apply elem_of_map_to_list in Hin. cbn [fst].
      destruct (H1 d' e Hin) as [Hn|(? & ? & _)]; [by rewrite lookup_empty in Hn|done].
    + intros [Hd Hne]. destruct (H2 d Hd Hne) as [e He].
      exists (d, e). split; [done|]. by apply elem_of_map_to_list.
  - rewrite Hsort. apply NoDup_fst_map_to_list.
  - intros d e He. destruct (H1 d e He) as [Hn|(_ & _ & ?)]; [|done].
    by rewrite lookup_empty in Hn.
Qed.
End IndexMain.

Lemma main_indexes_every_directory_witness :
  match CreateIndex.main demoJoin Datatypes.id demoFiles "2026-01-01T00:00:00.000Z"
          "/data/mocks_jsonl" ["Physics"; "__proto__"; "Chemistry"] with
  | JS.Returned out =>
      (forall d, d ∈ CreateIndex.subjectList out <->
                 d ∈ ["Physics"; "__proto__"; "Chemistry"] /\ d <> "__proto__")
      /\ NoDup (CreateIndex.subjectList out)
      /\ (forall d e, CreateIndex.subjects out !! d = Some e ->
            CreateIndex.subjectEntry demoJoin Datatypes.id demoFiles d = JS.Returned e)
  | JS.Thrown m =>
      exists d, d ∈ ["Physics"; "__proto__"; "Chemistry"]
                /\ CreateIndex.subjectEntry demoJoin Datatypes.id demoFiles d = JS.Thrown m
  end.
Proof.
  apply (main_indexes_every_directory demoJoin Datatypes.id demoFiles). done.
Defined.


(** ** From the topics route to the assembly *)

Section ListedTopics.
Import MockRoute.
Variable sortNames : list string -> list string.

(** X28: every topic that the topics route lists can be requested. When
    the route answers for a subject with a list of topics, the count is the
    length of the list, and a listed topic that is not empty and is a plain
    key, requested as a chapter of a mock, resolves against the same index:
    to a subject that lists a topic of its normal form (the last such
    subject of the index). The sort is only known to permute. *)
Theorem listed_topics_resolve index subject topics count t :
  (forall l, sortNames l ≡ₚ l) ->
  TopicsRoute.GET sortNames (Some index) subject = TopicsRoute.Topics subject topics count ->
  t ∈ topics -> t <> EmptyString -> plainKey t ->
  count = length topics
  /\ exists s node,
       findSubjectsForChapters index [t] !! t = Some s
       /\ (s, node) ∈ default [] index
       /\ lists t (s, node) = true.
Proof.
  intros Hsort Hget Ht Hne _. unfold TopicsRoute.GET in Hget.
  destruct (TopicsRoute.lookupSubject index subject) as [node|] eqn:Hl; [|done].
  injection Hget as <- <-. split; [done|].
  unfold TopicsRoute.lookupSubject in Hl.
  destruct index as [subjects|]; [|done].
  destruct (list_to_map subjects !! subject) as [n|] eqn:Hn.
  2:{ destruct (isObjectPrototypeKey subject); [|done]. injection Hl as <-.
      rewrite Hsort in Ht. by apply elem_of_nil in Ht. }
  injection Hl as <-. apply elem_of_list_to_map_2 in Hn.
  assert (t ∈ topicsOf n) as Htn.
  { unfold topicsOf. destruct (topicList n); [done|]. by rewrite Hsort in Ht. }
  assert (lists t (subject, n) = true) as Hlists.
  { unfold lists. apply existsb_exists. exists t.
    split; [by apply list_elem_of_In|by apply bool_decide_eq_true]. }
  assert (firstSpelling [t] t = true) as Hfirst.
  { unfold firstSpelling. cbn [List.find].
    rewrite (bool_decide_eq_true_2 (normalize t = normalize t)) by done.
    rewrite bool_decide_eq_true_2 by done. by destruct t. }
  unfold findSubjectsForChapters. cbn [default from_option Datatypes.id].
  rewrite resolve_subjects, Hfirst, lookup_empty.
  destruct (list.last (fst <$> List.filter (lists t) subjects)) as [s|] eqn:Hlast.
  - apply last_Some_elem_of in Hlast. apply list_elem_of_fmap in Hlast as ([s' node] & -> & Hin).
    apply list_elem_of_In, filter_In in Hin as [Hin Hls].
    exists s', node. split; [done|]. split; [by apply list_elem_of_In|done].
  - exfalso.
    assert (In (subject, n) (List.filter (lists t) subjects)) as Hin.
    { apply filter_In. split; [by apply list_elem_of_In|done]. }
    destruct (List.filter (lists t) subjects) as [|x l]; [done|].
    rewrite fmap_cons, last_cons in Hlast. by destruct (list.last (fst <$> l)).
Qed.
End ListedTopics.

Lemma listed_topics_resolve_witness :
  3%nat = length ["Kinematics"; "Laws of Motion"; "Optics"]
  /\ exists s node,
       MockRoute.findSubjectsForChapters
         (Some [("Physics",
                 MockRoute.mkNode None (Some ["Optics"; "Kinematics"; "Laws of Motion"]))])
         ["Optics"] !! "Optics" = Some s
       /\ (s, node) ∈ default []
            (Some [("Physics",
                    MockRoute.mkNode None (Some ["Optics"; "Kinematics"; "Laws of Motion"]))])
       /\ lists "Optics" (s, node) = true.
Proof.
  apply (listed_topics_resolve
           (fun l => match l with
                     | [a; b; c] => [b; c; a]
                     | _ => l
                     end)
           (Some [("Physics",
                   MockRoute.mkNode None (Some ["Optics"; "Kinematics"; "Laws of Motion"]))])
           "Physics" ["Kinematics"; "Laws of Motion"; "Optics"] 3 "Optics").
  - intros [|a [|b [|c [|d l]]]]; try done.
    apply Permutation_sym, (Permutation_cons_append [b; c] a).
  - vm_compute. reflexivity.
  - do 2 right. left.
  - done.
  - done.
Defined.


(** ** Questions without an answer key *)

Section Keyless.
Import MockRoute MockClient.

(** X29: a question that the assembly builds from a record without an
    answer for it (no [answer_key], one too short, or a blank entry) can
    only be left out or lost: wherever it stands in an exam, its row is
    never correct, and every non-blank answer to it is marked wrong, for
    -1. *)
Theorem keyless_question_is_never_correct listItems subjectName chapterName record i raw
    mock answers k :
  inferCorrectAnswer record i = None ->
  questions mock !! k = Some (poolEntry listItems subjectName chapterName record i raw) ->
  exists r,
    breakdown (computeResult mock answers) !! k = Some r
    /\ verdict r <> correct /\ marks r <= 0
    /\ (JS.trim (default EmptyString
                   (answers !! id (poolEntry listItems subjectName chapterName record i raw)))
        <> EmptyString ->
        verdict r = wrong /\ marks r = -1).
Proof.
  intros Hkey Hk. unfold computeResult; cbn [breakdown].
  destruct (scoreLoop_spec answers (questions mock) 0%nat (mkCounters 0 0 0 0 []))
    as (rows & Hb & _ & _ & Hsc & _).
  cbn [c_breakdown app] in Hb. rewrite Hb.
  apply (f_equal (fun l => l !! k)) in Hsc. rewrite !list_lookup_fmap, Hk in Hsc.
  set (q := poolEntry listItems subjectName chapterName record i raw) in *.
  destruct (rows !! k) as [r|]; [|done].
  cbv [fmap option_fmap option_map] in Hsc. injection Hsc as Hr.
  exists r. split; [done|].
  change (rowScore r = markingRule (answers !! id q) (inferCorrectAnswer record i)) in Hr.
  rewrite Hkey in Hr. unfold rowScore in Hr.
  destruct (decide (JS.trim (default EmptyString (answers !! id q)) = EmptyString)) as [E|E].
  - unfold markingRule in Hr. rewrite (bool_decide_eq_true_2 _ E) in Hr.
    injection Hr as -> ->. repeat split; done.
  - rewrite (markingRule_no_key _ None E eq_refl) in Hr.
    injection Hr as -> ->. repeat split; done.
Qed.

Lemma keyless_question_is_never_correct_witness :
  let q := poolEntry noListItems "Physics" "Kinematics" Doubles.record 0
             (MockRoute.mkRaw (Some 1) None None "Find x." None None) in
  let mock := mkPayload "" "" (JS.Num 1200) (JS.Num 10) ["Kinematics"] [q] in
  let answers : gmap string string := {[ id q := "42" ]} in
  exists r,
    breakdown (computeResult mock answers) !! 0%nat = Some r
    /\ verdict r <> correct /\ marks r <= 0
    /\ (JS.trim (default EmptyString (answers !! id q)) <> EmptyString ->
        verdict r = wrong /\ marks r = -1).
Proof.
  apply (keyless_question_is_never_correct noListItems "Physics" "Kinematics"
           Doubles.record 0 (MockRoute.mkRaw (Some 1) None None "Find x." None None)).
  - reflexivity.
  - reflexivity.
Defined.
End Keyless.


(** ** The clock *)

Section Clock.

Lemma twoDigits_cases z : 0 <= z < 100 -> twoDigits z = true.
Proof.
  intros Hz.
  assert (forallb (fun k => twoDigits (Z.of_nat k)) (seq 0 (10 * 10)) = true) as H
    by (vm_compute; reflexivity).
  rewrite forallb_forall in H. rewrite <- (Z2Nat.id z) by lia.
  apply H, in_seq. lia.
Qed.

Lemma two_by_two a b :
  String.length a = 2%nat -> String.length b = 2%nat ->
  let text := String.append a (String.append ":" b) in
  String.length text = 5%nat /\ String.get 2 text = Some ":"%char
  /\ JS.sliceTo 2 text = a /\ JS.sliceFrom 3 text = b.
Proof.
  destruct a as [|a1 [|a2 [|a3 a]]]; try done.
  destruct b as [|b1 [|b2 [|b3 b]]]; try done.
Qed.

(** X30: the clock of a session. For every remaining time below 100
    minutes, negative ones included, [msToClock] gives exactly five
    characters [mm:ss] whose two numbers read back as the whole minutes and
    the seconds of [max(0, floor(ms / 1000))]; it shows [00:00] exactly when
    less than a second is left. *)
Theorem msToClock_reads_back ms :
  ms < 6000000 ->
  let s := Z.max 0 (ms / 1000) in
  let text := msToClock ms in
  String.length text = 5%nat
  /\ String.get 2 text = Some ":"%char
  /\ JS.Number_of_string (JS.sliceTo 2 text) = Some (s / 60)
  /\ JS.Number_of_string (JS.sliceFrom 3 text) = Some (s mod 60)
  /\ (text = "00:00" <-> ms < 1000).
Proof.
  intros Hms. cbn zeta. unfold msToClock. cbn zeta.
  set (s := Z.max 0 (ms / 1000)).
  assert (0 <= s < 6000) as Hs.
  { subst s. split; [lia|].
    assert (ms / 1000 < 6000) by (apply Z.div_lt_upper_bound; lia). lia. }
  assert (0 <= s / 60 < 100) as Hmm.
  { split; [apply Z.div_pos; lia|apply Z.div_lt_upper_bound; lia]. }
  assert (0 <= s mod 60 < 60) as Hss by (apply Z.mod_pos_bound; lia).
  pose proof (twoDigits_cases (s / 60) Hmm) as Ha.
  pose proof (twoDigits_cases (s mod 60) ltac:(lia)) as Hb.
  unfold twoDigits in Ha, Hb. cbn zeta in Ha, Hb.
  apply andb_prop in Ha as [Ha1 Ha2]. apply andb_prop in Hb as [Hb1 Hb2].
  apply Nat.eqb_eq in Ha1, Hb1. apply bool_decide_eq_true in Ha2, Hb2.
  destruct (two_by_two _ _ Ha1 Hb1) as (H1 & H2 & H3 & H4).
  split; [done|]. split; [done|]. rewrite H3, H4.
  split; [done|]. split; [done|].
  split.
  - intros E. rewrite <- H3, E in Ha2. rewrite <- H4, E in Hb2.
    assert (s / 60 = 0 /\ s mod 60 = 0) as [Hq Hr].
    { split; [by injection Ha2|by injection Hb2]. }
    assert (s = 0) as Hs0 by (rewrite (Z.div_mod s 60) by done; lia).
    assert (ms / 1000 <= 0) as Hd by lia.
    destruct (Z_lt_ge_dec ms 1000) as [|Hge]; [done|].
    assert (1 <= ms / 1000) by (apply Z.div_le_lower_bound; lia). lia.
  - intros Hlt.
    assert (s = 0) as ->; [|done].
    subst s. assert (ms / 1000 <= 0); [|lia].
    assert (ms / 1000 < 1) by (apply Z.div_lt_upper_bound; lia). lia.
Qed.

Lemma msToClock_reads_back_witness :
  let ms := 754321 in
  let s := Z.max 0 (ms / 1000) in
  let text := msToClock ms in
  String.length text = 5%nat
  /\ String.get 2 text = Some ":"%char
  /\ JS.Number_of_string (JS.sliceTo 2 text) = Some (s / 60)
  /\ JS.Number_of_string (JS.sliceFrom 3 text) = Some (s mod 60)
  /\ (text = "00:00" <-> ms < 1000).
Proof. apply msToClock_reads_back. lia. Defined.

(** Twelve and a half minutes, the last second, and a deadline passed. *)
Example clock_scenario :
  msToClock 754321 = "12:34" /\ msToClock 999 = "00:00" /\ msToClock (-5000) = "00:00"
  /\ msToClock 1200000 = "20:00".
Proof. vm_compute. repeat split. Qed.
End Clock.

(** ** The scoring call as the engine evaluates it *)

Section RuntimeScoring.
Import MockClient.
Variable answers : gmap string string.

Lemma unreadable_spec q :
  if Runtime.unreadable answers q
  then isObjectPrototypeKey (id q) = true /\ answers !! id q = None
  else plainKey (id q) \/ is_Some (answers !! id q).
Proof.
  unfold Runtime.unreadable, plainKey.
  destruct (isObjectPrototypeKey (id q)); [|by left].
  destruct (answers !! id q) as [v|]; simpl.
  - right. by exists v.
  - done.
Qed.

(** Where the read of the answer returns, the iteration is that of
    [MockClient.scoreQuestion]. *)
Lemma scoreQuestion_agrees acc i q :
  Runtime.scoreQuestion answers acc i q
  = if Runtime.unreadable answers q then JS.Thrown Runtime.typeError
    else JS.Returned (MockClient.scoreQuestion answers acc i q).
Proof.
  unfold Runtime.scoreQuestion, Runtime.readAnswer, Runtime.unreadable,
    MockClient.scoreQuestion.
  destruct (answers !! id q) as [v|]; simpl.
  - by rewrite andb_false_r.
  - by destruct (isObjectPrototypeKey (id q)).
Qed.

Lemma scoreLoop_agrees qs : forall i acc,
  Runtime.scoreLoop answers i qs acc
  = if existsb (Runtime.unreadable answers) qs then JS.Thrown Runtime.typeError
    else JS.Returned (MockClient.scoreLoop answers i qs acc).
Proof.
  induction qs as [|q qs IH]; intros i acc; simpl; [done|].
  rewrite scoreQuestion_agrees.
  destruct (Runtime.unreadable answers q); simpl; [done|apply IH].
Qed.

Lemma existsb_unreadable qs :
  if existsb (Runtime.unreadable answers) qs
  then Exists (fun q => isObjectPrototypeKey (id q) = true /\ answers !! id q = None) qs
  else Forall (fun q => plainKey (id q) \/ is_Some (answers !! id q)) qs.
Proof.
  induction qs as [|q qs IH]; simpl; [by apply List.Forall_nil|].
  pose proof (unreadable_spec q) as Hq.
  destruct (Runtime.unreadable answers q); simpl.
  - by apply Exists_cons_hd.
  - destruct (existsb _ qs).
    + by apply Exists_cons_tl.
    + by apply List.Forall_cons.
Qed.
End RuntimeScoring.

Section RuntimeTheorems.
Import MockClient.

(** The call returns exactly when every answer can be read, and then
    [MockClient.computeResult] has its counters, marks and breakdown. *)
Lemma computeResult_agrees mock answers :
  match Runtime.computeResult mock answers with
  | JS.Returned r =>
      let p := MockClient.computeResult mock answers in
      existsb (Runtime.unreadable answers) (questions mock) = false
      /\ totalQuestions r = totalQuestions p
      /\ r_attempted r = r_attempted p /\ r_correct r = r_correct p
      /\ r_wrong r = r_wrong p /\ r_unattempted r = r_unattempted p
      /\ marksCorrect r = marksCorrect p /\ marksWrong r = marksWrong p
      /\ netMarks r = netMarks p /\ maxMarks r = maxMarks p
      /\ breakdown r = breakdown p
  | JS.Thrown m =>
      existsb (Runtime.unreadable answers) (questions mock) = true
      /\ m = Runtime.typeError
  end.
Proof.
  unfold Runtime.computeResult. rewrite scoreLoop_agrees.
  destruct (existsb _ _); [done|].
  cbn zeta. unfold MockClient.computeResult. cbn. repeat split.
Qed.

(** C4: the scoring call returns exactly when every answer can be read: each
    question id is a plain key or has an entry of its own in the answer map.
    Then every breakdown row carries the verdict and the marks of the
    marking rule of the specification on the user's answer and the answer
    key. When some question id is a name inherited from [Object.prototype]
    and the answer map has no entry for it, the call throws and no question
    is scored. *)
Theorem computeResult_marking mock answers :
  match Runtime.computeResult mock answers with
  | JS.Returned r =>
      Forall (fun q => plainKey (id q) \/ is_Some (answers !! id q)) (questions mock)
      /\ rowScore <$> breakdown r
         = (fun q => markingRule (answers !! id q) (correctAnswer q)) <$> questions mock
  | JS.Thrown m =>
      Exists (fun q => isObjectPrototypeKey (id q) = true /\ answers !! id q = None)
        (questions mock)
      /\ m = Runtime.typeError
  end.
Proof.
  pose proof (computeResult_agrees mock answers) as H.
  pose proof (existsb_unreadable answers (questions mock)) as He.
  destruct (Runtime.computeResult mock answers) as [r|m].
  - destruct H as (E & _ & _ & _ & _ & _ & _ & _ & _ & _ & Hb).
    rewrite E in He. split; [done|]. rewrite Hb.
    unfold MockClient.computeResult; cbn [breakdown].
    destruct (scoreLoop_spec answers (questions mock) 0%nat (mkCounters 0 0 0 0 []))
      as (rows & Hrows & _ & _ & Hsc & _).
    rewrite Hrows. exact Hsc.
  - destruct H as [E ->]. rewrite E in He. done.
Qed.

End RuntimeTheorems.


(** C4 fails for a question whose id is [constructor] and an empty answer
    map: the marking rule makes the question unattempted, with 0 marks; the
    call throws, because the read finds the inherited function. *)
Lemma inherited_id_is_not_scored :
  Runtime.computeResult inheritedIdPayload ∅ = JS.Thrown Runtime.typeError
  /\ (fun q => markingRule ((∅ : gmap string string) !! id q) (correctAnswer q))
       <$> questions inheritedIdPayload
     = [(MockClient.unattempted, 0)].
Proof. split; vm_compute; reflexivity. Qed.


(** The rounding of [Runtime.double] on numbers whose binary64 value is
    known: one tenth, a negative third, the ties at [2^53 + 1] (to the even
    significand below) and [2^53 + 3] (above), and the least subnormal. *)
Example double_values :
  Runtime.double (1 # 10) = 3602879701896397 # 36028797018963968
  /\ Runtime.double (- 1 # 3) = - 6004799503160661 # 18014398509481984
  /\ Runtime.double 9007199254740993 = 9007199254740992%Q
  /\ Runtime.double 9007199254740995 = 9007199254740996%Q
  /\ Runtime.double (Runtime.pow2 (-1074) * (3 # 5)) = Runtime.pow2 (-1074)
  /\ Runtime.double (Runtime.pow2 (-1074) * (1 # 2)) = 0%Q
  /\ Runtime.double (3 # 4) = (3 # 4)%Q.
Proof. vm_compute. repeat split. Qed.

(** On the exam of the specification's scenario nothing is lost to
    rounding: 3 marks of 8 are 37.5 percent, one answer of two is 50 percent. *)
Example runtime_demo_scores :
  match Runtime.computeResult demoPayload demoAnswers with
  | JS.Returned r =>
      rowScore <$> MockClient.breakdown r = [(MockClient.correct, 4); (MockClient.wrong, -1)]
      /\ MockClient.netMarks r = 3 /\ MockClient.maxMarks r = 8
      /\ (MockClient.scorePercent r == 375 # 10)%Q
      /\ (MockClient.accuracyPercent r == 50)%Q
  | JS.Thrown _ => False
  end.
Proof. vm_compute. repeat split; congruence. Qed.
